(** * mail-automation: the retrieval / normalise / enrich / cache pipeline

    A shallow embedding of the server side of the repository
    ([server/services/openRouterService.ts], [server/services/emailService.ts]
    and [server/routes/emails.ts]) together with the properties the
    specification states about it.

    Conventions of the embedding:
    - a JavaScript string is a [string]; one character stands for one code unit;
    - a JavaScript number that the code only counts, compares or prints is a [Z];
    - a value produced by [JSON.parse] / [response.json()] is a [JSValue];
    - [throw] / a rejected promise is the [Throw] constructor of [Exc];
    - the external world (the enrichment provider, [JSON.parse], the clock,
      the completion order of concurrent tasks) is passed in explicitly. *)

From Stdlib Require Import ZArith Ascii String List Lia Bool ZifyBool.
From Stdlib Require Import Sorting.Sorted Sorting.Permutation.
From Stdlib Require DecimalString.
From stdpp Require Import base option list gmap strings.

Set Warnings "-register-all".
Local Open Scope Z_scope.

(** ** JavaScript values and exceptions *)

Module JS.

Inductive JSError : Type :=
| Error (message : string)
| TypeError (message : string).

Inductive Exc (A : Type) : Type :=
| Ok (a : A)
| Throw (e : JSError).
Arguments Ok {A} a.
Arguments Throw {A} e.

(** sequencing of statements that may throw: [x ← m; k] *)
#[global] Instance Exc_bind : MBind Exc := fun A B (k : A -> Exc B) (m : Exc A) =>
  match m with
  | Ok a => k a
  | Throw e => Throw e
  end.

#[global] Instance Exc_ret : MRet Exc := fun A a => Ok a.

(** [if (cond) throw e;] *)
Definition throwIf (cond : bool) (e : JSError) : Exc unit :=
  if cond then Throw e else Ok tt.

(** The values the services handle: what [JSON.parse] and [response.json()]
    produce, and [undefined]. Numbers are kept as integers: the code only
    tests a number for zero or passes it on. An object is the list of its
    own properties, each key once. *)
Inductive JSValue : Type :=
| VUndefined
| VNull
| VBool (b : bool)
| VNum (n : Z)
| VStr (s : string)
| VArr (elems : list JSValue)
| VObj (fields : list (string * JSValue)).

(** ToBoolean *)
Definition truthy (v : JSValue) : bool :=
  match v with
  | VUndefined | VNull => false
  | VBool b => b
  | VNum n => negb (n =? 0)
  | VStr s => negb (String.eqb s "")
  | VArr _ | VObj _ => true
  end.

(** [v === 0] *)
Definition is_zero (v : JSValue) : bool :=
  match v with
  | VNum n => n =? 0
  | _ => false
  end.

(** [a || b] *)
Definition or_else (a b : JSValue) : JSValue := if truthy a then a else b.

Fixpoint lookup_field (k : string) (fields : list (string * JSValue)) : option JSValue :=
  match fields with
  | [] => None
  | (k', v) :: rest => if String.eqb k k' then Some v else lookup_field k rest
  end.

Definition str_length (s : string) : Z := Z.of_nat (String.length s).

(** [v.name] for a property name that is not an array index. *)
Definition get (v : JSValue) (name : string) : Exc JSValue :=
  match v with
  | VUndefined => Throw (TypeError ("Cannot read properties of undefined (reading '" +:+ name +:+ "')"))
  | VNull => Throw (TypeError ("Cannot read properties of null (reading '" +:+ name +:+ "')"))
  | VBool _ | VNum _ => Ok VUndefined
  | VStr s => Ok (if String.eqb name "length" then VNum (str_length s) else VUndefined)
  | VArr l => Ok (if String.eqb name "length" then VNum (Z.of_nat (length l)) else VUndefined)
  | VObj fs => Ok (default VUndefined (lookup_field name fs))
  end.

(** [v[0]] *)
Definition get0 (v : JSValue) : Exc JSValue :=
  match v with
  | VUndefined => Throw (TypeError "Cannot read properties of undefined (reading '0')")
  | VNull => Throw (TypeError "Cannot read properties of null (reading '0')")
  | VBool _ | VNum _ => Ok VUndefined
  | VStr s => Ok (match s with String c _ => VStr (String c "") | "" => VUndefined end)
  | VArr l => Ok (match l with x :: _ => x | [] => VUndefined end)
  | VObj fs => Ok (default VUndefined (lookup_field "0" fs))
  end.

(** [v?.name] *)
Definition get_opt (v : JSValue) (name : string) : JSValue :=
  match v with
  | VUndefined | VNull => VUndefined
  | _ => match get v name with Ok x => x | Throw _ => VUndefined end
  end.

(** [v.name = ...] in strict mode (the services are ES modules): creating a
    property on a primitive throws, on an object or array it succeeds. *)
Definition assignable (v : JSValue) (name : string) : Exc unit :=
  match v with
  | VObj _ | VArr _ => Ok tt
  | VUndefined => Throw (TypeError ("Cannot set properties of undefined (setting '" +:+ name +:+ "')"))
  | VNull => Throw (TypeError ("Cannot set properties of null (setting '" +:+ name +:+ "')"))
  | _ => Throw (TypeError ("Cannot create property '" +:+ name +:+ "'"))
  end.

(** *** String methods *)

Definition is_ws (c : ascii) : bool :=
  match c with
  | "009" | "010" | "011" | "012" | "013" | " " | "160" => true
  | _ => false
  end%char.

Fixpoint trimStart (s : string) : string :=
  match s with
  | String c s' => if is_ws c then trimStart s' else s
  | "" => ""
  end.

(** the string up to and including its last non-blank character *)
Fixpoint trimEnd (s : string) : string :=
  match s with
  | "" => ""
  | String c s' =>
      match trimEnd s' with
      | "" => if is_ws c then "" else String c ""
      | t => String c t
      end
  end.

Definition trim (s : string) : string := trimEnd (trimStart s).

Definition startsWith (s p : string) : bool := String.prefix p s.

(** position of the first occurrence, [None] for JavaScript's -1 *)
Fixpoint indexOf (sep s : string) : option nat :=
  if String.prefix sep s then Some 0%nat
  else match s with
       | "" => None
       | String _ s' => S <$> indexOf sep s'
       end.

Definition includes (s sub : string) : bool := bool_decide (is_Some (indexOf sub s)).

Fixpoint drop_str (n : nat) (s : string) : string :=
  match n, s with
  | O, _ => s
  | S n', String _ s' => drop_str n' s'
  | S _, "" => ""
  end.

Fixpoint take_str (n : nat) (s : string) : string :=
  match n, s with
  | S n', String c s' => String c (take_str n' s')
  | _, _ => ""
  end.

(** [s.substring(0, n)] *)
Definition substring0 (n : nat) (s : string) : string := take_str n s.

(** [s.split(sep)] for a non-empty separator: [split_go] returns the segment
    under construction and the segments after it; [skip] counts the
    characters of a matched separator still to be passed over. *)
Fixpoint split_go (sep : string) (skip : nat) (s : string) : string * list string :=
  match s with
  | "" => ("", [])
  | String c s' =>
      match skip with
      | S k => split_go sep k s'
      | O =>
          if String.prefix sep s
          then ("", let '(a, l) := split_go sep (Nat.pred (String.length sep)) s' in a :: l)
          else let '(a, l) := split_go sep 0 s' in (String c a, l)
      end
  end.

Definition split (s sep : string) : list string :=
  let '(a, l) := split_go sep 0 s in a :: l.

(** [arr[i]] on an array of strings *)
Definition at_index (l : list string) (i : nat) : JSValue :=
  match l !! i with Some s => VStr s | None => VUndefined end.

(** the longest prefix that ends in ["}"], if the string contains one *)
Fixpoint upto_last_close (s : string) : option string :=
  match s with
  | "" => None
  | String c s' =>
      match upto_last_close s' with
      | Some m => Some (String c m)
      | None => if Ascii.eqb c "}" then Some "}" else None
      end
  end.

(** [s.match(/\{[\s\S]*\}/)]: leftmost ["{"] at which the greedy body can be
    closed by a later ["}"]; the match runs to the LAST ["}"]. *)
Fixpoint match_braces (s : string) : option string :=
  match s with
  | "" => None
  | String c s' =>
      if Ascii.eqb c "{"
      then match upto_last_close s' with
           | Some m => Some (String c m)
           | None => match_braces s'
           end
      else match_braces s'
  end.

(** [s.replace(/```[\s\S]*?```/g, '')]: every span from a fence to the next
    fence is deleted, left to right; an unclosed fence stays. [inside] holds
    the pending text (in reverse) after an opening fence, [skip] as in
    [split_go]. *)
Fixpoint strip_fences_go (skip : nat) (inside : option string) (s : string) : string :=
  match s with
  | "" => match inside with
          | None => ""
          | Some pending => String.rev pending
          end
  | String c s' =>
      match skip, inside with
      | S k, None => strip_fences_go k None s'
      | S k, Some pending => strip_fences_go k (Some (String c pending)) s'
      | O, None =>
          if String.prefix "```" s
          then strip_fences_go 2 (Some "`") s'
          else String c (strip_fences_go 0 None s')
      | O, Some pending =>
          if String.prefix "```" s
          then strip_fences_go 2 None s'
          else strip_fences_go 0 (Some (String c pending)) s'
      end
  end.

Definition strip_fences (s : string) : string := strip_fences_go 0 None s.

(** [s.replace(/[^a-zA-Z0-9-]/g, '-')] *)
Definition is_id_char (c : ascii) : bool :=
  let n := nat_of_ascii c in
  ((48 <=? n) && (n <=? 57) || (65 <=? n) && (n <=? 90) || (97 <=? n) && (n <=? 122)
   || (n =? 45))%nat.

Fixpoint sanitize (s : string) : string :=
  match s with
  | "" => ""
  | String c s' => String (if is_id_char c then c else "-"%char) (sanitize s')
  end.

(** [`${n}`] for an integral number *)
Definition string_of_Z (n : Z) : string :=
  DecimalString.NilZero.string_of_int (Z.to_int n).

(** [`${v}`], the conversion of a value to the text a template literal
    prints. A number prints as its decimal digits (the numbers of the
    embedding are integers below 1e21 in magnitude, which JavaScript prints
    so). An array prints its elements joined by commas, [null] and
    [undefined] elements as nothing. An object prints as [[object Object]];
    one with an own ["toString"] property (which, coming from JSON, is not
    callable) cannot be converted: a TypeError. *)
Fixpoint toText (v : JSValue) : Exc string :=
  match v with
  | VUndefined => Ok "undefined"
  | VNull => Ok "null"
  | VBool b => Ok (if b then "true" else "false")
  | VNum n => Ok (string_of_Z n)
  | VStr s => Ok s
  | VArr elems =>
      (fix join (l : list JSValue) : Exc string :=
         match l with
         | [] => Ok ""
         | x :: rest =>
             match (match x with
                    | VUndefined | VNull => Ok ""
                    | _ => toText x
                    end) with
             | Throw e => Throw e
             | Ok first =>
                 match rest with
                 | [] => Ok first
                 | _ :: _ =>
                     match join rest with
                     | Throw e => Throw e
                     | Ok others => Ok (first +:+ "," +:+ others)
                     end
                 end
             end
         end) elems
  | VObj fields =>
      match lookup_field "toString" fields with
      | Some _ => Throw (TypeError "Cannot convert object to primitive value")
      | None => Ok "[object Object]"
      end
  end.

End JS.

(** ** The enrichment client ([server/services/openRouterService.ts]) *)

Module OpenRouter.
Import JS.

(** [AIResponse]. The declared types of [summary] and [events] are [string]
    and [string[]]; at run time they hold whatever the provider's JSON held,
    so they are kept as [JSValue]s. *)
Record AIResponse : Type := mkAIResponse {
  category : string;
  summary : JSValue;
  events : JSValue
}.

(** What [await fetch(...)] can do: reject, or resolve to a response whose
    body readers [text()] and [json()] may themselves reject. *)
Record HttpResponse : Type := mkHttpResponse {
  status : Z;
  statusText : string;
  text : Exc string;
  json : Exc JSValue
}.

Inductive FetchOutcome : Type :=
| FetchRejects (e : JSError)
| FetchResolves (r : HttpResponse).

(** [response.ok] *)
Definition ok (r : HttpResponse) : bool := (200 <=? status r) && (status r <=? 299).

Definition validCategories : list string :=
  ["Important-Academics"; "Important-Deadline"; "Event"; "General"].

Definition emptyInputResult : AIResponse :=
  {| category := "General"; summary := VStr "No email content to analyze."; events := VArr [] |}.

Definition defaultResult : AIResponse :=
  {| category := "General"; summary := VStr "Unable to analyze email content."; events := VArr [] |}.

(** [validCategories.includes(v)]: SameValueZero against four strings *)
Definition includesCategory (v : JSValue) : option string :=
  match v with
  | VStr s => if bool_decide (s ∈ validCategories) then Some s else None
  | _ => None
  end.

(** [x.split(sep)] where [x] came out of an array access *)
Definition split_of (x : JSValue) (sep : string) : Exc (list string) :=
  match x with
  | VStr s => Ok (split s sep)
  | _ => Throw (TypeError "Cannot read properties of undefined (reading 'split')")
  end.

(** [arr[i].trim()] *)
Definition trim_of (x : JSValue) : Exc string :=
  match x with
  | VStr s => Ok (trim s)
  | _ => Throw (TypeError "Cannot read properties of undefined (reading 'trim')")
  end.

(** Lines 312-326: from the provider's text to the text handed to
    [JSON.parse]. *)
Definition stripFence (jsonText : string) : Exc string :=
  if includes jsonText "```json" then
    inner ← split_of (at_index (split jsonText "```json") 1) "```";
    trim_of (at_index inner 0)
  else if includes jsonText "```" then
    inner ← split_of (at_index (split jsonText "```") 1) "```";
    trim_of (at_index inner 0)
  else Ok jsonText.

Definition matchOrSelf (jsonText : string) : string :=
  match match_braces jsonText with
  | Some m => m
  | None => jsonText
  end.

Definition extractJsonText (content : string) : Exc string :=
  jsonText ← stripFence (trim content);
  mret (matchOrSelf jsonText).

(** Lines 337-354: validation of the parsed value. *)
Definition validate (parsed : JSValue) : Exc AIResponse :=
  c ← get parsed "category";
  cat ← match includesCategory c with
        | Some s => mret s
        | None => _ ← assignable parsed "category"; mret "General"
        end;
  s ← get parsed "summary";
  e ← get parsed "events";
  let analysisResult :=
    {| category := cat;
       summary := or_else s (VStr "No summary available");
       events := or_else e (VArr []) |} in
  _ ← get (events analysisResult) "length";
  mret analysisResult.

(** [s.length > n ? s.substring(0, n) + marker : s] *)
Definition truncate (n : nat) (marker s : string) : string :=
  if (n <? String.length s)%nat then substring0 n s +:+ marker else s.

Definition nl : string := String "010"%char "".

Section Client.

(** [process.env.OPENROUTER_API] *)
Variable API_KEY : option string.
(** the built-in [JSON.parse]; [None] when it throws a SyntaxError *)
Variable JSON_parse : string -> option JSValue.
(** the wording of the prompts, opaque to this development *)
Variable categorizationPrompt : string.
Variable replyPrompt : string -> string -> string -> string.
Variable refinePrompt : string -> string -> string -> string -> string -> string.

Definition requireKey : Exc string :=
  match API_KEY with
  | Some k => if String.eqb k "" then Throw (Error "OPENROUTER_API is not set in environment variables")
              else Ok k
  | None => Throw (Error "OPENROUTER_API is not set in environment variables")
  end.

Definition awaitFetch (o : FetchOutcome) : Exc HttpResponse :=
  match o with
  | FetchRejects e => Throw e
  | FetchResolves r => Ok r
  end.

Definition apiError (r : HttpResponse) (errorText : string) : JSError :=
  Error ("OpenRouter API error: " +:+ string_of_Z (status r) +:+ " " +:+ statusText r
         +:+ ". " +:+ substring0 200 errorText).

Definition authError (r : HttpResponse) : JSError :=
  Error ("OpenRouter API authentication failed. Please check your OPENROUTER_API. Status: "
         +:+ string_of_Z (status r)).

(** the error thrown for a truthy [data.error]:
    [new Error(`OpenRouter API error: ${data.error.message || 'Unknown error'}`)] *)
Definition dataError (err : JSValue) : Exc JSError :=
  m ← get err "message";
  text ← toText (or_else m (VStr "Unknown error"));
  mret (Error ("OpenRouter API error: " +:+ text)).

(** Lines 285-308, shared by both operations: from the decoded response to
    the non-blank [content] string. *)
Definition contentOf (data : JSValue) : Exc string :=
  err ← get data "error";
  _ ← (if truthy err then e ← dataError err; Throw e else Ok tt);
  choices ← get data "choices";
  len ← (if truthy choices then get choices "length" else Ok VUndefined);
  _ ← throwIf (negb (truthy choices) || is_zero len)
              (Error "OpenRouter API returned no choices");
  first ← get0 choices;
  let content := get_opt (get_opt first "message") "content" in
  match content with
  | VStr s =>
      _ ← throwIf (String.eqb s "" || (String.length (trim s) =? 0)%nat)
                  (Error "OpenRouter API returned empty response");
      mret s
  | _ =>
      if truthy content then Throw (TypeError "content.trim is not a function")
      else Throw (Error "OpenRouter API returned empty response")
  end.

(** Lines 202-247: the prompt sent for [(subject, body)]. *)
Definition fullPrompt (subject body : string) : string :=
  let truncatedBody := truncate 4000 (nl +:+ "[... content truncated ...]") body in
  let truncatedSubject := truncate 200 "..." subject in
  let emailContent := "Subject: " +:+ truncatedSubject +:+ nl +:+ nl +:+ "Body: " +:+ truncatedBody in
  categorizationPrompt +:+ nl +:+ nl +:+ "Email:" +:+ nl +:+ emailContent.

(** Lines 273-283 *)
Definition checkStatus (response : HttpResponse) : Exc unit :=
  if ok response then Ok tt
  else errorText ← text response;
       if (status response =? 401) || (status response =? 403)
       then Throw (authError response)
       else Throw (apiError response errorText).

(** Lines 328-335 *)
Definition parseJson (jsonText : string) : Exc JSValue :=
  match JSON_parse jsonText with
  | Some v => Ok v
  | None => Throw (Error "Failed to parse OpenRouter response as JSON")
  end.

(** The body of the [try] block of [analyzeEmail]; [provider] is what the
    [fetch] call does when sent the given prompt. *)
Definition analyzeEmail_try (provider : string -> FetchOutcome) (subject body : string)
  : Exc AIResponse :=
  if String.eqb subject "" && String.eqb body "" then Ok emptyInputResult
  else
    _ ← requireKey;
    response ← awaitFetch (provider (fullPrompt subject body));
    _ ← checkStatus response;
    data ← json response;
    content ← contentOf data;
    jsonText ← extractJsonText content;
    parsed ← parseJson jsonText;
    validate parsed.

(** [analyzeEmail]: the [catch] turns every exception into the default. *)
Definition analyzeEmail (provider : string -> FetchOutcome) (subject body : string)
  : AIResponse :=
  match analyzeEmail_try provider subject body with
  | Ok r => r
  | Throw _ => defaultResult
  end.

Record Reply : Type := mkReply { reply_subject : string; reply_body : string }.

(** Lines 171-174 *)
Definition replySubject (originalSubject : string) : string :=
  if startsWith originalSubject "Re:" then originalSubject
  else "Re: " +:+ originalSubject.

(** [generateEmailReply]; its [catch] logs and rethrows. *)
Definition generateEmailReply (provider : string -> FetchOutcome)
    (originalSubject originalBody userPrompt : string)
    (refinementRequest currentDraft : option string) : Exc Reply :=
  _ ← requireKey;
  let truncatedOriginal := truncate 2000 (nl +:+ "[... content truncated ...]") originalBody in
  let prompt :=
    match refinementRequest with
    | Some r =>
        if String.eqb r "" then replyPrompt originalSubject truncatedOriginal userPrompt
        else refinePrompt originalSubject truncatedOriginal userPrompt
                          (match currentDraft with Some d => d | None => "" end) r
    | None => replyPrompt originalSubject truncatedOriginal userPrompt
    end in
  response ← awaitFetch (provider prompt);
  _ ← (if ok response then Ok tt
       else errorText ← text response; Throw (apiError response errorText));
  data ← json response;
  content ← contentOf data;
  let emailBody := trim content in
  let emailBody := if includes emailBody "```" then trim (strip_fences emailBody) else emailBody in
  mret {| reply_subject := replySubject originalSubject; reply_body := emailBody |}.

End Client.

(** *** The extraction policy as the specification words it

    "strip a ```json fenced block if present, else strip a bare fenced block
    if present, else regex-extract the first top-level {...} span". *)

(** [s] up to the first occurrence of [sep], all of [s] when there is none *)
Definition upTo (sep s : string) : string :=
  match indexOf sep s with
  | Some j => take_str j s
  | None => s
  end.

(** what follows the first occurrence of [sep] *)
Definition afterFirst (sep s : string) : option string :=
  match indexOf sep s with
  | Some i => Some (drop_str (i + String.length sep) s)
  | None => None
  end.

(** the contents of the block opened by the first [fence]: what lies between
    it and the next bare fence (or the end of the text), trimmed *)
Definition blockContents (fence s : string) : option string :=
  (fun rest => trim (upTo "```" rest)) <$> afterFirst fence s.

(** the first balanced [{...}] span: from the first ["{"] to the ["}"] that
    brings the nesting depth back to zero *)
Fixpoint balanced (depth : nat) (s : string) : option string :=
  match s with
  | "" => None
  | String c s' =>
      if Ascii.eqb c "{" then String c <$> balanced (S depth) s'
      else if Ascii.eqb c "}" then
        match depth with
        | O => None
        | S O => Some (String c "")
        | S d => String c <$> balanced d s'
        end
      else String c <$> balanced depth s'
  end.

Fixpoint firstTopLevelSpan (s : string) : option string :=
  match s with
  | "" => None
  | String c s' =>
      if Ascii.eqb c "{" then
        match balanced 0 s with
        | Some m => Some m
        | None => firstTopLevelSpan s'
        end
      else firstTopLevelSpan s'
  end.

Definition extract_spec (content : string) : string :=
  match blockContents "```json" content with
  | Some b => b
  | None =>
      match blockContents "```" content with
      | Some b => b
      | None =>
          match firstTopLevelSpan content with
          | Some m => m
          | None => content
          end
      end
  end.

(** *** What lines 312-326 select, stated by positions

    The text after the first [```json], cut at the next [```json] and then
    at the first bare fence; failing that the text between the first two
    bare fences; failing that the text itself. *)
Definition selectedText (jsonText : string) : string :=
  match afterFirst "```json" jsonText with
  | Some rest => trim (upTo "```" (upTo "```json" rest))
  | None =>
      match afterFirst "```" jsonText with
      | Some rest => trim (upTo "```" rest)
      | None => jsonText
      end
  end.

End OpenRouter.

(** ** The mailbox session and message parser ([server/services/emailService.ts]) *)

Module EmailService.
Import JS.

(** A [Date] object: a time value in milliseconds, or NaN ("Invalid Date"). *)
Inductive JSDate : Type :=
| DateOf (t : Z)
| InvalidDate.

(** [d.getTime()], [None] for NaN *)
Definition getTime (d : JSDate) : option Z :=
  match d with
  | DateOf t => Some t
  | InvalidDate => None
  end.

(** What may sit in a date slot at run time: a [Date], or (against the
    declared types) a string or a number. *)
Inductive DateLike : Type :=
| ADate (d : JSDate)
| AString (s : string)
| ANumber (n : Z).

Definition dateTruthy (v : DateLike) : bool :=
  match v with
  | ADate _ => true
  | AString s => negb (String.eqb s "")
  | ANumber n => negb (n =? 0)
  end.

(** [Email] of [types/index.ts] *)
Record Email : Type := mkEmail {
  id : string;
  sender : string;
  subject : string;
  body : string;
  date : JSDate
}.

(** The fields of mailparser's [ParsedMail] that the service reads;
    [from_text] is [parsed.from?.text]. *)
Record ParsedMail : Type := mkParsedMail {
  messageId : option string;
  pm_subject : option string;
  from_text : option string;
  pm_date : option DateLike;
  pm_text : option string;
  pm_html : option string
}.

(** an optional string used as [x || fallback] *)
Definition str_or (x : option string) (fallback : string) : string :=
  match x with
  | Some s => if String.eqb s "" then fallback else s
  | None => fallback
  end.

(** [x?.substring(0, n) || fallback] *)
Definition prefix_or (n : nat) (x : option string) (fallback : string) : string :=
  str_or (substring0 n <$> x) fallback.

Section Parser.

(** [new Date(s)] for a string, a built-in *)
Variable Date_parse : string -> JSDate.
(** [simpleParser] of the mailparser package; [None] when it rejects *)
Variable simpleParser : string -> option ParsedMail.

(** [new Date(n)]: time values beyond 8.64e15 ms give an invalid date *)
Definition dateOfNumber (n : Z) : JSDate :=
  if Z.abs n <=? 8640000000000000 then DateOf n else InvalidDate.

(** the slot holds a value only when it is truthy: [a || b] moves on otherwise *)
Definition present (x : option DateLike) : option DateLike :=
  match x with
  | Some v => if dateTruthy v then Some v else None
  | None => None
  end.

(** Lines 163-174. [now] is the reading of the clock by [new Date()]. *)
Definition resolveDate (now : Z) (imapDate parsedDate : option DateLike) : JSDate :=
  let finalDate :=
    match present imapDate with
    | Some v => v
    | None =>
        match present parsedDate with
        | Some v => v
        | None => ADate (DateOf now)
        end
    end in
  let finalDate :=
    match finalDate with
    | ADate d => d
    | AString s => Date_parse s
    | ANumber n => dateOfNumber n
    end in
  match getTime finalDate with
  | None => DateOf now
  | Some _ => finalDate
  end.

Definition timeString (d : JSDate) : string :=
  match getTime d with
  | Some t => string_of_Z t
  | None => "NaN"
  end.

(** the composite identity of line 179, before and after [replace] *)
Definition compositeId (seqno : Z) (parsed : ParsedMail) (finalDate : JSDate) : string :=
  "email-" +:+ string_of_Z seqno +:+ "-" +:+ prefix_or 20 (pm_subject parsed) "no-subject"
  +:+ "-" +:+ timeString finalDate +:+ "-" +:+ prefix_or 20 (from_text parsed) "no-sender".

Definition derivedId (seqno : Z) (parsed : ParsedMail) (finalDate : JSDate) : string :=
  sanitize (compositeId seqno parsed finalDate).

(** Lines 160-184: the [Email] built from one parsed message. *)
Definition buildEmail (now : Z) (seqno : Z) (imapDate : option DateLike)
    (parsed : ParsedMail) : Email :=
  let finalDate := resolveDate now imapDate (pm_date parsed) in
  {| id := match messageId parsed with
           | Some m => if String.eqb m "" then derivedId seqno parsed finalDate else m
           | None => derivedId seqno parsed finalDate
           end;
     sender := str_or (from_text parsed) "Unknown Sender";
     subject := str_or (pm_subject parsed) "(No Subject)";
     body := str_or (pm_text parsed) (str_or (pm_html parsed) "");
     date := finalDate |}.

(** The ['end'] handler of one message: a parse failure is logged and the
    message dropped. *)
Definition parseMessage (now : Z) (seqno : Z) (imapDate : option DateLike)
    (emailBuffer : string) : option Email :=
  buildEmail now seqno imapDate <$> simpleParser emailBuffer.

End Parser.

(** [results.slice().reverse().slice(0, 40)] of [fetchEmails] *)
Definition last40Results (results : list Z) : list Z := take 40 (rev results).

End EmailService.

(** ** The retrieval protocols ([server/routes/emails.ts]) *)

Module Routes.
Import JS.
Export EmailService.

(** a value of [emailSummaryCache] *)
Record CacheEntry : Type := mkCacheEntry {
  c_category : string;
  c_summary : JSValue;
  c_extractedEvents : JSValue
}.

(** [{...email, category, summary, extractedEvents}] *)
Record EnrichedEmail : Type := mkEnriched {
  base : Email;
  e_category : string;
  e_summary : JSValue;
  e_extractedEvents : JSValue
}.

(** The process-wide state the handlers share: the memo cache, the log of
    every [emailSummaryCache.set] in the order performed, and two counters
    that index the external world (calls to [analyzeEmail] issued, groups
    launched). *)
Record World : Type := mkWorld {
  cache : gmap string CacheEntry;
  writes : list (string * CacheEntry);
  calls : nat;
  groups : nat
}.

Definition entryOf (analysis : OpenRouter.AIResponse) : CacheEntry :=
  {| c_category := OpenRouter.category analysis;
     c_summary := OpenRouter.summary analysis;
     c_extractedEvents := or_else (OpenRouter.events analysis) (VArr []) |}.

Definition enrich (email : Email) (c : CacheEntry) : EnrichedEmail :=
  {| base := email;
     e_category := c_category c;
     e_summary := c_summary c;
     e_extractedEvents := c_extractedEvents c |}.

(** [emailSummaryCache.set(k, v)] for each logged write, oldest first *)
Definition applyWrites (m : gmap string CacheEntry) (ws : list (string * CacheEntry))
  : gmap string CacheEntry :=
  foldl (fun acc w => <[w.1 := w.2]> acc) m ws.

(** [arr.slice(start, end)] with JavaScript's treatment of negative and
    out-of-range indices *)
Definition js_slice {A} (l : list A) (start stop : Z) : list A :=
  let len := Z.of_nat (length l) in
  let rel i := if i <? 0 then Z.max (len + i) 0 else Z.min i len in
  let k := rel start in
  take (Z.to_nat (rel stop - k)) (drop (Z.to_nat k) l).

(** [a.date.getTime() - b.date.getTime() < 0]; a NaN difference is not below
    zero. Time values are integers of magnitude at most 8.64e15, so the sign
    of the floating-point difference is the sign of the exact one. *)
Definition earlier (a b : JSDate) : bool :=
  match getTime a, getTime b with
  | Some x, Some y => x <? y
  | _, _ => false
  end.

(** [arr.sort((a, b) => a.date.getTime() - b.date.getTime())].
    [Array.prototype.sort] is stable; for a consistent comparator its result
    is the stable insertion sort below. *)
Section Sort.
Context {A : Type} (dateOf : A -> JSDate).

Fixpoint insertByDate (x : A) (l : list A) : list A :=
  match l with
  | [] => [x]
  | y :: ys => if earlier (dateOf y) (dateOf x) then y :: insertByDate x ys else x :: l
  end.

Definition sortByDate (l : list A) : list A := foldr insertByDate [] l.

End Sort.

(** what a handler answers: status 400 with an error, or [res.json(...)] *)
Inductive Reply (R : Type) : Type :=
| BadRequest (error : string)
| Success (r : R).
Arguments BadRequest {R} error.
Arguments Success {R} r.

Section Handlers.

(** the [n]-th call of [analyzeEmail] in the life of the process, on
    [(subject, body)] *)
Variable analyzeEmail : nat -> string -> string -> OpenRouter.AIResponse.
(** whether, in the [g]-th group launched, the later task's analysis
    settles before the earlier one's *)
Variable laterFirst : nat -> bool.
(** [new Date(s)] *)
Variable Date_parse : string -> JSDate.

(** One task of [Promise.all(batch.map(async email => ...))] up to its
    first suspension: the cache is read when the task is launched; on a miss
    the task issues call number [n] and, once that settles, writes the
    entry. Returns the task's value, the write it will perform, and the next
    call number. The [catch] around the task in GET /, POST /fetch and POST
    /fetch-progressive has nothing to catch: [analyzeEmail] returns a record
    on every path, so it has no counterpart here. *)
Definition launch (m : gmap string CacheEntry) (n : nat) (email : Email)
  : EnrichedEmail * option (string * CacheEntry) * nat :=
  match m !! id email with
  | Some cached => (enrich email cached, None, n)
  | None =>
      let analysis := analyzeEmail n (subject email) (body email) in
      (enrich email (entryOf analysis), Some (id email, entryOf analysis), S n)
  end.

(** all tasks of a group are launched before any of them resumes *)
Fixpoint launchAll (m : gmap string CacheEntry) (n : nat) (batch : list Email)
  : list EnrichedEmail * list (string * CacheEntry) * nat :=
  match batch with
  | [] => ([], [], n)
  | email :: rest =>
      let '(r, w, n1) := launch m n email in
      let '(rs, ws, n2) := launchAll m n1 rest in
      (r :: rs, option_list w ++ ws, n2)
  end.

(** [await Promise.all(...)]: values in input order, writes in completion
    order (a group holds at most two tasks, so in order or reversed). *)
Definition processGroup (w : World) (batch : list Email) : World * list EnrichedEmail :=
  let '(rs, ws, n) := launchAll (cache w) (calls w) batch in
  let done := if laterFirst (groups w) then rev ws else ws in
  ({| cache := applyWrites (cache w) done;
      writes := writes w ++ done;
      calls := n;
      groups := S (groups w) |}, rs).

(** [for (let i = 0; i < l.length; i += 2) { batch = l.slice(i, i + 2); ...
    processedEmails.push(...batchResults) }] *)
Fixpoint forBatches (w : World) (l : list Email) {struct l} : World * list EnrichedEmail :=
  match l with
  | [] => (w, [])
  | [a] => processGroup w [a]
  | a :: b :: rest =>
      let '(w1, r1) := processGroup w [a; b] in
      let '(w2, r2) := forBatches w1 rest in
      (w2, r1 ++ r2)
  end.

Definition sortEnriched : list EnrichedEmail -> list EnrichedEmail :=
  sortByDate (fun e => date (base e)).

Definition sortEmails : list Email -> list Email := sortByDate date.

(** *** GET / and POST /fetch (the two handlers have the same body) *)

Record FetchResponse : Type := mkFetchResponse {
  f_emails : list EnrichedEmail;
  f_count : Z
}.

Definition fetchAll (passwordMissing : string) (w : World) (password : string)
    (rawEmails : list Email) : World * Reply FetchResponse :=
  if String.eqb password "" then (w, BadRequest passwordMissing)
  else
    match rawEmails with
    | [] => (w, Success {| f_emails := []; f_count := 0 |})
    | _ =>
        let '(w', processedEmails) := forBatches w rawEmails in
        let processedEmails := sortEnriched processedEmails in
        (w', Success {| f_emails := processedEmails;
                        f_count := Z.of_nat (length processedEmails) |})
    end.

Definition getRoot : World -> string -> list Email -> World * Reply FetchResponse :=
  fetchAll "Password required to fetch emails. Please re-login.".

Definition postFetch : World -> string -> list Email -> World * Reply FetchResponse :=
  fetchAll "Password is required".

(** *** POST /fetch-new *)

(** [newestDate]: the date of the last message answered, or the request's
    [sinceDate] handed back. The [timestamp] field (the clock at the time of
    the answer) is left out of the record. *)
Inductive NewestDate : Type :=
| NewestOf (d : JSDate)
| SinceEcho (s : option string).

Record DeltaResponse : Type := mkDeltaResponse {
  d_emails : list EnrichedEmail;
  d_count : Z;
  newestDate : NewestDate
}.

(** [emailDate > since] on two [Date]s *)
Definition laterThan (d since : JSDate) : bool :=
  match getTime d, getTime since with
  | Some x, Some y => y <? x
  | _, _ => false
  end.

(** Lines 149-168 *)
Definition selectNew (knownEmailIds : list string) (sinceDate : option string)
    (rawEmails : list Email) : list Email :=
  match knownEmailIds with
  | _ :: _ => filter (fun email => id email ∉ knownEmailIds) rawEmails
  | [] =>
      match sinceDate with
      | Some s =>
          if String.eqb s "" then rawEmails
          else filter (fun email => laterThan (date email) (Date_parse s)) rawEmails
      | None => rawEmails
      end
  end.

Definition fetchNew (w : World) (password : string) (sinceDate : option string)
    (knownEmailIds : list string) (rawEmails : list Email)
  : World * Reply DeltaResponse :=
  if String.eqb password "" then (w, BadRequest "Password is required")
  else
    let newEmails := sortEmails (selectNew knownEmailIds sinceDate rawEmails) in
    let '(w', processedEmails) := forBatches w newEmails in
    let processedEmails := sortEnriched processedEmails in
    (w', Success {| d_emails := processedEmails;
                    d_count := Z.of_nat (length processedEmails);
                    newestDate := match last processedEmails with
                                  | Some e => NewestOf (date (base e))
                                  | None => SinceEcho sinceDate
                                  end |}).

(** *** POST /fetch-progressive *)

Record ProgressiveResponse : Type := mkProgressiveResponse {
  p_emails : list EnrichedEmail;
  p_count : Z;
  batchNumber : option Z;
  isComplete : bool;
  totalFetched : Z;
  totalExpected : Z
}.

Definition BATCH_SIZE : Z := 4.
Definition TOTAL_EMAILS : Z := 40.

Definition fetchProgressive (w : World) (password : string) (batchNumber : Z)
    (rawEmails : list Email) : World * Reply ProgressiveResponse :=
  if String.eqb password "" then (w, BadRequest "Password is required")
  else
    let startIndex := batchNumber * BATCH_SIZE in
    let limitedEmails := js_slice rawEmails 0 TOTAL_EMAILS in
    let len := Z.of_nat (length limitedEmails) in
    if len =? 0 then
      (w, Success {| p_emails := []; p_count := 0; batchNumber := None; isComplete := true;
                     totalFetched := 0; totalExpected := 0 |})
    else if len <=? startIndex then
      (w, Success {| p_emails := []; p_count := 0; batchNumber := None; isComplete := true;
                     totalFetched := len; totalExpected := len |})
    else
      let batch := js_slice limitedEmails startIndex (startIndex + BATCH_SIZE) in
      let '(w', processedEmails) := forBatches w batch in
      let processedEmails := sortEnriched processedEmails in
      (w', Success {| p_emails := processedEmails;
                      p_count := Z.of_nat (length processedEmails);
                      batchNumber := Some (batchNumber + 1);
                      isComplete := len <=? startIndex + Z.of_nat (length batch);
                      totalFetched := startIndex + Z.of_nat (length processedEmails);
                      totalExpected := len |}).

(** The progressive-paging protocol: start at batch 0 and call again with
    the incremented batch number until a response says [isComplete]. Every
    call retrieves the mailbox window afresh; [rawEmails] is the window the
    server reports throughout the run. [fuel] bounds the number of calls. *)
Fixpoint paging (fuel : nat) (w : World) (password : string) (batchNumber : Z)
    (rawEmails : list Email) : list (Reply ProgressiveResponse) :=
  match fuel with
  | O => []
  | S fuel' =>
      let '(w', reply) := fetchProgressive w password batchNumber rawEmails in
      reply ::
        match reply with
        | Success r =>
            if isComplete r then []
            else paging fuel' w' password (batchNumber + 1) rawEmails
        | BadRequest _ => []
        end
  end.

(** *** Requests served one after the other *)

Inductive Request : Type :=
| GetRoot (password : string) (rawEmails : list Email)
| PostFetch (password : string) (rawEmails : list Email)
| PostFetchNew (password : string) (sinceDate : option string)
    (knownEmailIds : list string) (rawEmails : list Email)
| PostFetchProgressive (password : string) (batchNumber : Z) (rawEmails : list Email).

Definition window (r : Request) : list Email :=
  match r with
  | GetRoot _ l | PostFetch _ l | PostFetchNew _ _ _ l | PostFetchProgressive _ _ l => l
  end.

Definition serve (w : World) (r : Request) : World :=
  match r with
  | GetRoot p l => (getRoot w p l).1
  | PostFetch p l => (postFetch w p l).1
  | PostFetchNew p s k l => (fetchNew w p s k l).1
  | PostFetchProgressive p b l => (fetchProgressive w p b l).1
  end.

Definition serveAll (w : World) (rs : list Request) : World := foldl serve w rs.

End Handlers.

(** Write-once, read off the log: every write finds its key absent, or
    holding the very value written. *)
Fixpoint writeOnce (m : gmap string CacheEntry) (log : list (string * CacheEntry)) : Prop :=
  match log with
  | [] => True
  | (k, v) :: rest => (m !! k = None \/ m !! k = Some v) /\ writeOnce (<[k := v]> m) rest
  end.

(** the writes performed between two states of the world *)
Definition newWrites (before after : World) : list (string * CacheEntry) :=
  drop (length (writes before)) (writes after).

(** [after] is [before] followed by a write-once log of cache writes *)
Definition extends (before after : World) : Prop :=
  exists log, writes after = writes before ++ log
    /\ cache after = applyWrites (cache before) log
    /\ writeOnce (cache before) log.

(** *** Enrichment tasks under arbitrary interleaving

    Every task of every handler has the same two steps, separated by the
    one suspension point [await analyzeEmail(...)]: when launched it reads
    the cache and, on a miss, issues the analysis; when the analysis settles
    it writes the entry. In a single-threaded runtime the steps of the tasks
    of all groups and all requests in progress interleave in some order. *)

(** the cache and the tasks that missed it and have not yet written: each
    with the identity and the entry it is going to write *)
Record Tasks : Type := mkTasks {
  t_cache : gmap string CacheEntry;
  t_pending : list (string * CacheEntry)
}.

Inductive Event : Type :=
| Launch (email : Email) (analysis : OpenRouter.AIResponse)
    (* a task starts on [email]; [analysis] is what its call will return *)
| Settle (i : nat).
    (* the analysis of the [i]-th pending task settles *)

(** one step; the second component is the [emailSummaryCache.set] performed *)
Definition step (s : Tasks) (ev : Event) : option (Tasks * option (string * CacheEntry)) :=
  match ev with
  | Launch email analysis =>
      match t_cache s !! id email with
      | Some _ => Some (s, None)
      | None =>
          Some ({| t_cache := t_cache s;
                   t_pending := t_pending s ++ [(id email, entryOf analysis)] |}, None)
      end
  | Settle i =>
      match t_pending s !! i with
      | Some (k, v) =>
          Some ({| t_cache := <[k := v]> (t_cache s);
                   t_pending := delete i (t_pending s) |}, Some (k, v))
      | None => None
      end
  end.

(** a run, with the log of the writes it performs; [None] when an event
    names a task that does not exist *)
Fixpoint runTasks (s : Tasks) (evs : list Event)
  : option (Tasks * list (string * CacheEntry)) :=
  match evs with
  | [] => Some (s, [])
  | ev :: rest =>
      match step s ev with
      | Some (s', w) =>
          match runTasks s' rest with
          | Some (s'', log) => Some (s'', option_list w ++ log)
          | None => None
          end
      | None => None
      end
  end.

(** no task is launched on an identity for which it misses the cache while
    another task for that identity is pending *)
Fixpoint exclusive (s : Tasks) (evs : list Event) : Prop :=
  match evs with
  | [] => True
  | ev :: rest =>
      match ev with
      | Launch email _ => t_cache s !! id email = None -> id email ∉ (t_pending s).*1
      | Settle _ => True
      end
      /\ match step s ev with
         | Some (s', _) => exclusive s' rest
         | None => True
         end
  end.

(** the events of one group of [Promise.all]: every member is launched, then
    the pending analyses settle, first to last or last to first *)
Definition settleOrder (lastFirst : bool) (n : nat) : list Event :=
  if lastFirst then (fun i => Settle i) <$> rev (seq 0 n)
  else replicate n (Settle 0).

(** the launches of the members of a group; the call number advances on
    every miss *)
Fixpoint launches (analyzeEmail : nat -> string -> string -> OpenRouter.AIResponse)
    (m : gmap string CacheEntry) (n : nat) (batch : list Email) : list Event :=
  match batch with
  | [] => []
  | email :: rest =>
      Launch email (analyzeEmail n (subject email) (body email))
        :: launches analyzeEmail m (match m !! id email with Some _ => n | None => S n end) rest
  end.

Definition groupEvents (analyzeEmail : nat -> string -> string -> OpenRouter.AIResponse)
    (laterFirst : nat -> bool) (w : World) (batch : list Email) : list Event :=
  launches analyzeEmail (cache w) (calls w) batch
  ++ settleOrder (laterFirst (groups w))
       (length (launchAll analyzeEmail (cache w) (calls w) batch).1.2).

(** the pending tasks have pairwise distinct identities, all absent from the
    cache *)
Definition tasksDisjoint (s : Tasks) : Prop :=
  NoDup (t_pending s).*1 /\ Forall (fun kv => t_cache s !! kv.1 = None) (t_pending s).

(** no group of two that the batch loop forms holds one identity twice *)
Fixpoint distinctGroups (l : list Email) : Prop :=
  match l with
  | a :: b :: rest => id a <> id b /\ distinctGroups rest
  | _ => True
  end.

(** [a]'s time value is at most [b]'s (both dates valid) *)
Definition notLater (a b : JSDate) : Prop :=
  match getTime a, getTime b with
  | Some x, Some y => x <= y
  | _, _ => False
  end.

(** sorted ascending by receipt timestamp: every element is no later than
    every element after it *)
Definition ascending (l : list EnrichedEmail) : Prop :=
  StronglySorted (fun a b => notLater (date (base a)) (date (base b))) l.

Definition validDates (l : list Email) : Prop :=
  Forall (fun e => is_Some (getTime (date e))) l.

End Routes.

(** ** Concrete provider behaviours and mailboxes used in examples *)

Module Scenarios.
Import JS.

(** a 200 response whose body is [{"choices":[{"message":{"content": c}}]}] *)
Definition chatCompletion (c : string) : OpenRouter.FetchOutcome :=
  OpenRouter.FetchResolves
    {| OpenRouter.status := 200;
       OpenRouter.statusText := "OK";
       OpenRouter.text := Ok "";
       OpenRouter.json :=
         Ok (VObj [("choices", VArr [VObj [("message", VObj [("content", VStr c)])]])]) |}.

(** a 429 response with a plain-text body *)
Definition rateLimited : OpenRouter.FetchOutcome :=
  OpenRouter.FetchResolves
    {| OpenRouter.status := 429;
       OpenRouter.statusText := "Too Many Requests";
       OpenRouter.text := Ok "rate limit exceeded";
       OpenRouter.json := Throw (Error "Unexpected token r in JSON") |}.

(** the double-quote character *)
Definition quote : string := String "034"%char "".

(** the JSON text of an object with the single field [category: "Urgent"] *)
Definition urgentText : string :=
  "{" +:+ quote +:+ "category" +:+ quote +:+ ": " +:+ quote +:+ "Urgent" +:+ quote +:+ "}".

(** [JSON.parse] on the two texts the examples hand it: the empty object and
    [urgentText] *)
Definition parseExamples (jsonText : string) : option JSValue :=
  if String.eqb jsonText "{}" then Some (VObj [])
  else if String.eqb jsonText urgentText then Some (VObj [("category", VStr "Urgent")])
  else None.

(** an enrichment provider that answers the first call and is rate-limited
    from the second call on *)
Definition flakyAnalyze (n : nat) (subject body : string) : OpenRouter.AIResponse :=
  OpenRouter.analyzeEmail (Some "sk-or-key") parseExamples "Categorize:"
    (fun _ => match n with O => chatCompletion "{}" | S _ => rateLimited end)
    subject body.

(** a provider that always answers with the empty object *)
Definition steadyAnalyze (n : nat) (subject body : string) : OpenRouter.AIResponse :=
  OpenRouter.analyzeEmail (Some "sk-or-key") parseExamples "Categorize:"
    (fun _ => chatCompletion "{}") subject body.

Definition noDateParse (s : string) : EmailService.JSDate := EmailService.InvalidDate.

(** a fenced answer with prose around the object *)
Definition fencedProse : string :=
  "```json" +:+ OpenRouter.nl +:+ "Result: {} done" +:+ OpenRouter.nl +:+ "```".

(** an answer that shows two objects *)
Definition twoObjects : string :=
  "Either " +:+ urgentText +:+ " or {}".

(** a fenced answer holding just the object *)
Definition fencedObject : string :=
  "Here is the analysis:" +:+ OpenRouter.nl +:+ "```json" +:+ OpenRouter.nl
  +:+ urgentText +:+ OpenRouter.nl +:+ "```" +:+ OpenRouter.nl +:+ "Hope this helps.".

(** a mailbox in which one message was delivered twice (same Message-ID) *)
Definition notice : EmailService.Email :=
  {| EmailService.id := "<notice-17@iitk.ac.in>";
     EmailService.sender := "Dean <dean@iitk.ac.in>";
     EmailService.subject := "Extra class";
     EmailService.body := "Extra class for ESC201 at 4 PM";
     EmailService.date := EmailService.DateOf 1700000000000 |}.

Definition duplicatedMailbox : list EmailService.Email := [notice; notice].

Definition emptyWorld : Routes.World :=
  {| Routes.cache := ∅; Routes.writes := []; Routes.calls := 0; Routes.groups := 0 |}.

(** a message with neither Message-ID, Date header, subject nor sender *)
Definition bareMail : EmailService.ParsedMail :=
  {| EmailService.messageId := None;
     EmailService.pm_subject := None;
     EmailService.from_text := None;
     EmailService.pm_date := None;
     EmailService.pm_text := Some "hello";
     EmailService.pm_html := None |}.

(** a message with a subject and a sender but no Message-ID *)
Definition plainMail : EmailService.ParsedMail :=
  {| EmailService.messageId := None;
     EmailService.pm_subject := Some "Hello, World! This is a long subject";
     EmailService.from_text := Some "Ann <ann@iitk.ac.in>";
     EmailService.pm_date := Some (EmailService.ADate (EmailService.DateOf 1699999999000));
     EmailService.pm_text := Some "hello";
     EmailService.pm_html := None |}.

(** forty messages, newest first as the session lists them *)
Definition numbered (n : nat) : EmailService.Email :=
  {| EmailService.id := "msg-" +:+ string_of_Z (Z.of_nat n);
     EmailService.sender := "sender";
     EmailService.subject := "subject";
     EmailService.body := "body";
     EmailService.date := EmailService.DateOf (1700000000000 - Z.of_nat n) |}.

Definition fortyMessages : list EmailService.Email := map numbered (seq 0 40).

End Scenarios.

(** ** What an enriched message shows of the memo cache *)

Module Enrichment.
Import JS Routes.

(** the enrichment fields of an answered message, as a cache entry *)
Definition shown (r : EnrichedEmail) : CacheEntry :=
  {| c_category := e_category r;
     c_summary := e_summary r;
     c_extractedEvents := e_extractedEvents r |}.

Definition emailsOfFetch (r : Reply FetchResponse) : list EnrichedEmail :=
  match r with Success x => f_emails x | BadRequest _ => [] end.

Definition emailsOfDelta (r : Reply DeltaResponse) : list EnrichedEmail :=
  match r with Success x => d_emails x | BadRequest _ => [] end.

Definition emailsOfPage (r : Reply ProgressiveResponse) : list EnrichedEmail :=
  match r with Success x => p_emails x | BadRequest _ => [] end.

Section Answers.
Variable analyzeEmail : nat -> string -> string -> OpenRouter.AIResponse.
Variable laterFirst : nat -> bool.
Variable Date_parse : string -> JSDate.

(** the [emails] a request is answered with (none with a 400) *)
Definition respond (w : World) (r : Request) : list EnrichedEmail :=
  match r with
  | GetRoot p l => emailsOfFetch (getRoot analyzeEmail laterFirst w p l).2
  | PostFetch p l => emailsOfFetch (postFetch analyzeEmail laterFirst w p l).2
  | PostFetchNew p s k l =>
      emailsOfDelta (fetchNew analyzeEmail laterFirst Date_parse w p s k l).2
  | PostFetchProgressive p b l =>
      emailsOfPage (fetchProgressive analyzeEmail laterFirst w p b l).2
  end.

End Answers.

End Enrichment.


(** ** Accounts and access tokens ([server/middleware/auth.ts],
    [server/routes/auth.ts]) *)

Module Account.
Import JS.

(** [email.includes('@') ? email.split('@')[0] : email]: the user name
    presented to the mail servers ([connectToIMAP] and [sendEmail] compute it
    the same way). [split] always yields at least one segment. *)
Definition username (email : string) : string :=
  if includes email "@" then hd "" (split email "@") else email.

(** [s.endsWith(suffix)] *)
Definition endsWith (s suffix : string) : bool :=
  (String.length suffix <=? String.length s)%nat
  && String.eqb (drop_str (String.length s - String.length suffix) s) suffix.

(** [email.includes('@') ? email : `${email}@iitk.ac.in`] *)
Definition normalizeEmail (email : string) : string :=
  if includes email "@" then email else email +:+ "@iitk.ac.in".

Definition messageOf (e : JSError) : string :=
  match e with
  | Error m | TypeError m => m
  end.

End Account.

Module Auth.
Import JS.

(** the payload of a token, and [req.user] *)
Record User : Type := mkUser {
  u_email : string;
  u_id : string
}.

(** what the middleware does with a request: hand it on with [req.user]
    set, or answer it *)
Inductive AuthOutcome : Type :=
| Next (user : User)
| Denied (status : Z) (error : string).

(** the answer of POST /login *)
Inductive LoginReply : Type :=
| LoggedIn (token : string) (user : User)
| LoginRefused (status : Z) (error : string) (details : option string).

Section Tokens.

(** [jwt.sign(payload, JWT_SECRET, { expiresIn: '7d' })] *)
Variable jwt_sign : User -> string.
(** [jwt.verify(token, JWT_SECRET)]; [None] when it throws *)
Variable jwt_verify : string -> option User.
(** what a new mailbox session does for the user name and password it is
    opened with: the messages retrieved, or the failure *)
Variable mailSession : string -> string -> Exc (list EmailService.Email).

Definition generateToken (email : string) : string :=
  jwt_sign {| u_email := email; u_id := email |}.

(** [authHeader && authHeader.split(' ')[1]] *)
Definition tokenOf (authHeader : option string) : JSValue :=
  match authHeader with
  | Some h => if String.eqb h "" then VStr "" else at_index (split h " ") 1
  | None => VUndefined
  end.

Definition authenticateToken (authHeader : option string) : AuthOutcome :=
  match tokenOf authHeader with
  | VStr token =>
      if String.eqb token "" then Denied 401 "Access token required"
      else match jwt_verify token with
           | Some decoded => Next decoded
           | None => Denied 403 "Invalid or expired token"
           end
  | _ => Denied 401 "Access token required"
  end.

(** [fetchUserEmails]: a fresh session under the account's user name *)
Definition fetchUserEmails (email password : string) : Exc (list EmailService.Email) :=
  mailSession (Account.username email) password.

(** POST /login; a missing field of the request body is the empty string *)
Definition login (email password : string) : LoginReply :=
  if String.eqb email "" || String.eqb password "" then
    LoginRefused 400 "Email and password are required" None
  else
    let normalizedEmail := Account.normalizeEmail email in
    if negb (Account.endsWith normalizedEmail "@iitk.ac.in") then
      LoginRefused 400 "Invalid IITK email address" None
    else
      match fetchUserEmails normalizedEmail password with
      | Throw error =>
          LoginRefused 401 "Invalid credentials or unable to connect to webmail server"
            (Some (Account.messageOf error))
      | Ok _ =>
          LoggedIn (generateToken normalizedEmail)
            {| u_email := normalizedEmail; u_id := normalizedEmail |}
      end.

End Tokens.

End Auth.

(** ** Sending ([sendEmail] of [server/services/emailService.ts]) *)

Module Smtp.
Import JS.

(** what the catch block reads of a thrown error; a missing [message] is the
    empty string *)
Record SmtpError : Type := mkSmtpError {
  message : string;
  code : option string;
  responseCode : option Z
}.

Record MailOptions : Type := mkMailOptions {
  from : string;
  to : string;
  subject : string;
  html : string;
  text : string;
  replyTo : string
}.

(** the calls made on the mail transport, in order *)
Inductive Action : Type :=
| CreateTransport (user pass : string)
| Verify
| SendMail (mailOptions : MailOptions)
| Close.

(** [body.replace(/<[^>]*>/g, '')]: every span from a ["<"] to the first
    [">"] after it is deleted, left to right; a ["<"] that no [">"] follows
    stays. [inTag] holds the text since the pending ["<"], in reverse. *)
Fixpoint stripTags_go (inTag : option string) (s : string) : string :=
  match s with
  | "" => match inTag with
          | None => ""
          | Some pending => String.rev pending
          end
  | String c s' =>
      match inTag with
      | None =>
          if Ascii.eqb c "<" then stripTags_go (Some (String c "")) s'
          else String c (stripTags_go None s')
      | Some pending =>
          if Ascii.eqb c ">" then stripTags_go None s'
          else stripTags_go (Some (String c pending)) s'
      end
  end.

Definition stripTags (s : string) : string := stripTags_go None s.

(** no [">"] anywhere *)
Fixpoint noClose (s : string) : bool :=
  match s with
  | "" => true
  | String c s' => negb (Ascii.eqb c ">") && noClose s'
  end.

(** no ["<"] with a [">"] somewhere after it *)
Fixpoint tagFree (s : string) : bool :=
  match s with
  | "" => true
  | String c s' => if Ascii.eqb c "<" then noClose s' else tagFree s'
  end.

Definition plainError (m : string) : SmtpError :=
  {| message := m; code := None; responseCode := None |}.

Definition hasCode (error : SmtpError) (c : string) : bool :=
  match code error with
  | Some c' => String.eqb c' c
  | None => false
  end.

Definition hasResponseCode (error : SmtpError) (n : Z) : bool :=
  match responseCode error with
  | Some n' => n' =? n
  | None => false
  end.

Section Transport.

(** [MMTP_HOST], and [MMTP_PORT] as a template prints it *)
Variable MMTP_HOST : string.
Variable MMTP_PORT : string.
(** what the transport does: [None] when the call returns, the error thrown
    otherwise. [close] is asked by the number of earlier calls of it. *)
Variable createTransport : string -> string -> option SmtpError.
Variable verify : string -> string -> option SmtpError.
Variable sendMail : MailOptions -> option SmtpError.
Variable close : nat -> option SmtpError.

(** the message chosen by the catch block *)
Definition errorMessageOf (error : SmtpError) : string :=
  let errorMessage := if String.eqb (message error) "" then "Unknown error" else message error in
  if hasCode error "EAUTH" || hasResponseCode error 535 then
    "Authentication failed. Please check your CC password. Make sure you are using your CC account password (not your email password)."
  else if hasCode error "ECONNECTION" then
    "Connection failed. Cannot connect to MMTP server " +:+ MMTP_HOST +:+ ":" +:+ MMTP_PORT
    +:+ ". Please check your network connection."
  else if hasCode error "ETIMEDOUT" then
    "Connection timed out. The MMTP server " +:+ MMTP_HOST +:+ ":" +:+ MMTP_PORT
    +:+ " did not respond in time."
  else if hasCode error "ENOTFOUND" then
    "MMTP server host not found: " +:+ MMTP_HOST
    +:+ ". Please check your MMTP_HOST environment variable."
  else if hasResponseCode error 550 then
    "Mailbox unavailable or recipient address rejected. Please check the recipient email address."
  else if negb (String.eqb (message error) "") && includes (message error) "Invalid login" then
    "Invalid login credentials. Please check your email and CC password."
  else errorMessage.

(** the state of the call when its [try] block is left: the transport calls
    made, whether [transporter] was assigned, and the error thrown if any *)
Record Attempt : Type := mkAttempt {
  log : list Action;
  transporter : bool;
  thrown : option SmtpError
}.

Definition mailOptionsOf (fromEmail to subject body : string) (replyTo : option string)
  : MailOptions :=
  {| from := fromEmail;
     to := to;
     subject := subject;
     html := body;
     text := stripTags body;
     replyTo := EmailService.str_or replyTo fromEmail |}.

(** the [try] block *)
Definition tryToSend (fromEmail fromPassword to subject body : string)
    (replyTo : option string) : Attempt :=
  if String.eqb fromEmail "" || String.eqb fromPassword "" || String.eqb to ""
     || String.eqb subject "" || String.eqb body "" then
    {| log := []; transporter := false;
       thrown := Some (plainError
         "Missing required email fields: fromEmail, fromPassword, to, subject, body") |}
  else
    let smtpUsername := Account.username fromEmail in
    let created := [CreateTransport smtpUsername fromPassword] in
    match createTransport smtpUsername fromPassword with
    | Some error => {| log := created; transporter := false; thrown := Some error |}
    | None =>
        match verify smtpUsername fromPassword with
        | Some error =>
            {| log := created ++ [Verify]; transporter := true; thrown := Some error |}
        | None =>
            let mailOptions := mailOptionsOf fromEmail to subject body replyTo in
            match sendMail mailOptions with
            | Some error =>
                {| log := created ++ [Verify; SendMail mailOptions];
                   transporter := true; thrown := Some error |}
            | None =>
                {| log := created ++ [Verify; SendMail mailOptions; Close];
                   transporter := true; thrown := close 0 |}
            end
        end
    end.

(** [sendEmail]: the [try] block, then the [catch] block, which closes the
    transport if there is one (a failure of that is logged and dropped) and
    throws anew. *)
Definition sendEmail (fromEmail fromPassword to subject body : string)
    (replyTo : option string) : list Action * Exc unit :=
  let a := tryToSend fromEmail fromPassword to subject body replyTo in
  match thrown a with
  | None => (log a, Ok tt)
  | Some error =>
      (if transporter a then log a ++ [Close] else log a,
       Throw (Error ("Failed to send email: " +:+ errorMessageOf error)))
  end.

End Transport.

End Smtp.

(** ** The reply and send endpoints ([server/routes/emails.ts]) *)

Module Outbound.
Import JS.

(** what the two handlers answer *)
Inductive Answer (R : Type) : Type :=
| Done (r : R)
| Refused (status : Z) (error : string) (message : option string).
Arguments Done {R} r.
Arguments Refused {R} status error message.

Section Handlers.

Variable API_KEY : option string.
Variable replyPrompt : string -> string -> string -> string.
Variable refinePrompt : string -> string -> string -> string -> string -> string.
Variable provider : string -> OpenRouter.FetchOutcome.
Variable MMTP_HOST : string.
Variable MMTP_PORT : string.
Variable createTransport : string -> string -> option Smtp.SmtpError.
Variable verify : string -> string -> option Smtp.SmtpError.
Variable sendMail : Smtp.MailOptions -> option Smtp.SmtpError.
Variable close : nat -> option Smtp.SmtpError.

(** POST /generate-reply; a missing field of the request body is the empty
    string (or [None] for the two optional ones) *)
Definition postGenerateReply (originalSubject originalBody userPrompt : string)
    (refinementRequest currentDraft : option string) : Answer OpenRouter.Reply :=
  if String.eqb originalSubject "" || String.eqb originalBody "" || String.eqb userPrompt "" then
    Refused 400
      "Missing required fields: originalSubject, originalBody, and userPrompt are required"
      None
  else
    match OpenRouter.generateEmailReply API_KEY replyPrompt refinePrompt provider
            originalSubject originalBody userPrompt refinementRequest currentDraft with
    | Ok reply => Done reply
    | Throw error =>
        Refused 500 "Failed to generate email reply" (Some (Account.messageOf error))
    end.

(** POST /send for the account [email] of the token; the answer of a
    successful call is the fixed text ['Email sent successfully'] *)
Definition postSend (email password to subject body : string) (replyTo : option string)
  : list Smtp.Action * Answer string :=
  if String.eqb password "" then
    ([], Refused 400 "Password is required to send emails" None)
  else if String.eqb to "" || String.eqb subject "" || String.eqb body "" then
    ([], Refused 400 "Missing required fields: to, subject, and body are required" None)
  else
    match Smtp.sendEmail MMTP_HOST MMTP_PORT createTransport verify sendMail close
            email password to subject body replyTo with
    | (log, Ok _) => (log, Done "Email sent successfully")
    | (log, Throw error) =>
        (log, Refused 500 "Failed to send email" (Some (Account.messageOf error)))
    end.

End Handlers.

End Outbound.

(** ** The mail list of the client ([src/pages/Home.tsx]) *)

Module Client.
Import JS Routes.

(** A date as it reaches the client: the answer carries [toISOString()] of a
    valid date, which [new Date] reads back to the same time value; an
    invalid date is carried as [null], which [new Date] reads as time 0. *)
Definition revive (d : JSDate) : JSDate :=
  match d with
  | DateOf t => DateOf t
  | InvalidDate => DateOf 0
  end.

(** [{...email, date: new Date(email.date)}] on a message of the answer *)
Definition received (e : EnrichedEmail) : EnrichedEmail :=
  {| base := {| id := id (base e);
                sender := sender (base e);
                subject := subject (base e);
                body := body (base e);
                date := revive (date (base e)) |};
     e_category := e_category e;
     e_summary := e_summary e;
     e_extractedEvents := e_extractedEvents e |}.

Definition idsOf (emails : list EnrichedEmail) : list string :=
  (fun e => id (base e)) <$> emails.

(** [batch.filter(e => !known.some(x => x.id === e.id))] *)
Definition unseen (known batch : list EnrichedEmail) : list EnrichedEmail :=
  filter (fun e => id (base e) ∉ idsOf known) batch.

Section Requests.

Variable analyzeEmail : nat -> string -> string -> OpenRouter.AIResponse.
Variable laterFirst : nat -> bool.
Variable Date_parse : string -> JSDate.
(** [d.toISOString()] of a valid date, by its time value *)
Variable toISOString : Z -> string.

(** The loop of [fetchEmails], entered with [isComplete] false: every
    request reaches the handler and its answer reaches the client; the
    server retrieves the window [rawEmails] each time. A request that is
    refused ends the loop. [fuel] bounds the number of requests. *)
Fixpoint loadFrom (fuel : nat) (w : World) (password : string) (batchNumber : Z)
    (allEmails : list EnrichedEmail) (rawEmails : list Email) : list EnrichedEmail :=
  match fuel with
  | O => allEmails
  | S fuel' =>
      if (40 <=? length allEmails)%nat then allEmails
      else
        match fetchProgressive analyzeEmail laterFirst w password batchNumber rawEmails with
        | (w', Success data) =>
            let formattedBatch := received <$> p_emails data in
            let allEmails' := allEmails ++ unseen allEmails formattedBatch in
            if isComplete data || (40 <=? length allEmails')%nat then allEmails'
            else loadFrom fuel' w' password (batchNumber + 1) allEmails' rawEmails
        | (_, BadRequest _) => allEmails
        end
  end.

(** [fetchEmails]: the list handed to [setEmails] at the end; [None] when
    the function returns before the loop because no password is stored *)
Definition fetchEmails (fuel : nat) (w : World) (password : string)
    (rawEmails : list Email) : option (list EnrichedEmail) :=
  if String.eqb password "" then None
  else Some (sortEnriched (loadFrom fuel w password 0 [] rawEmails)).

(** [emails.reduce((newest, email) => emailDate > newestDateObj ? email.date
    : newest, emails[0].date)] *)
Definition newestOf (first : EnrichedEmail) (emails : list EnrichedEmail) : JSDate :=
  foldl (fun newest email =>
           if laterThan (date (base email)) newest then date (base email) else newest)
        (date (base first)) emails.

(** [refreshEmails] with the list [emails] on display and no other update of
    the list under way: the new state of the server and the list on display
    afterwards. [toISOString] of an invalid date throws, which leaves the
    list as it is. *)
Definition refreshEmails (w : World) (password : string) (emails : list EnrichedEmail)
    (rawEmails : list Email) : World * list EnrichedEmail :=
  if String.eqb password "" then (w, emails)
  else
    let sinceDate :=
      match emails with
      | [] => Some None
      | first :: _ =>
          match getTime (newestOf first emails) with
          | Some t => Some (Some (toISOString t))
          | None => None
          end
      end in
    match sinceDate with
    | None => (w, emails)
    | Some sinceDate =>
        let '(w', answer) :=
          fetchNew analyzeEmail laterFirst Date_parse w password sinceDate
            (idsOf emails) rawEmails in
        match answer with
        | BadRequest _ => (w', emails)
        | Success data =>
            let newEmails := received <$> d_emails data in
            match newEmails with
            | [] => (w', emails)
            | _ =>
                match unseen emails newEmails with
                | [] => (w', emails)
                | uniqueNewEmails => (w', sortEnriched (emails ++ uniqueNewEmails))
                end
            end
        end
    end.

End Requests.

(** *** The list of upcoming events *)

(** the two fields of a shown message that the event list reads *)
Record Card : Type := mkCard {
  category : string;
  extractedEvents : option (list string)
}.

Definition academicTag (event : string) : string :=
  if includes event "|" then trim (hd "" (split event "|")) +:+ " |academic"
  else event +:+ " |academic".

Definition eventsOf (email : Card) : list string :=
  let events := default [] (extractedEvents email) in
  if String.eqb (category email) "Important-Academics" then academicTag <$> events
  else events.

(** [self.indexOf(x)] *)
Fixpoint array_indexOf (x : string) (self : list string) : option nat :=
  match self with
  | [] => None
  | y :: rest => if String.eqb y x then Some 0%nat else S <$> array_indexOf x rest
  end.

(** [self.filter((event, index, self) => self.indexOf(event) === index)],
    from position [index] on *)
Fixpoint keepFirst (self : list string) (index : nat) (rest : list string) : list string :=
  match rest with
  | [] => []
  | event :: rest' =>
      if bool_decide (array_indexOf event self = Some index)
      then event :: keepFirst self (S index) rest'
      else keepFirst self (S index) rest'
  end.

Definition allEvents (emails : list Card) : list string :=
  let events := mjoin (eventsOf <$> emails) in
  take 10 (keepFirst events 0 events).

(** *** The two cards of the sidebar, which is handed [allEvents] *)

(** [toLowerCase] on one code unit below 256: the letters A-Z and the
    accented capitals of Latin-1 *)
Definition lowerChar (c : ascii) : ascii :=
  let n := nat_of_ascii c in
  if ((65 <=? n) && (n <=? 90) || (192 <=? n) && (n <=? 222) && negb (n =? 215))%nat
  then ascii_of_nat (n + 32) else c.

Fixpoint toLowerCase (s : string) : string :=
  match s with
  | "" => ""
  | String c s' => String (lowerChar c) (toLowerCase s')
  end.

Record CategorizedEvent : Type := mkCategorizedEvent {
  text : string;
  type : string
}.

(** [s.includes(a) || s.includes(b) || ...] *)
Definition includesAny (s : string) (words : list string) : bool :=
  existsb (includes s) words.

Definition categorizeEvent (event : string) : CategorizedEvent :=
  match split event "|" with
  | [first; second] =>
      let typeIndicator := toLowerCase (trim second) in
      let text := trim first in
      if String.eqb typeIndicator "academic" then {| text := text; type := "deadline" |}
      else {| text := text; type := typeIndicator |}
  | _ =>
      let lowerEvent := toLowerCase event in
      if includesAny lowerEvent ["exam"; "test"; "quiz"] then
        {| text := event; type := "exam" |}
      else if includesAny lowerEvent ["deadline"; "submission"; "due"] then
        {| text := event; type := "deadline" |}
      else if includesAny lowerEvent
                ["assignment"; "course"; "class"; "lecture"; "lab"; "semester"; "midterm";
                 "final"; "academic"; "project"; "presentation"; "workshop"; "tutorial"] then
        {| text := event; type := "deadline" |}
      else {| text := event; type := "event" |}
  end.

Definition categorizeEvents (events : list string) : list CategorizedEvent :=
  categorizeEvent <$> events.

Definition importantDates (upcomingDates : list string) : list CategorizedEvent :=
  filter (fun e => type e = "exam" \/ type e = "deadline") (categorizeEvents upcomingDates).

Definition otherEvents (upcomingDates : list string) : list CategorizedEvent :=
  filter (fun e => type e = "event") (categorizeEvents upcomingDates).

End Client.

(** ** Further concrete inputs used in examples *)

Module Samples.
Import JS.

(** a [Date] constructor that reads every string as the instant of message 20
    of [Scenarios.fortyMessages] *)
Definition midwayParse (s : string) : EmailService.JSDate :=
  EmailService.DateOf (1700000000000 - 20).

(** the JSON text of an object whose summary is a number and whose events
    are a string, and [JSON.parse] on it *)
Definition looseText : string :=
  "{" +:+ Scenarios.quote +:+ "category" +:+ Scenarios.quote +:+ ":"
  +:+ Scenarios.quote +:+ "Event" +:+ Scenarios.quote +:+ ","
  +:+ Scenarios.quote +:+ "summary" +:+ Scenarios.quote +:+ ":5,"
  +:+ Scenarios.quote +:+ "events" +:+ Scenarios.quote +:+ ":"
  +:+ Scenarios.quote +:+ "none" +:+ Scenarios.quote +:+ "}".

Definition parseLoose (jsonText : string) : option JSValue :=
  if String.eqb jsonText looseText
  then Some (VObj [("category", VStr "Event"); ("summary", VNum 5); ("events", VStr "none")])
  else None.

(** a 200 response whose body is [{"error": {"message": 5}}] *)
Definition errorNumber : OpenRouter.FetchOutcome :=
  OpenRouter.FetchResolves
    {| OpenRouter.status := 200;
       OpenRouter.statusText := "OK";
       OpenRouter.text := Ok "";
       OpenRouter.json := Ok (VObj [("error", VObj [("message", VNum 5)])]) |}.

(** a text of [n] characters *)
Definition filler (n : nat) : string := string_of_list_ascii (repeat "x"%char n).

(** two long bodies that differ only after their first 4000 characters, and
    two long subjects that differ only after their first 200 *)
Definition longBodyA : string := filler 4000 +:+ "first ending".
Definition longBodyB : string := filler 4000 +:+ "another ending, longer".
Definition longSubjectA : string := filler 200 +:+ " (A)".
Definition longSubjectB : string := filler 200 +:+ " (B)".

(** a provider that answers with the empty object when the prompt it is sent
    is at most 5000 characters long, and is rate-limited otherwise *)
Definition pickyProvider (prompt : string) : OpenRouter.FetchOutcome :=
  if (String.length prompt <=? 5000)%nat then Scenarios.chatCompletion "{}"
  else Scenarios.rateLimited.

(** the wording of the two reply prompts, reduced to their variable parts *)
Definition replyWording (originalSubject truncatedOriginal userPrompt : string) : string :=
  "Subject: " +:+ originalSubject +:+ " Body: " +:+ truncatedOriginal
  +:+ " Prompt: " +:+ userPrompt.

Definition refineWording (originalSubject truncatedOriginal userPrompt currentDraft
    refinementRequest : string) : string :=
  replyWording originalSubject truncatedOriginal userPrompt
  +:+ " Draft: " +:+ currentDraft +:+ " Refinement: " +:+ refinementRequest.

(** two long original messages that differ only after their first 2000
    characters *)
Definition longOriginalA : string := filler 2000 +:+ "first ending".
Definition longOriginalB : string := filler 2000 +:+ "another ending, longer".

(** a provider whose answer has blanks around the reply text *)
Definition paddedProvider (prompt : string) : OpenRouter.FetchOutcome :=
  Scenarios.chatCompletion "  Thanks, I will attend.  ".

(** a stand-in for the token codec: the token of a payload is its address
    behind a fixed tag *)
Definition toySign (payload : Auth.User) : string := "tok." +:+ Auth.u_email payload.

Definition toyVerify (token : string) : option Auth.User :=
  if String.prefix "tok." token
  then Some {| Auth.u_email := drop_str 4 token; Auth.u_id := drop_str 4 token |}
  else None.

(** a mail server that knows one account *)
Definition oneAccount (user password : string) : Exc (list EmailService.Email) :=
  if String.eqb user "ayush" && String.eqb password "secret" then Ok Scenarios.duplicatedMailbox
  else Throw (Error "Invalid credentials (Failure)").

(** a message on display at the client, and a stand-in for [toISOString] *)
Definition shownNotice : Routes.EnrichedEmail :=
  Routes.enrich Scenarios.notice (Routes.entryOf OpenRouter.defaultResult).

Definition isoStandIn (t : Z) : string := string_of_Z t.

End Samples.
(** * Properties *)

Import JS.

(** ** Exceptions *)

Lemma bind_Ok_inv {A B} (m : Exc A) (k : A -> Exc B) (b : B) :
  (m ≫= k) = Ok b -> exists a, m = Ok a /\ k a = Ok b.
Proof.
  destruct m as [a|e]; cbn; intros H; [eauto | discriminate].
Qed.

Lemma bind_Ok {A B} (m : Exc A) (k : A -> Exc B) (a : A) :
  m = Ok a -> (m ≫= k) = k a.
Proof. intros ->. reflexivity. Qed.

Lemma bind_Throw {A B} (m : Exc A) (k : A -> Exc B) (e : JSError) :
  m = Throw e -> (m ≫= k) = Throw e.
Proof. intros ->. reflexivity. Qed.

(** peel the binds of a computation known to have returned *)
Ltac exc_inv H :=
  repeat match type of H with
  | (_ ≫= _) = Ok _ =>
      let a := fresh "a" in
      let Ha := fresh "Ha" in
      apply bind_Ok_inv in H; destruct H as (a & Ha & H)
  | mret _ = Ok _ => injection H as H
  | Ok _ = Ok _ => injection H as H
  | Throw _ = Ok _ => discriminate H
  end.

(** ** The enrichment client *)

Lemma truthy_get_length v : truthy v = true -> exists n, get v "length" = Ok n.
Proof. destruct v; cbn; intros H; try discriminate; eauto. Qed.

Lemma or_else_truthy a b : truthy b = true -> truthy (or_else a b) = true.
Proof. unfold or_else. destruct (truthy a) eqn:E; auto. Qed.

Lemma includesCategory_valid v s :
  OpenRouter.includesCategory v = Some s -> v = VStr s /\ s ∈ OpenRouter.validCategories.
Proof.
  destruct v; cbn; try discriminate.
  case_bool_decide; [|discriminate]. intros [= <-]. auto.
Qed.

Lemma General_valid : "General" ∈ OpenRouter.validCategories.
Proof. unfold OpenRouter.validCategories. set_solver. Qed.

Lemma validate_Ok_inv parsed r :
  OpenRouter.validate parsed = Ok r ->
  OpenRouter.category r ∈ OpenRouter.validCategories
  /\ truthy (OpenRouter.summary r) = true
  /\ truthy (OpenRouter.events r) = true.
Proof.
  unfold OpenRouter.validate. intros H. exc_inv H. subst r. cbn.
  split; [|split]; try (apply or_else_truthy; reflexivity).
  destruct (OpenRouter.includesCategory a) eqn:E.
  - injection Ha0 as <-. apply includesCategory_valid in E. tauto.
  - exc_inv Ha0. subst. apply General_valid.
Qed.

(** validation of an object never throws, and is this record *)
Lemma validate_object fields :
  OpenRouter.validate (VObj fields) =
  Ok {| OpenRouter.category :=
          match OpenRouter.includesCategory (default VUndefined (lookup_field "category" fields)) with
          | Some s => s
          | None => "General"
          end;
        OpenRouter.summary :=
          or_else (default VUndefined (lookup_field "summary" fields)) (VStr "No summary available");
        OpenRouter.events :=
          or_else (default VUndefined (lookup_field "events" fields)) (VArr []) |}.
Proof.
  unfold OpenRouter.validate. cbn [get].
  rewrite (bind_Ok _ _ _ eq_refl).
  set (c := default VUndefined (lookup_field "category" fields)).
  set (s := default VUndefined (lookup_field "summary" fields)).
  set (e := default VUndefined (lookup_field "events" fields)).
  assert (He : truthy (or_else e (VArr [])) = true) by (apply or_else_truthy; reflexivity).
  destruct (truthy_get_length _ He) as [n Hn].
  destruct (OpenRouter.includesCategory c); cbn; rewrite Hn; reflexivity.
Qed.

Lemma analyzeEmail_try_Ok_inv API_KEY JSON_parse prompt provider subject body r :
  OpenRouter.analyzeEmail_try API_KEY JSON_parse prompt provider subject body = Ok r ->
  r = OpenRouter.emptyInputResult \/ exists parsed, OpenRouter.validate parsed = Ok r.
Proof.
  unfold OpenRouter.analyzeEmail_try.
  destruct (String.eqb subject "" && String.eqb body ""); intros H.
  - left. congruence.
  - right. exc_inv H. eauto.
Qed.

Lemma analyzeEmail_throw API_KEY JSON_parse prompt provider subject body e :
  OpenRouter.analyzeEmail_try API_KEY JSON_parse prompt provider subject body = Throw e ->
  OpenRouter.analyzeEmail API_KEY JSON_parse prompt provider subject body
  = OpenRouter.defaultResult.
Proof. unfold OpenRouter.analyzeEmail. intros ->. reflexivity. Qed.

Lemma analyzeEmail_wellformed API_KEY JSON_parse prompt provider subject body :
  let r := OpenRouter.analyzeEmail API_KEY JSON_parse prompt provider subject body in
  OpenRouter.category r ∈ OpenRouter.validCategories
  /\ truthy (OpenRouter.summary r) = true
  /\ truthy (OpenRouter.events r) = true.
Proof.
  cbn zeta. unfold OpenRouter.analyzeEmail.
  destruct (OpenRouter.analyzeEmail_try _ _ _ _ _ _) as [r|e] eqn:E.
  - apply analyzeEmail_try_Ok_inv in E as [->|[parsed Hv]].
    + cbn. auto using General_valid.
    + eauto using validate_Ok_inv.
  - cbn. auto using General_valid.
Qed.

(** the [try] block once the input check has passed *)
Lemma analyzeEmail_try_unfold API_KEY JSON_parse prompt provider subject body :
  (String.eqb subject "" && String.eqb body "") = false ->
  OpenRouter.analyzeEmail_try API_KEY JSON_parse prompt provider subject body =
  (_ ← OpenRouter.requireKey API_KEY;
   response ← OpenRouter.awaitFetch (provider (OpenRouter.fullPrompt prompt subject body));
   _ ← OpenRouter.checkStatus response;
   data ← OpenRouter.json response;
   content ← OpenRouter.contentOf data;
   jsonText ← OpenRouter.extractJsonText content;
   parsed ← OpenRouter.parseJson JSON_parse jsonText;
   OpenRouter.validate parsed).
Proof. unfold OpenRouter.analyzeEmail_try. intros ->. reflexivity. Qed.

Lemma checkStatus_not_ok (r : OpenRouter.HttpResponse) :
  OpenRouter.ok r = false -> exists e, OpenRouter.checkStatus r = Throw e.
Proof.
  unfold OpenRouter.checkStatus. intros ->.
  destruct (OpenRouter.text r) as [t|e]; cbn; [|eauto].
  destruct ((OpenRouter.status r =? 401) || (OpenRouter.status r =? 403)); eauto.
Qed.

(** a failure at any stage of the [try] block surfaces as a [Throw] *)
Lemma analyzeEmail_try_stages API_KEY JSON_parse prompt provider subject body :
  (String.eqb subject "" && String.eqb body "") = false ->
  forall e,
    OpenRouter.requireKey API_KEY = Throw e
    \/ OpenRouter.awaitFetch (provider (OpenRouter.fullPrompt prompt subject body)) = Throw e
    \/ (exists response,
          provider (OpenRouter.fullPrompt prompt subject body) = OpenRouter.FetchResolves response
          /\ (OpenRouter.checkStatus response = Throw e
              \/ OpenRouter.json response = Throw e
              \/ exists data,
                   OpenRouter.json response = Ok data
                   /\ (OpenRouter.contentOf data = Throw e
                       \/ exists content,
                            OpenRouter.contentOf data = Ok content
                            /\ (OpenRouter.extractJsonText content = Throw e
                                \/ exists jsonText,
                                     OpenRouter.extractJsonText content = Ok jsonText
                                     /\ (OpenRouter.parseJson JSON_parse jsonText = Throw e
                                         \/ exists parsed,
                                              OpenRouter.parseJson JSON_parse jsonText = Ok parsed
                                              /\ OpenRouter.validate parsed = Throw e))))) ->
  exists e', OpenRouter.analyzeEmail_try API_KEY JSON_parse prompt provider subject body = Throw e'.
Proof.
  intros Hne e H. rewrite (analyzeEmail_try_unfold _ _ _ _ _ _ Hne).
  destruct (OpenRouter.requireKey API_KEY) as [k|e0]; cbn; [|eauto].
  destruct H as [H|[H|(response & Hp & H)]]; [discriminate| |].
  - rewrite H. cbn. eauto.
  - rewrite Hp. cbn.
    destruct (OpenRouter.checkStatus response) as [[]|e1]; cbn; [|eauto].
    destruct H as [H|[H|(data & Hd & H)]]; [discriminate|rewrite H; cbn; eauto|].
    rewrite Hd. cbn.
    destruct H as [H|(content & Hc & H)]; [rewrite H; cbn; eauto|].
    rewrite Hc. cbn.
    destruct H as [H|(jsonText & Hj & H)]; [rewrite H; cbn; eauto|].
    rewrite Hj. cbn.
    destruct H as [H|(parsed & Hq & H)]; [rewrite H; cbn; eauto|].
    rewrite Hq. cbn. eauto.
Qed.

(** what [validate] makes of the summary and the events of the parsed value *)
Lemma validate_Ok_fields parsed r :
  OpenRouter.validate parsed = Ok r ->
  exists sm ev,
    get parsed "summary" = Ok sm /\ get parsed "events" = Ok ev
    /\ OpenRouter.summary r = or_else sm (VStr "No summary available")
    /\ OpenRouter.events r = or_else ev (VArr []).
Proof.
  unfold OpenRouter.validate. intros H. exc_inv H. subst r.
  exists a1, a2. by cbn.
Qed.

(** the payload from which [contentOf] returns *)
Lemma contentOf_Ok_inv data s :
  OpenRouter.contentOf data = Ok s ->
  exists err choices len first,
    get data "error" = Ok err /\ truthy err = false
    /\ get data "choices" = Ok choices /\ truthy choices = true
    /\ get choices "length" = Ok len /\ is_zero len = false
    /\ get0 choices = Ok first
    /\ get_opt (get_opt first "message") "content" = VStr s
    /\ trim s <> "".
Proof.
  unfold OpenRouter.contentOf. intros H.
  apply bind_Ok_inv in H as (err & Herr & H).
  destruct (truthy err) eqn:Et.
  { apply bind_Ok_inv in H as (u & Hu & _).
    destruct (OpenRouter.dataError err); discriminate. }
  apply bind_Ok_inv in H as (_ & _ & H).
  apply bind_Ok_inv in H as (choices & Hch & H).
  destruct (truthy choices) eqn:Ec.
  2:{ apply bind_Ok_inv in H as (len & _ & H). apply bind_Ok_inv in H as (u & Hu & _).
      discriminate. }
  apply bind_Ok_inv in H as (len & Hlen & H).
  apply bind_Ok_inv in H as (u & Hu & H). cbn [negb orb] in Hu.
  destruct (is_zero len) eqn:Ez; [discriminate|].
  apply bind_Ok_inv in H as (first & Hf & H).
  destruct (get_opt (get_opt first "message") "content") as [| |b|n|c|l|fs] eqn:Econ;
    cbn [truthy] in H; try discriminate;
    try (destruct b; discriminate); try (destruct (n =? 0); discriminate).
  apply bind_Ok_inv in H as (u' & Hu' & H). injection H as <-.
  exists err, choices, len, first. repeat split; try done.
  unfold throwIf in Hu'. destruct (String.eqb c "" || _) eqn:Eb; [discriminate|].
  apply orb_false_iff in Eb as [_ Eb]. intros Ht. by rewrite Ht in Eb.
Qed.

(** the whole [try] block, when it returns *)
Lemma analyzeEmail_try_Ok_chain API_KEY JSON_parse prompt provider subject body r :
  OpenRouter.analyzeEmail_try API_KEY JSON_parse prompt provider subject body = Ok r ->
  (subject = "" /\ body = "" /\ r = OpenRouter.emptyInputResult)
  \/ exists key response data content jsonText parsed sm ev,
       API_KEY = Some key /\ key <> ""
       /\ provider (OpenRouter.fullPrompt prompt subject body)
          = OpenRouter.FetchResolves response
       /\ OpenRouter.ok response = true
       /\ OpenRouter.json response = Ok data
       /\ OpenRouter.contentOf data = Ok content
       /\ OpenRouter.extractJsonText content = Ok jsonText
       /\ JSON_parse jsonText = Some parsed
       /\ get parsed "summary" = Ok sm /\ get parsed "events" = Ok ev
       /\ OpenRouter.summary r = or_else sm (VStr "No summary available")
       /\ OpenRouter.events r = or_else ev (VArr []).
Proof.
  unfold OpenRouter.analyzeEmail_try.
  destruct (String.eqb_spec subject "") as [->|Hs]; cbn [andb].
  - destruct (String.eqb_spec body "") as [->|Hb].
    + intros [= <-]. by left.
    + intros H. right. revert H. intros H.
      apply bind_Ok_inv in H as (key & Hk & H).
      apply bind_Ok_inv in H as (response & Hr & H).
      apply bind_Ok_inv in H as ([] & Hst & H).
      apply bind_Ok_inv in H as (data & Hd & H).
      apply bind_Ok_inv in H as (content & Hc & H).
      apply bind_Ok_inv in H as (jsonText & Hj & H).
      apply bind_Ok_inv in H as (parsed & Hp & H).
      destruct (validate_Ok_fields parsed r H) as (sm & ev & H1 & H2 & H3 & H4).
      exists key, response, data, content, jsonText, parsed, sm, ev.
      split; [|split]; [| |split; [|split; [|repeat split; try done]]].
      * unfold OpenRouter.requireKey in Hk. destruct API_KEY as [k|]; [|done].
        destruct (String.eqb k ""); [done|]. by injection Hk as ->.
      * unfold OpenRouter.requireKey in Hk. destruct API_KEY as [k|]; [|done].
        destruct (String.eqb_spec k ""); [done|]. by injection Hk as <-.
      * unfold OpenRouter.awaitFetch in Hr. destruct (provider _); [done|]. by injection Hr as ->.
      * destruct (OpenRouter.ok response) eqn:Eo; [done|].
        destruct (checkStatus_not_ok response Eo) as [e He]. congruence.
      * unfold OpenRouter.parseJson in Hp. destruct (JSON_parse jsonText); [|done].
        by injection Hp as ->.
  - intros H. right.
    apply bind_Ok_inv in H as (key & Hk & H).
    apply bind_Ok_inv in H as (response & Hr & H).
    apply bind_Ok_inv in H as ([] & Hst & H).
    apply bind_Ok_inv in H as (data & Hd & H).
    apply bind_Ok_inv in H as (content & Hc & H).
    apply bind_Ok_inv in H as (jsonText & Hj & H).
    apply bind_Ok_inv in H as (parsed & Hp & H).
    destruct (validate_Ok_fields parsed r H) as (sm & ev & H1 & H2 & H3 & H4).
    exists key, response, data, content, jsonText, parsed, sm, ev.
    split; [|split]; [| |split; [|split; [|repeat split; try done]]].
    + unfold OpenRouter.requireKey in Hk. destruct API_KEY as [k|]; [|done].
      destruct (String.eqb k ""); [done|]. by injection Hk as ->.
    + unfold OpenRouter.requireKey in Hk. destruct API_KEY as [k|]; [|done].
      destruct (String.eqb_spec k ""); [done|]. by injection Hk as <-.
    + unfold OpenRouter.awaitFetch in Hr. destruct (provider _); [done|]. by injection Hr as ->.
    + destruct (OpenRouter.ok response) eqn:Eo; [done|].
      destruct (checkStatus_not_ok response Eo) as [e He]. congruence.
    + unfold OpenRouter.parseJson in Hp. destruct (JSON_parse jsonText); [|done].
      by injection Hp as ->.
Qed.

(** C1 (as amended). [analyzeEmail] is total: whatever the subject, the body
    and the provider do, it returns a record whose category is one of the
    four fixed categories and whose summary and events are present (truthy).
    When the [try] block returns, the summary and the events are those of
    the parsed provider object, handed on unchecked, with the placeholder
    and the empty list standing in for falsy ones. Whenever the block throws
    the record returned is exactly the default result; and it does throw on
    a missing or empty key, a rejected [fetch], a non-success status, an
    undecodable body, a payload that is [null], carries a truthy [error],
    has no [choices] or empty ones, or whose first choice holds no
    non-blank string content, text that cannot be parsed, and a parsed
    value that cannot be validated. *)
Theorem analyzeEmail_never_raises
    (API_KEY : option string) (JSON_parse : string -> option JSValue) (prompt : string)
    (provider : string -> OpenRouter.FetchOutcome) (subject body : string) :
  let r := OpenRouter.analyzeEmail API_KEY JSON_parse prompt provider subject body in
  let attempt := OpenRouter.analyzeEmail_try API_KEY JSON_parse prompt provider subject body in
  let sent := provider (OpenRouter.fullPrompt prompt subject body) in
  (OpenRouter.category r ∈ OpenRouter.validCategories
   /\ truthy (OpenRouter.summary r) = true
   /\ truthy (OpenRouter.events r) = true)
  /\ (forall e, attempt = Throw e -> r = OpenRouter.defaultResult)
  /\ ((String.eqb subject "" && String.eqb body "") = false ->
      (forall e, OpenRouter.requireKey API_KEY = Throw e -> r = OpenRouter.defaultResult)
      /\ (forall e, sent = OpenRouter.FetchRejects e -> r = OpenRouter.defaultResult)
      /\ (forall response, sent = OpenRouter.FetchResolves response ->
            OpenRouter.ok response = false -> r = OpenRouter.defaultResult)
      /\ (forall response e, sent = OpenRouter.FetchResolves response ->
            OpenRouter.json response = Throw e -> r = OpenRouter.defaultResult)
      /\ (forall response data e, sent = OpenRouter.FetchResolves response ->
            OpenRouter.json response = Ok data ->
            OpenRouter.contentOf data = Throw e -> r = OpenRouter.defaultResult)
      /\ (forall response data content, sent = OpenRouter.FetchResolves response ->
            OpenRouter.json response = Ok data ->
            OpenRouter.contentOf data = Ok content ->
            (forall jsonText parsed,
                OpenRouter.extractJsonText content = Ok jsonText ->
                JSON_parse jsonText = Some parsed ->
                exists e, OpenRouter.validate parsed = Throw e) ->
            r = OpenRouter.defaultResult))
  /\ ((String.eqb subject "" && String.eqb body "") = false ->
      (API_KEY = None \/ API_KEY = Some "" -> r = OpenRouter.defaultResult)
      /\ (forall response data, sent = OpenRouter.FetchResolves response ->
            OpenRouter.json response = Ok data ->
            (exists e, get data "error" = Throw e)
            \/ (exists err, get data "error" = Ok err /\ truthy err = true)
            \/ (exists choices, get data "choices" = Ok choices
                  /\ (truthy choices = false
                      \/ exists len, get choices "length" = Ok len /\ is_zero len = true))
            \/ (exists choices first, get data "choices" = Ok choices
                  /\ get0 choices = Ok first
                  /\ forall s, get_opt (get_opt first "message") "content" = VStr s ->
                               trim s = "") ->
            r = OpenRouter.defaultResult)
      /\ (forall response data content jsonText, sent = OpenRouter.FetchResolves response ->
            OpenRouter.json response = Ok data ->
            OpenRouter.contentOf data = Ok content ->
            OpenRouter.extractJsonText content = Ok jsonText ->
            JSON_parse jsonText = None -> r = OpenRouter.defaultResult))
  /\ (forall r', attempt = Ok r' ->
      r = r'
      /\ ((subject = "" /\ body = "" /\ r' = OpenRouter.emptyInputResult)
          \/ exists key response data content jsonText parsed sm ev,
               API_KEY = Some key /\ key <> ""
               /\ sent = OpenRouter.FetchResolves response
               /\ OpenRouter.ok response = true
               /\ OpenRouter.json response = Ok data
               /\ OpenRouter.contentOf data = Ok content
               /\ OpenRouter.extractJsonText content = Ok jsonText
               /\ JSON_parse jsonText = Some parsed
               /\ get parsed "summary" = Ok sm /\ get parsed "events" = Ok ev
               /\ OpenRouter.summary r' = or_else sm (VStr "No summary available")
               /\ OpenRouter.events r' = or_else ev (VArr []))).
Proof.
  cbn zeta.
  split; [apply analyzeEmail_wellformed|].
  split; [intros e; apply analyzeEmail_throw|].
  assert (Hcontent : (String.eqb subject "" && String.eqb body "") = false ->
            forall response data e,
              provider (OpenRouter.fullPrompt prompt subject body)
                = OpenRouter.FetchResolves response ->
              OpenRouter.json response = Ok data ->
              OpenRouter.contentOf data = Throw e ->
              OpenRouter.analyzeEmail API_KEY JSON_parse prompt provider subject body
              = OpenRouter.defaultResult).
  { intros Hne response data e Hs Hj Hc.
    destruct (analyzeEmail_try_stages API_KEY JSON_parse prompt provider subject body Hne e)
      as [e' H']; [|eapply analyzeEmail_throw; eauto].
    right; right. exists response. split; [done|]. right; right. exists data. auto. }
  split.
  { intros Hne.
    assert (Hstage := analyzeEmail_try_stages API_KEY JSON_parse prompt provider subject body Hne).
    repeat split.
    - intros e He. destruct (Hstage e) as [e' H']; [auto|]. eapply analyzeEmail_throw; eauto.
    - intros e He. destruct (Hstage e) as [e' H'].
      { right; left. rewrite He. reflexivity. }
      eapply analyzeEmail_throw; eauto.
    - intros response Hs Hok. destruct (checkStatus_not_ok _ Hok) as [e He].
      destruct (Hstage e) as [e' H']; [|eapply analyzeEmail_throw; eauto].
      right; right. exists response. auto.
    - intros response e Hs Hj.
      destruct (Hstage e) as [e' H']; [|eapply analyzeEmail_throw; eauto].
      right; right. exists response. auto.
    - intros response data e. by apply Hcontent.
    - intros response data content Hs Hj Hc Hrest.
      destruct (OpenRouter.extractJsonText content) as [jsonText|e1] eqn:Hx.
      + destruct (JSON_parse jsonText) as [parsed|] eqn:Hp.
        * destruct (Hrest _ _ eq_refl Hp) as [e He].
          destruct (Hstage e) as [e' H']; [|eapply analyzeEmail_throw; eauto].
          right; right. exists response. split; [done|]. right; right. exists data.
          split; [done|]. right. exists content. split; [done|]. right. exists jsonText.
          split; [done|]. right. exists parsed. unfold OpenRouter.parseJson. rewrite Hp. auto.
        * destruct (Hstage (Error "Failed to parse OpenRouter response as JSON")) as [e' H'];
            [|eapply analyzeEmail_throw; eauto].
          right; right. exists response. split; [done|]. right; right. exists data.
          split; [done|]. right. exists content. split; [done|]. right. exists jsonText.
          split; [done|]. left. unfold OpenRouter.parseJson. rewrite Hp. reflexivity.
      + destruct (Hstage e1) as [e' H']; [|eapply analyzeEmail_throw; eauto].
        right; right. exists response. split; [done|]. right; right. exists data.
        split; [done|]. right. exists content. auto. }
  split.
  { intros Hne.
    assert (Hstage := analyzeEmail_try_stages API_KEY JSON_parse prompt provider subject body Hne).
    split; [|split].
    - intros Hkey.
      destruct (Hstage (Error "OPENROUTER_API is not set in environment variables"))
        as [e' H']; [|eapply analyzeEmail_throw; eauto].
      left. by destruct Hkey as [-> | ->].
    - intros response data Hs Hj Hbad.
      destruct (OpenRouter.contentOf data) as [content|e] eqn:Hc;
        [|by apply (Hcontent Hne response data e)].
      exfalso.
      destruct (contentOf_Ok_inv data content Hc)
        as (err & choices & len & first & H1 & H2 & H3 & H4 & H5 & H6 & H7 & H8 & H9).
      destruct Hbad as [(e & He)|[(err' & He & Ht)|[(ch & Hch & Hbad)|(ch & f & Hch & Hf & Hs')]]].
      + congruence.
      + congruence.
      + assert (ch = choices) by congruence. subst ch.
        destruct Hbad as [Hbad|(len' & Hl & Hz)]; congruence.
      + assert (ch = choices) by congruence. subst ch.
        assert (f = first) by congruence. subst f. by apply H9, Hs'.
    - intros response data content jsonText Hs Hj Hc Hx Hp.
      destruct (Hstage (Error "Failed to parse OpenRouter response as JSON")) as [e' H'];
        [|eapply analyzeEmail_throw; eauto].
      right; right. exists response. split; [done|]. right; right. exists data.
      split; [done|]. right. exists content. split; [done|]. right. exists jsonText.
      split; [done|]. left. unfold OpenRouter.parseJson. rewrite Hp. reflexivity. }
  intros r' Hr'. split.
  { unfold OpenRouter.analyzeEmail. by rewrite Hr'. }
  by apply analyzeEmail_try_Ok_chain.
Qed.

(** C1 (as stated) fails. The provider answers with an object whose summary
    is the number 5 and whose events are the string "none": [analyzeEmail]
    returns them as they are, so the result is not a record of a category, a
    summary text and a list of events. *)
Lemma analyzeEmail_result_not_well_formed :
  OpenRouter.analyzeEmail (Some "sk-or-key") Samples.parseLoose "Categorize:"
    (fun _ => Scenarios.chatCompletion Samples.looseText) "Quiz" "Quiz on Friday"
  = {| OpenRouter.category := "Event";
       OpenRouter.summary := VNum 5;
       OpenRouter.events := VStr "none" |}
  /\ (forall text,
        OpenRouter.summary
          (OpenRouter.analyzeEmail (Some "sk-or-key") Samples.parseLoose "Categorize:"
             (fun _ => Scenarios.chatCompletion Samples.looseText) "Quiz" "Quiz on Friday")
        <> VStr text)
  /\ (forall items,
        OpenRouter.events
          (OpenRouter.analyzeEmail (Some "sk-or-key") Samples.parseLoose "Categorize:"
             (fun _ => Scenarios.chatCompletion Samples.looseText) "Quiz" "Quiz on Friday")
        <> VArr items).
Proof.
  assert (E : OpenRouter.analyzeEmail (Some "sk-or-key") Samples.parseLoose "Categorize:"
                (fun _ => Scenarios.chatCompletion Samples.looseText) "Quiz" "Quiz on Friday"
              = {| OpenRouter.category := "Event";
                   OpenRouter.summary := VNum 5;
                   OpenRouter.events := VStr "none" |}) by (vm_compute; reflexivity).
  split; [exact E|]. rewrite E. split; intros; discriminate.
Qed.

(** C8. Validation of a parsed object always succeeds; the category of the
    result is the parsed category when that is one of the four fixed strings
    and 'General' otherwise (another string such as "Urgent", a value that is
    no string, or no category at all); a missing summary becomes
    'No summary available' and missing events become the empty list. *)
Theorem validate_coerces_and_defaults (fields : list (string * JSValue)) :
  exists r,
    OpenRouter.validate (VObj fields) = Ok r
    /\ OpenRouter.category r ∈ OpenRouter.validCategories
    /\ OpenRouter.category r =
         match lookup_field "category" fields with
         | Some (VStr s) => if bool_decide (s ∈ OpenRouter.validCategories) then s else "General"
         | _ => "General"
         end
    /\ (lookup_field "category" fields = Some (VStr "Urgent") -> OpenRouter.category r = "General")
    /\ (lookup_field "category" fields = None -> OpenRouter.category r = "General")
    /\ (lookup_field "summary" fields = None ->
        OpenRouter.summary r = VStr "No summary available")
    /\ (lookup_field "events" fields = None -> OpenRouter.events r = VArr []).
Proof.
  eexists. split; [apply validate_object|]. cbn.
  assert (Hcat : match OpenRouter.includesCategory (default VUndefined (lookup_field "category" fields)) with
                 | Some s => s
                 | None => "General"
                 end =
                 match lookup_field "category" fields with
                 | Some (VStr s) => if bool_decide (s ∈ OpenRouter.validCategories) then s else "General"
                 | _ => "General"
                 end).
  { destruct (lookup_field "category" fields) as [[]|]; cbn; try reflexivity.
    case_bool_decide; reflexivity. }
  rewrite Hcat. repeat split.
  - destruct (lookup_field "category" fields) as [[]|]; try apply General_valid.
    case_bool_decide; [assumption|apply General_valid].
  - intros ->. reflexivity.
  - intros ->. reflexivity.
  - intros ->. reflexivity.
  - intros ->. reflexivity.
Qed.

Lemma prefix_Re_app s : String.prefix "Re:" ("Re: " +:+ s) = true.
Proof. reflexivity. Qed.

Lemma replySubject_startsWith s : startsWith (OpenRouter.replySubject s) "Re:" = true.
Proof.
  unfold OpenRouter.replySubject. destruct (startsWith s "Re:") eqn:E; [exact E|].
  apply prefix_Re_app.
Qed.

Lemma generateEmailReply_subject API_KEY replyPrompt refinePrompt provider s b u rr cd r :
  OpenRouter.generateEmailReply API_KEY replyPrompt refinePrompt provider s b u rr cd = Ok r ->
  OpenRouter.reply_subject r = OpenRouter.replySubject s.
Proof.
  unfold OpenRouter.generateEmailReply. intros H. exc_inv H. subst r. reflexivity.
Qed.

(** C10. The reply subject is the original subject when that starts with
    'Re:' and 'Re: ' followed by it otherwise; the transform is idempotent;
    it is the subject of every reply [generateEmailReply] returns, and a
    reply is returned when the provider answers with text. *)
Theorem replySubject_idempotent (originalSubject : string) :
  OpenRouter.replySubject originalSubject =
    (if startsWith originalSubject "Re:" then originalSubject else "Re: " +:+ originalSubject)
  /\ OpenRouter.replySubject (OpenRouter.replySubject originalSubject)
     = OpenRouter.replySubject originalSubject
  /\ (forall API_KEY replyPrompt refinePrompt provider body intent refinement draft r,
        OpenRouter.generateEmailReply API_KEY replyPrompt refinePrompt provider
          originalSubject body intent refinement draft = Ok r ->
        OpenRouter.reply_subject r = OpenRouter.replySubject originalSubject)
  /\ (forall replyPrompt refinePrompt body intent,
        OpenRouter.generateEmailReply (Some "sk-or-key") replyPrompt refinePrompt
          (fun _ => Scenarios.chatCompletion "Thanks, noted.")
          originalSubject body intent None None
        = Ok {| OpenRouter.reply_subject := OpenRouter.replySubject originalSubject;
                OpenRouter.reply_body := "Thanks, noted." |}).
Proof.
  split; [reflexivity|].
  split.
  { pose proof (replySubject_startsWith originalSubject) as H.
    unfold OpenRouter.replySubject at 1. rewrite H. reflexivity. }
  split.
  { intros. eapply generateEmailReply_subject; eauto. }
  intros. reflexivity.
Qed.

(** ** The message parser *)

Import EmailService.

Lemma resolveDate_valid Date_parse now imapDate parsedDate :
  exists t, getTime (resolveDate Date_parse now imapDate parsedDate) = Some t.
Proof.
  unfold resolveDate. cbv zeta.
  match goal with
  | |- context [match getTime ?d with Some _ => _ | None => _ end] =>
      destruct d as [t|] eqn:E; cbn; eauto
  end.
Qed.

(** C9. The stored date is the server's internal date when the session
    reported one, else the date of the headers when there is one, else the
    reading of the clock; a date chosen this way that is invalid is replaced
    by the reading of the clock (the headers are not consulted again), so
    the date stored in the message is always a valid one. *)
Theorem resolveDate_priority
    (Date_parse : string -> JSDate)
    (now seqno : Z) (imapDate : option DateLike) (parsed : ParsedMail) :
  let stored := date (buildEmail Date_parse now seqno imapDate parsed) in
  stored = resolveDate Date_parse now imapDate (pm_date parsed)
  /\ (exists t, getTime stored = Some t)
  /\ (forall t, imapDate = Some (ADate (DateOf t)) -> stored = DateOf t)
  /\ (forall t, imapDate = None -> pm_date parsed = Some (ADate (DateOf t)) ->
        stored = DateOf t)
  /\ (imapDate = None -> pm_date parsed = None -> stored = DateOf now)
  /\ (imapDate = Some (ADate InvalidDate) -> stored = DateOf now)
  /\ (imapDate = None -> pm_date parsed = Some (ADate InvalidDate) -> stored = DateOf now)
  /\ (forall s, imapDate = None -> pm_date parsed = Some (AString s) ->
        stored = match getTime (Date_parse s) with
                 | Some t => if String.eqb s "" then DateOf now else DateOf t
                 | None => DateOf now
                 end).
Proof.
  cbn zeta. cbn [buildEmail date].
  split; [reflexivity|].
  split; [apply resolveDate_valid|].
  repeat split.
  - intros t ->. reflexivity.
  - intros t -> ->. reflexivity.
  - intros -> ->. reflexivity.
  - intros ->. reflexivity.
  - intros -> ->. reflexivity.
  - intros s -> ->. unfold resolveDate, present, dateTruthy.
    destruct (String.eqb s ""); cbn.
    + destruct (getTime (Date_parse s)); reflexivity.
    + destruct (Date_parse s); reflexivity.
Qed.

(** With a valid date from the server or the headers the derived identity
    does not depend on when the message is parsed. *)
Lemma derived_identity_stable_with_date Date_parse now1 now2 seqno imapDate parsed t :
  present imapDate = Some (ADate (DateOf t))
  \/ (present imapDate = None /\ present (pm_date parsed) = Some (ADate (DateOf t))) ->
  id (buildEmail Date_parse now1 seqno imapDate parsed)
  = id (buildEmail Date_parse now2 seqno imapDate parsed).
Proof.
  intros H. unfold buildEmail, resolveDate. cbn [id].
  destruct H as [-> | [-> ->]]; reflexivity.
Qed.

(** C6. A message without Message-ID for which neither the server nor the
    headers give a date: parsed at clock reading 1000 and again at clock
    reading 2000, the same bytes under the same sequence number get two
    different identities, because the composite contains the resolved date
    and that date is the time of parsing. *)
Theorem derived_identity_follows_clock :
  id (buildEmail Scenarios.noDateParse 1000 7 None Scenarios.bareMail)
    = "email-7-no-subject-1000-no-sender"
  /\ id (buildEmail Scenarios.noDateParse 2000 7 None Scenarios.bareMail)
    = "email-7-no-subject-2000-no-sender"
  /\ id (buildEmail Scenarios.noDateParse 1000 7 None Scenarios.bareMail)
    <> id (buildEmail Scenarios.noDateParse 2000 7 None Scenarios.bareMail).
Proof.
  split; [vm_compute; reflexivity|].
  split; [vm_compute; reflexivity|].
  vm_compute. discriminate.
Qed.

(** ** Sorting by date *)

Import Routes.

Section SortFacts.
Context {A : Type} (dateOf : A -> JSDate).

Let R (a b : A) : Prop := notLater (dateOf a) (dateOf b).
Let valid (a : A) : Prop := is_Some (getTime (dateOf a)).

Lemma insertByDate_perm x l : insertByDate dateOf x l ≡ₚ x :: l.
Proof.
  induction l as [|y ys IH]; cbn; [reflexivity|].
  destruct (earlier (dateOf y) (dateOf x)); [|reflexivity].
  rewrite IH. apply perm_swap.
Qed.

Lemma sortByDate_perm l : sortByDate dateOf l ≡ₚ l.
Proof.
  induction l as [|x xs IH]; [reflexivity|].
  change (sortByDate dateOf (x :: xs)) with (insertByDate dateOf x (sortByDate dateOf xs)).
  rewrite insertByDate_perm. by rewrite IH.
Qed.

Lemma sortByDate_length l : length (sortByDate dateOf l) = length l.
Proof. apply Permutation_length, sortByDate_perm. Qed.

Lemma earlier_notLater a b : earlier a b = true -> notLater a b.
Proof.
  unfold earlier, notLater. destruct (getTime a), (getTime b); try discriminate.
  intros H%Z.ltb_lt. lia.
Qed.

Lemma not_earlier_notLater a b :
  is_Some (getTime a) -> is_Some (getTime b) -> earlier a b = false -> notLater b a.
Proof.
  unfold earlier, notLater. intros [x ->] [y ->] H%Z.ltb_ge. exact H.
Qed.

Lemma notLater_trans a b c : notLater a b -> notLater b c -> notLater a c.
Proof.
  unfold notLater. destruct (getTime a), (getTime b), (getTime c); try tauto. lia.
Qed.

Lemma insertByDate_sorted x l :
  valid x -> Forall valid l -> StronglySorted R l -> StronglySorted R (insertByDate dateOf x l).
Proof.
  intros Hx Hl Hs. induction Hs as [|y ys Hs IH Hy]; cbn.
  - repeat constructor.
  - apply Forall_cons in Hl as [Hvy Hl].
    destruct (earlier (dateOf y) (dateOf x)) eqn:E.
    + constructor; [auto|].
      rewrite insertByDate_perm. constructor; [|exact Hy].
      apply earlier_notLater, E.
    + assert (Hxy : R x y) by (apply not_earlier_notLater; auto).
      constructor; [constructor; auto|].
      constructor; [exact Hxy|].
      eapply Forall_impl; [exact Hy|]. intros z Hz. eapply notLater_trans; eauto.
Qed.

Lemma sortByDate_sorted l :
  Forall valid l -> StronglySorted R (sortByDate dateOf l).
Proof.
  induction 1 as [|x xs Hx Hxs IH]; [constructor|].
  change (sortByDate dateOf (x :: xs)) with (insertByDate dateOf x (sortByDate dateOf xs)).
  apply insertByDate_sorted; auto.
  by rewrite sortByDate_perm.
Qed.

End SortFacts.

Lemma insertByDate_map {A B} (f : A -> B) (dateOf : B -> JSDate) x l :
  map f (insertByDate (fun a => dateOf (f a)) x l) = insertByDate dateOf (f x) (map f l).
Proof.
  induction l as [|y ys IH]; cbn; [reflexivity|].
  destruct (earlier (dateOf (f y)) (dateOf (f x))); cbn; [by rewrite IH|reflexivity].
Qed.

Lemma sortByDate_map {A B} (f : A -> B) (dateOf : B -> JSDate) l :
  map f (sortByDate (fun a => dateOf (f a)) l) = sortByDate dateOf (map f l).
Proof.
  induction l as [|x xs IH]; [reflexivity|].
  change (sortByDate (fun a => dateOf (f a)) (x :: xs))
    with (insertByDate (fun a => dateOf (f a)) x (sortByDate (fun a => dateOf (f a)) xs)).
  rewrite insertByDate_map, IH. reflexivity.
Qed.

Lemma sortEnriched_base l : map base (sortEnriched l) = sortEmails (map base l).
Proof. apply (sortByDate_map base date). Qed.

Lemma sortEnriched_ascending l : validDates (map base l) -> ascending (sortEnriched l).
Proof.
  intros H. apply (sortByDate_sorted (fun e => date (base e))).
  unfold validDates in H. rewrite Forall_map in H. exact H.
Qed.

(** ** The batch orchestrator *)

Lemma js_slice_all {A} (l : list A) n : Z.of_nat (length l) <= n -> js_slice l 0 n = l.
Proof.
  intros H. unfold js_slice. cbv zeta. change (0 <? 0) with false. cbv iota.
  replace (n <? 0) with false by lia.
  rewrite (Z.min_l 0), Z.min_r by lia. rewrite Z.sub_0_r, Nat2Z.id.
  cbn. by rewrite take_ge.
Qed.

Lemma js_slice_window {A} (l : list A) (i n : nat) :
  (i + n <= length l)%nat ->
  js_slice l (Z.of_nat i) (Z.of_nat i + Z.of_nat n) = take n (drop i l).
Proof.
  intros H. unfold js_slice. cbv zeta.
  replace (Z.of_nat i <? 0) with false by lia.
  replace (Z.of_nat i + Z.of_nat n <? 0) with false by lia.
  rewrite !Z.min_l by lia.
  replace (Z.of_nat i + Z.of_nat n - Z.of_nat i) with (Z.of_nat n) by lia.
  by rewrite !Nat2Z.id.
Qed.

Lemma js_slice_tail {A} (l : list A) (i : nat) :
  (i <= length l)%nat -> js_slice l (Z.of_nat i) (Z.of_nat (length l)) = drop i l.
Proof.
  intros H. unfold js_slice. cbv zeta.
  replace (Z.of_nat i <? 0) with false by lia.
  replace (Z.of_nat (length l) <? 0) with false by lia.
  rewrite (Z.min_l (Z.of_nat i)), (Z.min_l (Z.of_nat (length l))) by lia.
  rewrite Nat2Z.id.
  rewrite take_ge; [reflexivity|]. rewrite length_drop. lia.
Qed.

Section OrchestratorFacts.
Variable analyzeEmail : nat -> string -> string -> OpenRouter.AIResponse.
Variable laterFirst : nat -> bool.

Lemma launchAll_base m n batch :
  map base (launchAll analyzeEmail m n batch).1.1 = batch.
Proof.
  revert n. induction batch as [|e rest IH]; intros n; cbn; [reflexivity|].
  unfold launch. destruct (m !! id e); cbn.
  - specialize (IH n). destruct (launchAll analyzeEmail m n rest) as [[rs ws] n2].
    cbn in *. by rewrite IH.
  - specialize (IH (S n)). destruct (launchAll analyzeEmail m (S n) rest) as [[rs ws] n2].
    cbn in *. by rewrite IH.
Qed.

Lemma processGroup_base w batch :
  map base (processGroup analyzeEmail laterFirst w batch).2 = batch.
Proof.
  unfold processGroup.
  pose proof (launchAll_base (cache w) (calls w) batch) as H.
  destruct (launchAll analyzeEmail (cache w) (calls w) batch) as [[rs ws] n]. exact H.
Qed.

(** induction two elements at a time, as the batch loop walks the list *)
Lemma pairs_ind {A} (P : list A -> Prop) :
  P [] -> (forall a, P [a]) -> (forall a b l, P l -> P (a :: b :: l)) -> forall l, P l.
Proof.
  intros H0 H1 H2 l.
  enough (P l /\ forall a, P (a :: l)) by tauto.
  induction l as [|x xs [IH1 IH2]]; [auto|].
  split; [apply IH2|]. intros a. apply H2, IH1.
Qed.

Lemma forBatches_base w l :
  map base (forBatches analyzeEmail laterFirst w l).2 = l.
Proof.
  revert w. induction l as [|a|a b l IH] using pairs_ind; intros w.
  - reflexivity.
  - apply processGroup_base.
  - cbn [forBatches].
    pose proof (processGroup_base w [a; b]) as H1.
    destruct (processGroup analyzeEmail laterFirst w [a; b]) as [w1 r1].
    specialize (IH w1).
    destruct (forBatches analyzeEmail laterFirst w1 l) as [w2 r2].
    cbn in *. rewrite map_app, H1, IH. reflexivity.
Qed.

(** the batch loop, read with the slices the source takes: the first group
    is [l.slice(0, 2)] and the loop goes on with what follows it *)
Lemma forBatches_by_slices w (l : list Email) :
  forBatches analyzeEmail laterFirst w l =
    match l with
    | [] => (w, [])
    | _ =>
        let '(w1, r1) := processGroup analyzeEmail laterFirst w (js_slice l 0 2) in
        let '(w2, r2) := forBatches analyzeEmail laterFirst w1
                           (js_slice l 2 (Z.of_nat (length l))) in
        (w2, r1 ++ r2)
    end.
Proof.
  destruct l as [|a [|b rest]]; [reflexivity| |].
  - change (js_slice [a] 0 2) with [a].
    change (js_slice [a] 2 (Z.of_nat (length [a]))) with (@nil Email).
    cbn [forBatches]. destruct (processGroup analyzeEmail laterFirst w [a]) as [w1 r1].
    by rewrite app_nil_r.
  - replace (js_slice (a :: b :: rest) 0 2) with [a; b]
      by (symmetry; apply (js_slice_window (a :: b :: rest) 0 2); cbn [length]; lia).
    replace (js_slice (a :: b :: rest) 2 (Z.of_nat (length (a :: b :: rest)))) with rest;
      [reflexivity|].
    pose proof (js_slice_tail (a :: b :: rest) 2) as H. cbn [drop] in H.
    symmetry. apply H. cbn [length]. lia.
Qed.

End OrchestratorFacts.

(** ** The retrieval protocols *)

Section ProtocolFacts.
Variable analyzeEmail : nat -> string -> string -> OpenRouter.AIResponse.
Variable laterFirst : nat -> bool.
Variable Date_parse : string -> JSDate.

(** what every handler does with the list it decided to enrich *)
Lemma orchestrate_sorted w l :
  let out := sortEnriched (forBatches analyzeEmail laterFirst w l).2 in
  map base out = sortEmails l
  /\ length out = length l
  /\ (validDates l -> ascending out).
Proof.
  cbn zeta. pose proof (forBatches_base analyzeEmail laterFirst w l) as Hb.
  destruct (forBatches analyzeEmail laterFirst w l) as [w' out]. cbn [snd] in *.
  split; [by rewrite sortEnriched_base, Hb|].
  split.
  - unfold sortEnriched. rewrite sortByDate_length.
    rewrite <- (length_map base out). by rewrite Hb.
  - intros Hv. apply sortEnriched_ascending. by rewrite Hb.
Qed.

Lemma validDates_perm l l' : l ≡ₚ l' -> validDates l -> validDates l'.
Proof. unfold validDates. intros H. by rewrite H. Qed.

Lemma validDates_slice (l : list Email) i j : validDates l -> validDates (js_slice l i j).
Proof. unfold validDates, js_slice. intros H. by apply Forall_take, Forall_drop. Qed.

Lemma Forall_filter_keep {A} (P Q : A -> Prop) `{!forall x, Decision (P x)} (l : list A) :
  Forall Q l -> Forall Q (filter P l).
Proof.
  rewrite !Forall_forall. intros HQ x [_ Hx]%list_elem_of_filter. auto.
Qed.

Lemma validDates_selectNew known since l :
  validDates l -> validDates (selectNew Date_parse known since l).
Proof.
  unfold validDates, selectNew. intros H.
  destruct known; [destruct since as [s|]; [destruct (String.eqb s "")|]|];
    auto; by apply Forall_filter_keep.
Qed.

Lemma fetchAll_Success msg w password rawEmails :
  password <> "" ->
  exists r, (fetchAll analyzeEmail laterFirst msg w password rawEmails).2 = Success r
    /\ map base (f_emails r) = sortEmails rawEmails
    /\ f_count r = Z.of_nat (length rawEmails)
    /\ (validDates rawEmails -> ascending (f_emails r)).
Proof.
  intros Hp. unfold fetchAll.
  destruct (String.eqb_spec password ""); [done|].
  destruct rawEmails as [|e l].
  - eexists. split; [reflexivity|]. cbn. repeat split. intros _. constructor.
  - pose proof (orchestrate_sorted w (e :: l)) as (H1 & H2 & H3).
    destruct (forBatches analyzeEmail laterFirst w (e :: l)) as [w' out].
    eexists. split; [reflexivity|]. cbn [f_emails f_count snd] in *.
    rewrite H2. auto.
Qed.

Lemma fetchNew_Success w password since known rawEmails :
  password <> "" ->
  exists r, (fetchNew analyzeEmail laterFirst Date_parse w password since known rawEmails).2
            = Success r
    /\ map base (d_emails r) = sortEmails (sortEmails (selectNew Date_parse known since rawEmails))
    /\ d_count r = Z.of_nat (length (selectNew Date_parse known since rawEmails))
    /\ (validDates rawEmails -> ascending (d_emails r)).
Proof.
  intros Hp. unfold fetchNew.
  destruct (String.eqb_spec password ""); [done|].
  set (new := sortEmails (selectNew Date_parse known since rawEmails)).
  pose proof (orchestrate_sorted w new) as (H1 & H2 & H3).
  destruct (forBatches analyzeEmail laterFirst w new) as [w' out].
  eexists. split; [reflexivity|]. cbn [d_emails d_count snd] in *.
  rewrite H2. split; [done|]. split.
  - subst new. unfold sortEmails. by rewrite sortByDate_length.
  - intros Hv. apply H3. subst new.
    eapply validDates_perm; [symmetry; apply sortByDate_perm|].
    by apply validDates_selectNew.
Qed.

Lemma fetchProgressive_Success w password batchNumber rawEmails :
  password <> "" ->
  exists r, (fetchProgressive analyzeEmail laterFirst w password batchNumber rawEmails).2
            = Success r
    /\ (validDates rawEmails -> ascending (p_emails r)).
Proof.
  intros Hp. unfold fetchProgressive.
  destruct (String.eqb_spec password ""); [done|].
  set (limited := js_slice rawEmails 0 TOTAL_EMAILS).
  destruct (Z.of_nat (length limited) =? 0).
  { eexists. split; [reflexivity|]. intros _. constructor. }
  destruct (Z.of_nat (length limited) <=? batchNumber * BATCH_SIZE).
  { eexists. split; [reflexivity|]. intros _. constructor. }
  set (batch := js_slice limited _ _).
  pose proof (orchestrate_sorted w batch) as (H1 & H2 & H3).
  destruct (forBatches analyzeEmail laterFirst w batch) as [w' out].
  eexists. split; [reflexivity|]. cbn [p_emails snd] in *.
  intros Hv. apply H3. subst batch limited. by do 2 apply validDates_slice.
Qed.

(** the messages a progressive page answers: the batch cut from the capped
    window, also when that is empty *)
Lemma fetchProgressive_base w password batchNumber rawEmails :
  password <> "" ->
  exists r, (fetchProgressive analyzeEmail laterFirst w password batchNumber rawEmails).2
            = Success r
    /\ map base (p_emails r)
       = sortEmails (js_slice (js_slice rawEmails 0 TOTAL_EMAILS)
                       (batchNumber * BATCH_SIZE) (batchNumber * BATCH_SIZE + BATCH_SIZE)).
Proof.
  intros Hp. unfold fetchProgressive.
  destruct (String.eqb_spec password ""); [done|].
  set (limited := js_slice rawEmails 0 TOTAL_EMAILS).
  destruct (Z.eqb_spec (Z.of_nat (length limited)) 0) as [Hz|Hz].
  { eexists. split; [reflexivity|]. cbn [p_emails].
    destruct limited; [|cbn in Hz; lia]. unfold js_slice. cbv zeta.
    by rewrite drop_nil, take_nil. }
  destruct (Z.leb_spec (Z.of_nat (length limited)) (batchNumber * BATCH_SIZE)) as [Hle|Hlt].
  { eexists. split; [reflexivity|]. cbn [p_emails]. unfold js_slice, BATCH_SIZE in *.
    cbv zeta.
    replace (batchNumber * 4 <? 0) with false by lia.
    replace (batchNumber * 4 + 4 <? 0) with false by lia.
    rewrite !Z.min_r by lia. by rewrite Z.sub_diag. }
  set (batch := js_slice limited _ _).
  pose proof (orchestrate_sorted w batch) as (H1 & _ & _).
  destruct (forBatches analyzeEmail laterFirst w batch) as [w' out].
  eexists. split; [reflexivity|]. exact H1.
Qed.

End ProtocolFacts.

(** C3. Whatever the order of the retrieved messages (each carrying a valid
    date), the enriched list every retrieval endpoint answers with holds
    exactly the messages it has to answer, each once and with its fields
    unchanged, sorted ascending by receipt timestamp: the whole window for
    the base fetch (GET / and POST /fetch), the selected new messages for
    the delta refresh, and the batch cut from the capped window for the
    progressive page. *)
Theorem orchestrated_output_ascending
    (analyzeEmail : nat -> string -> string -> OpenRouter.AIResponse)
    (laterFirst : nat -> bool) (Date_parse : string -> JSDate)
    (w : World) (password : string) (rawEmails : list Email) :
  validDates rawEmails ->
  password <> "" ->
  (exists r, (getRoot analyzeEmail laterFirst w password rawEmails).2 = Success r
             /\ map base (f_emails r) ≡ₚ rawEmails
             /\ ascending (f_emails r))
  /\ (exists r, (postFetch analyzeEmail laterFirst w password rawEmails).2 = Success r
                /\ map base (f_emails r) ≡ₚ rawEmails
                /\ ascending (f_emails r))
  /\ (forall sinceDate knownEmailIds,
        exists r, (fetchNew analyzeEmail laterFirst Date_parse w password sinceDate
                     knownEmailIds rawEmails).2 = Success r
                  /\ map base (d_emails r)
                     ≡ₚ selectNew Date_parse knownEmailIds sinceDate rawEmails
                  /\ ascending (d_emails r))
  /\ (forall batchNumber,
        exists r, (fetchProgressive analyzeEmail laterFirst w password batchNumber
                     rawEmails).2 = Success r
                  /\ map base (p_emails r)
                     ≡ₚ js_slice (js_slice rawEmails 0 TOTAL_EMAILS)
                          (batchNumber * BATCH_SIZE) (batchNumber * BATCH_SIZE + BATCH_SIZE)
                  /\ ascending (p_emails r)).
Proof.
  intros Hv Hp. repeat split.
  - destruct (fetchAll_Success analyzeEmail laterFirst
                "Password required to fetch emails. Please re-login." w password rawEmails Hp)
      as (r & Hr & Hb & _ & Hs).
    exists r. split; [exact Hr|]. split; [|auto].
    rewrite Hb. unfold sortEmails. apply sortByDate_perm.
  - destruct (fetchAll_Success analyzeEmail laterFirst "Password is required"
                w password rawEmails Hp) as (r & Hr & Hb & _ & Hs).
    exists r. split; [exact Hr|]. split; [|auto].
    rewrite Hb. unfold sortEmails. apply sortByDate_perm.
  - intros since known.
    destruct (fetchNew_Success analyzeEmail laterFirst Date_parse w password since known
                rawEmails Hp) as (r & Hr & Hb & _ & Hs).
    exists r. split; [exact Hr|]. split; [|auto].
    rewrite Hb. unfold sortEmails. by rewrite !sortByDate_perm.
  - intros bn.
    destruct (fetchProgressive_Success analyzeEmail laterFirst w password bn rawEmails Hp)
      as (r & Hr & Hs).
    destruct (fetchProgressive_base analyzeEmail laterFirst w password bn rawEmails Hp)
      as (r' & Hr' & Hb).
    assert (r' = r) by congruence. subst r'.
    exists r. split; [exact Hr|]. split; [|auto].
    rewrite Hb. unfold sortEmails. apply sortByDate_perm.
Qed.

Lemma validDates_fortyMessages : validDates Scenarios.fortyMessages.
Proof.
  unfold validDates, Scenarios.fortyMessages. apply Forall_map, Forall_forall.
  intros n _. cbn. eauto.
Qed.

(** forty messages listed newest first, every endpoint *)
Lemma orchestrated_output_ascending_witness :
  (exists r, (getRoot Scenarios.steadyAnalyze (fun _ => false) Scenarios.emptyWorld
                "secret" Scenarios.fortyMessages).2 = Success r
             /\ map base (f_emails r) ≡ₚ Scenarios.fortyMessages
             /\ ascending (f_emails r))
  /\ (exists r, (postFetch Scenarios.steadyAnalyze (fun _ => false) Scenarios.emptyWorld
                   "secret" Scenarios.fortyMessages).2 = Success r
                /\ map base (f_emails r) ≡ₚ Scenarios.fortyMessages
                /\ ascending (f_emails r))
  /\ (forall sinceDate knownEmailIds,
        exists r, (fetchNew Scenarios.steadyAnalyze (fun _ => false) Scenarios.noDateParse
                     Scenarios.emptyWorld "secret" sinceDate knownEmailIds
                     Scenarios.fortyMessages).2 = Success r
                  /\ map base (d_emails r)
                     ≡ₚ selectNew Scenarios.noDateParse knownEmailIds sinceDate
                          Scenarios.fortyMessages
                  /\ ascending (d_emails r))
  /\ (forall batchNumber,
        exists r, (fetchProgressive Scenarios.steadyAnalyze (fun _ => false)
                     Scenarios.emptyWorld "secret" batchNumber
                     Scenarios.fortyMessages).2 = Success r
                  /\ map base (p_emails r)
                     ≡ₚ js_slice (js_slice Scenarios.fortyMessages 0 TOTAL_EMAILS)
                          (batchNumber * BATCH_SIZE) (batchNumber * BATCH_SIZE + BATCH_SIZE)
                  /\ ascending (p_emails r)).
Proof.
  apply (orchestrated_output_ascending Scenarios.steadyAnalyze (fun _ => false)
           Scenarios.noDateParse Scenarios.emptyWorld "secret" Scenarios.fortyMessages).
  - exact validDates_fortyMessages.
  - discriminate.
Defined.

Lemma filter_all_known (known : list string) (rawEmails : list Email) :
  (forall e, e ∈ rawEmails -> id e ∈ known) ->
  filter (fun email => id email ∉ known) rawEmails = [].
Proof.
  intros H. induction rawEmails as [|e l IH]; [reflexivity|].
  rewrite filter_cons_False.
  - apply IH. intros x Hx. apply H. by right.
  - intros Hn. apply Hn, H. by left.
Qed.

(** C4. With a non-empty list of known identities the new-message set of a
    delta refresh is exactly the retrieved messages whose identity is not in
    the list, and the answer carries those messages, sorted; when every
    retrieved message is known the set is empty, the answer carries no
    message, and the shared state is left as it was. *)
Theorem fetchNew_known_identities
    (analyzeEmail : nat -> string -> string -> OpenRouter.AIResponse)
    (laterFirst : nat -> bool) (Date_parse : string -> JSDate)
    (w : World) (password : string) (sinceDate : option string)
    (knownEmailIds : list string) (rawEmails : list Email) :
  password <> "" ->
  knownEmailIds <> [] ->
  let newEmails := selectNew Date_parse knownEmailIds sinceDate rawEmails in
  let answer := fetchNew analyzeEmail laterFirst Date_parse w password sinceDate
                  knownEmailIds rawEmails in
  newEmails = filter (fun email => id email ∉ knownEmailIds) rawEmails
  /\ (exists r, answer.2 = Success r
                /\ map base (d_emails r) ≡ₚ newEmails
                /\ d_count r = Z.of_nat (length newEmails))
  /\ ((forall e, e ∈ rawEmails -> id e ∈ knownEmailIds) ->
      newEmails = []
      /\ answer = (w, Success {| d_emails := []; d_count := 0;
                                 newestDate := SinceEcho sinceDate |})).
Proof.
  intros Hp Hk. cbn zeta.
  assert (Hsel : selectNew Date_parse knownEmailIds sinceDate rawEmails
                 = filter (fun email => id email ∉ knownEmailIds) rawEmails).
  { unfold selectNew. destruct knownEmailIds; [done|reflexivity]. }
  split; [exact Hsel|]. split.
  - destruct (fetchNew_Success analyzeEmail laterFirst Date_parse w password sinceDate
                knownEmailIds rawEmails Hp) as (r & Hr & Hb & Hc & _).
    exists r. split; [exact Hr|]. split; [|exact Hc].
    rewrite Hb. unfold sortEmails. by rewrite !sortByDate_perm.
  - intros Hall. pose proof (filter_all_known knownEmailIds rawEmails Hall) as Hnil.
    split; [congruence|].
    unfold fetchNew. destruct (String.eqb_spec password ""); [done|].
    rewrite Hsel, Hnil. reflexivity.
Qed.

(** a refresh that knows the one identity of the mailbox *)
Lemma fetchNew_known_identities_witness :
  fetchNew Scenarios.steadyAnalyze (fun _ => false) Scenarios.noDateParse
    Scenarios.emptyWorld "secret" None ["<notice-17@iitk.ac.in>"] Scenarios.duplicatedMailbox
  = (Scenarios.emptyWorld,
     Success {| d_emails := []; d_count := 0; newestDate := SinceEcho None |}).
Proof.
  destruct (fetchNew_known_identities Scenarios.steadyAnalyze (fun _ => false)
              Scenarios.noDateParse Scenarios.emptyWorld "secret" None
              ["<notice-17@iitk.ac.in>"] Scenarios.duplicatedMailbox) as (_ & _ & H).
  - discriminate.
  - discriminate.
  - apply H. intros e He. unfold Scenarios.duplicatedMailbox in He.
    apply list_elem_of_In in He. cbn in He.
    destruct He as [<-|[<-|[]]]; cbn; apply list_elem_of_In; cbn; auto.
Defined.

(** ** The memo cache *)

Lemma applyWrites_app m l1 l2 :
  applyWrites m (l1 ++ l2) = applyWrites (applyWrites m l1) l2.
Proof. unfold applyWrites. apply foldl_app. Qed.

Lemma writeOnce_app m l1 l2 :
  writeOnce m l1 -> writeOnce (applyWrites m l1) l2 -> writeOnce m (l1 ++ l2).
Proof.
  revert m. induction l1 as [|[k v] l1 IH]; intros m H1 H2; [exact H2|].
  cbn in *. destruct H1 as [Hk H1]. split; [exact Hk|]. apply IH; assumption.
Qed.

(** writes to pairwise distinct keys, all absent, are write-once *)
Lemma writeOnce_fresh (m : gmap string CacheEntry) ws :
  NoDup ws.*1 -> Forall (fun kv => m !! kv.1 = None) ws -> writeOnce m ws.
Proof.
  revert m. induction ws as [|[k v] ws IH]; intros m Hnd Hf; [exact I|].
  cbn in *. apply NoDup_cons in Hnd as [Hk Hnd]. apply Forall_cons in Hf as [Hm Hf].
  split; [by left|]. apply IH; [exact Hnd|].
  rewrite Forall_forall in *. intros [k' v'] Hin. cbn.
  rewrite lookup_insert_ne; [by apply (Hf (k', v'))|].
  intros ->. apply Hk. apply list_elem_of_fmap. by exists (k', v').
Qed.

(** a write-once log leaves every entry it finds as it is *)
Lemma writeOnce_preserves (m : gmap string CacheEntry) log k v :
  writeOnce m log -> m !! k = Some v -> applyWrites m log !! k = Some v.
Proof.
  revert m. induction log as [|[k' v'] log IH]; intros m Hw Hm; [exact Hm|].
  cbn in *. destruct Hw as [Hk Hw]. apply IH; [exact Hw|].
  destruct (decide (k' = k)) as [->|Hne].
  - rewrite lookup_insert_eq. destruct Hk as [Hk|Hk]; congruence.
  - by rewrite lookup_insert_ne.
Qed.

Section CacheFacts.
Variable analyzeEmail : nat -> string -> string -> OpenRouter.AIResponse.
Variable laterFirst : nat -> bool.
Variable Date_parse : string -> JSDate.

(** a group writes only identities of its own messages that were absent
    from the cache when the group was launched *)
Lemma launchAll_writes m n batch :
  let ws := (launchAll analyzeEmail m n batch).1.2 in
  Forall (fun kv => m !! kv.1 = None) ws /\ sublist ws.*1 (id <$> batch).
Proof.
  cbn zeta. revert n. induction batch as [|e rest IH]; intros n; cbn.
  - split; constructor.
  - unfold launch. destruct (m !! id e) eqn:E.
    + destruct (IH n) as [H1 H2].
      destruct (launchAll analyzeEmail m n rest) as [[rs ws] n2]. cbn in *.
      split; [exact H1|]. by apply sublist_cons.
    + destruct (IH (S n)) as [H1 H2].
      destruct (launchAll analyzeEmail m (S n) rest) as [[rs ws] n2]. cbn in *.
      split; [constructor; assumption|]. by apply sublist_skip.
Qed.

Lemma processGroup_writeOnce w batch :
  NoDup (id <$> batch) ->
  let w' := (processGroup analyzeEmail laterFirst w batch).1 in
  exists log, writes w' = writes w ++ log
    /\ cache w' = applyWrites (cache w) log
    /\ writeOnce (cache w) log
    /\ Forall (fun kv => cache w !! kv.1 = None) log.
Proof.
  intros Hnd. cbn zeta. unfold processGroup.
  pose proof (launchAll_writes (cache w) (calls w) batch) as [Hf Hs].
  destruct (launchAll analyzeEmail (cache w) (calls w) batch) as [[rs ws] n]. cbn in *.
  assert (Hnd' : NoDup ws.*1) by (eapply sublist_NoDup; eauto).
  destruct (laterFirst (groups w)); eexists; (split; [reflexivity|]); (split; [reflexivity|]).
  - split.
    + apply writeOnce_fresh; by rewrite <- (Permutation_rev ws).
    + by rewrite <- (Permutation_rev ws).
  - split; [by apply writeOnce_fresh|exact Hf].
Qed.

Lemma NoDup_pair (a b : Email) : id a <> id b -> NoDup (id <$> [a; b]).
Proof.
  intros H. cbn. apply NoDup_cons. split; [|apply NoDup_singleton].
  intros Hin%list_elem_of_singleton. done.
Qed.

Lemma forBatches_writeOnce w l :
  distinctGroups l ->
  let w' := (forBatches analyzeEmail laterFirst w l).1 in
  exists log, writes w' = writes w ++ log
    /\ cache w' = applyWrites (cache w) log
    /\ writeOnce (cache w) log.
Proof.
  cbn zeta. revert w. induction l as [|a|a b l IH] using pairs_ind; intros w Hd.
  - exists []. cbn. by rewrite app_nil_r.
  - destruct (processGroup_writeOnce w [a]) as (log & H1 & H2 & H3 & _).
    { cbn. apply NoDup_singleton. }
    exists log. auto.
  - cbn [forBatches]. destruct Hd as [Hab Hd].
    destruct (processGroup_writeOnce w [a; b] (NoDup_pair a b Hab)) as (log1 & H1 & H2 & H3 & _).
    destruct (processGroup analyzeEmail laterFirst w [a; b]) as [w1 r1]. cbn [fst] in *.
    destruct (IH w1 Hd) as (log2 & G1 & G2 & G3).
    destruct (forBatches analyzeEmail laterFirst w1 l) as [w2 r2]. cbn [fst] in *.
    exists (log1 ++ log2). split; [by rewrite G1, H1, app_assoc|].
    split; [by rewrite G2, H2, applyWrites_app|].
    apply writeOnce_app; [exact H3|]. by rewrite <- H2.
Qed.

End CacheFacts.

(** *** Interleaved tasks *)

Lemma pending_others_differ (l : list (string * CacheEntry)) i k v :
  NoDup l.*1 -> l !! i = Some (k, v) -> k ∉ (delete i l).*1.
Proof.
  intros Hnd Hi. rewrite <- (take_drop_middle l i (k, v) Hi) in Hnd.
  rewrite delete_take_drop. rewrite fmap_app in *. cbn in Hnd.
  apply NoDup_app in Hnd as (_ & Hl & Hr). apply NoDup_cons in Hr as [Hk _].
  intros [H|H]%elem_of_app; [|done]. apply (Hl k H). by left.
Qed.

(** under exclusive launches every write of a run finds its key absent *)
Lemma runTasks_writeOnce evs : forall s s' log,
  tasksDisjoint s -> exclusive s evs -> runTasks s evs = Some (s', log) ->
  writeOnce (t_cache s) log
  /\ t_cache s' = applyWrites (t_cache s) log
  /\ tasksDisjoint s'.
Proof.
  induction evs as [|ev evs IH]; intros s s' log Hinv Hex Hrun.
  - injection Hrun as <- <-. cbn. auto.
  - cbn [runTasks] in Hrun. cbn [exclusive] in Hex. destruct Hex as [Hev Hex].
    destruct (step s ev) as [[s1 w]|] eqn:Hstep; [|discriminate].
    destruct (runTasks s1 evs) as [[s2 log1]|] eqn:Hrest; [|discriminate].
    injection Hrun as <- <-.
    assert (Hs1 : tasksDisjoint s1
                  /\ match w with
                     | Some (k, v) => t_cache s !! k = None /\ t_cache s1 = <[k := v]> (t_cache s)
                     | None => t_cache s1 = t_cache s
                     end).
    { destruct Hinv as [Hnd Hf]. destruct ev as [email analysis|i]; cbn [step] in Hstep.
      - destruct (t_cache s !! id email) eqn:Hc; injection Hstep as <- <-.
        + split; [by split|reflexivity].
        + split; [|reflexivity]. split; cbn.
          * rewrite fmap_app. apply NoDup_app. split; [exact Hnd|]. split.
            -- intros k Hk Hin. cbn in Hin. apply list_elem_of_singleton in Hin as ->.
               by apply (Hev eq_refl).
            -- apply NoDup_singleton.
          * apply Forall_app. split; [exact Hf|]. by constructor.
      - destruct (t_pending s !! i) as [[k v]|] eqn:Hi; [|discriminate].
        injection Hstep as <- <-.
        assert (Hk : t_cache s !! k = None).
        { rewrite Forall_forall in Hf. apply (Hf (k, v)).
          eapply list_elem_of_lookup_2; eauto. }
        split; [|by split]. split; cbn.
        + eapply sublist_NoDup; [exact Hnd|apply fmap_sublist, sublist_delete].
        + rewrite Forall_forall in *. intros [k' v'] Hin. cbn.
          assert (k' <> k).
          { intros ->. apply (pending_others_differ _ _ _ _ Hnd Hi).
            apply list_elem_of_fmap. by exists (k, v'). }
          rewrite lookup_insert_ne by done. apply (Hf (k', v')).
          by eapply list_elem_of_delete_inv. }
    destruct Hs1 as [Hinv1 Hw].
    destruct (IH s1 s2 log1 Hinv1 Hex Hrest) as (H1 & H2 & H3).
    destruct w as [[k v]|]; cbn [option_list app].
    + destruct Hw as [Hk Hc]. rewrite Hc in H1, H2.
      split; [split; [by left|exact H1]|]. split; [exact H2|exact H3].
    + rewrite Hw in H1, H2. auto.
Qed.

Section GroupRuns.
Variable analyzeEmail : nat -> string -> string -> OpenRouter.AIResponse.
Variable laterFirst : nat -> bool.

Lemma runTasks_app s evs1 evs2 s1 log1 :
  runTasks s evs1 = Some (s1, log1) ->
  runTasks s (evs1 ++ evs2) =
    match runTasks s1 evs2 with
    | Some (s2, log2) => Some (s2, log1 ++ log2)
    | None => None
    end.
Proof.
  revert s s1 log1. induction evs1 as [|ev evs1 IH]; intros s s1 log1 H.
  - injection H as <- <-. cbn. by destruct (runTasks s evs2) as [[]|].
  - cbn [runTasks app] in *. destruct (step s ev) as [[s' w]|]; [|discriminate].
    destruct (runTasks s' evs1) as [[s'' l]|] eqn:E; [|discriminate].
    injection H as <- <-. rewrite (IH _ _ _ E).
    destruct (runTasks s'' evs2) as [[s2 log2]|]; [|reflexivity].
    by rewrite app_assoc.
Qed.

Lemma launchAll_cons_writes m n e rest :
  (launchAll analyzeEmail m n (e :: rest)).1.2 =
    match m !! id e with
    | Some _ => (launchAll analyzeEmail m n rest).1.2
    | None =>
        (id e, entryOf (analyzeEmail n (subject e) (body e)))
          :: (launchAll analyzeEmail m (S n) rest).1.2
    end.
Proof.
  cbn [launchAll]. unfold launch. destruct (m !! id e).
  - by destruct (launchAll analyzeEmail m n rest) as [[rs ws] n2].
  - by destruct (launchAll analyzeEmail m (S n) rest) as [[rs ws] n2].
Qed.

(** launching a group performs no write and queues the group's misses *)
Lemma launches_run m batch : forall n pend,
  runTasks {| t_cache := m; t_pending := pend |} (launches analyzeEmail m n batch)
  = Some ({| t_cache := m;
             t_pending := pend ++ (launchAll analyzeEmail m n batch).1.2 |}, []).
Proof.
  induction batch as [|e rest IH]; intros n pend.
  - cbn. by rewrite app_nil_r.
  - rewrite launchAll_cons_writes.
    cbn [launches runTasks step t_cache t_pending].
    destruct (m !! id e) eqn:E.
    + by rewrite IH.
    + rewrite IH. cbn. by rewrite <- app_assoc.
Qed.

Lemma settle_in_order ws : forall m,
  runTasks {| t_cache := m; t_pending := ws |} (replicate (length ws) (Settle 0))
  = Some ({| t_cache := applyWrites m ws; t_pending := [] |}, ws).
Proof.
  induction ws as [|[k v] ws IH]; intros m; [reflexivity|].
  cbn [length replicate runTasks step t_pending t_cache lookup list_lookup].
  cbn [delete list_delete]. rewrite IH. reflexivity.
Qed.

Lemma settle_last_first ws : forall m,
  runTasks {| t_cache := m; t_pending := ws |}
    ((fun i => Settle i) <$> rev (seq 0 (length ws)))
  = Some ({| t_cache := applyWrites m (rev ws); t_pending := [] |}, rev ws).
Proof.
  induction ws as [|[k v] ws IH] using rev_ind; intros m; [reflexivity|].
  rewrite length_app, Nat.add_comm. cbn [length Nat.add].
  rewrite seq_S, !rev_app_distr. cbn [rev app fmap list_fmap Nat.add].
  cbn [runTasks step t_pending t_cache].
  rewrite list_lookup_middle by done.
  replace (delete (length ws) (ws ++ [(k, v)])) with ws.
  - rewrite IH. reflexivity.
  - rewrite delete_take_drop, take_app_length, drop_ge; [by rewrite app_nil_r|].
    rewrite length_app. cbn. lia.
Qed.

(** a group of the batch loop is this run of the interleaved tasks *)
Lemma processGroup_run w batch :
  let w' := (processGroup analyzeEmail laterFirst w batch).1 in
  runTasks {| t_cache := cache w; t_pending := [] |}
    (groupEvents analyzeEmail laterFirst w batch)
  = Some ({| t_cache := cache w'; t_pending := [] |}, newWrites w w').
Proof.
  cbn zeta. unfold groupEvents, processGroup, newWrites, settleOrder.
  rewrite (runTasks_app _ _ _ _ _ (launches_run (cache w) batch (calls w) [])).
  destruct (launchAll analyzeEmail (cache w) (calls w) batch) as [[rs ws] n].
  cbn [fst snd app writes cache]. rewrite drop_app_length.
  destruct (laterFirst (groups w)).
  - by rewrite settle_last_first.
  - by rewrite settle_in_order.
Qed.

Lemma exclusive_settles evs : forall s,
  Forall (fun ev => exists i, ev = Settle i) evs -> exclusive s evs.
Proof.
  induction evs as [|ev evs IH]; intros s H; [exact I|].
  apply Forall_cons in H as [[i ->] H]. cbn [exclusive]. split; [exact I|].
  destruct (step s (Settle i)) as [[s' w]|]; [by apply IH|exact I].
Qed.

Lemma settleOrder_settles b n :
  Forall (fun ev => exists i, ev = Settle i) (settleOrder b n).
Proof.
  unfold settleOrder. destruct b.
  - apply Forall_fmap, Forall_forall. intros i _. by exists i.
  - apply Forall_replicate. by exists 0%nat.
Qed.

Lemma exclusive_launches m batch evs : forall n pend,
  NoDup (id <$> batch) ->
  (forall e, e ∈ batch -> id e ∉ pend.*1) ->
  (forall s, exclusive s evs) ->
  exclusive {| t_cache := m; t_pending := pend |} (launches analyzeEmail m n batch ++ evs).
Proof.
  induction batch as [|e rest IH]; intros n pend Hnd Hfresh Hevs; [apply Hevs|].
  cbn in Hnd. apply NoDup_cons in Hnd as [He Hnd].
  cbn [launches app exclusive step t_cache t_pending]. split.
  - intros _. apply Hfresh. by left.
  - destruct (m !! id e).
    + apply IH; [exact Hnd| |exact Hevs]. intros e' He'. apply Hfresh. by right.
    + apply IH; [exact Hnd| |exact Hevs]. intros e' He'.
      rewrite fmap_app. cbn. intros [Hin|Hin]%elem_of_app.
      * apply (Hfresh e'); [by right|exact Hin].
      * apply list_elem_of_singleton in Hin. apply He. rewrite <- Hin.
        apply list_elem_of_fmap. by exists e'.
Qed.

(** a group whose members have distinct identities launches exclusively *)
Lemma groupEvents_exclusive w batch :
  NoDup (id <$> batch) ->
  exclusive {| t_cache := cache w; t_pending := [] |}
    (groupEvents analyzeEmail laterFirst w batch).
Proof.
  intros Hnd. unfold groupEvents. apply exclusive_launches; [exact Hnd| |].
  - intros e _. cbn. apply not_elem_of_nil.
  - intros s. apply exclusive_settles, settleOrder_settles.
Qed.

End GroupRuns.

Lemma NoDup_distinctGroups (l : list Email) : NoDup (id <$> l) -> distinctGroups l.
Proof.
  induction l as [|a|a b l IH] using pairs_ind; intros H; [exact I|exact I|].
  cbn in *. apply NoDup_cons in H as [Ha H]. apply NoDup_cons in H as [Hb H].
  split; [|by apply IH].
  intros E. apply Ha. rewrite E. by left.
Qed.

Lemma NoDup_ids_sublist (l k : list Email) :
  sublist k l -> NoDup (id <$> l) -> NoDup (id <$> k).
Proof.
  intros Hs Hn. pose proof (fmap_sublist id _ _ Hs) as Hs'.
  eauto using sublist_NoDup.
Qed.

Lemma js_slice_sublist {A} (l : list A) i j : sublist (js_slice l i j) l.
Proof.
  unfold js_slice. etrans; [apply sublist_take|apply sublist_drop].
Qed.

Section ServeFacts.
Variable analyzeEmail : nat -> string -> string -> OpenRouter.AIResponse.
Variable laterFirst : nat -> bool.
Variable Date_parse : string -> JSDate.

Lemma extends_refl w : extends w w.
Proof. exists []. cbn. by rewrite app_nil_r. Qed.

Lemma extends_trans w1 w2 w3 : extends w1 w2 -> extends w2 w3 -> extends w1 w3.
Proof.
  intros (l1 & A1 & A2 & A3) (l2 & B1 & B2 & B3). exists (l1 ++ l2).
  split; [by rewrite B1, A1, app_assoc|].
  split; [by rewrite B2, A2, applyWrites_app|].
  apply writeOnce_app; [exact A3|]. by rewrite <- A2.
Qed.

Lemma extends_newWrites w w' :
  extends w w' ->
  writeOnce (cache w) (newWrites w w') /\ cache w' = applyWrites (cache w) (newWrites w w').
Proof.
  intros (log & H1 & H2 & H3). unfold newWrites.
  rewrite H1, drop_app_length. auto.
Qed.

Lemma forBatches_extends w l :
  distinctGroups l -> extends w (forBatches analyzeEmail laterFirst w l).1.
Proof. apply forBatches_writeOnce. Qed.

Lemma fetchAll_extends msg w password rawEmails :
  NoDup (id <$> rawEmails) ->
  extends w (fetchAll analyzeEmail laterFirst msg w password rawEmails).1.
Proof.
  intros Hnd. unfold fetchAll.
  destruct (String.eqb password ""); [apply extends_refl|].
  destruct rawEmails as [|e l]; [apply extends_refl|].
  pose proof (forBatches_extends w (e :: l) (NoDup_distinctGroups _ Hnd)) as H.
  destruct (forBatches analyzeEmail laterFirst w (e :: l)) as [w' out]. exact H.
Qed.

Lemma selectNew_sublist known since rawEmails :
  sublist (selectNew Date_parse known since rawEmails) rawEmails.
Proof.
  unfold selectNew.
  destruct known; [destruct since as [s|]; [destruct (String.eqb s "")|]|];
    try reflexivity; apply sublist_filter.
Qed.

Lemma fetchNew_extends w password since known rawEmails :
  NoDup (id <$> rawEmails) ->
  extends w (fetchNew analyzeEmail laterFirst Date_parse w password since known rawEmails).1.
Proof.
  intros Hnd. unfold fetchNew.
  destruct (String.eqb password ""); [apply extends_refl|].
  set (new := sortEmails (selectNew Date_parse known since rawEmails)).
  assert (Hn : NoDup (id <$> new)).
  { subst new. unfold sortEmails. rewrite sortByDate_perm.
    eapply NoDup_ids_sublist; [apply selectNew_sublist|exact Hnd]. }
  pose proof (forBatches_extends w new (NoDup_distinctGroups _ Hn)) as H.
  destruct (forBatches analyzeEmail laterFirst w new) as [w' out]. exact H.
Qed.

Lemma fetchProgressive_extends w password batchNumber rawEmails :
  NoDup (id <$> rawEmails) ->
  extends w (fetchProgressive analyzeEmail laterFirst w password batchNumber rawEmails).1.
Proof.
  intros Hnd. unfold fetchProgressive.
  destruct (String.eqb password ""); [apply extends_refl|].
  set (limited := js_slice rawEmails 0 TOTAL_EMAILS).
  destruct (Z.of_nat (length limited) =? 0); [apply extends_refl|].
  destruct (Z.of_nat (length limited) <=? batchNumber * BATCH_SIZE); [apply extends_refl|].
  set (batch := js_slice limited _ _).
  assert (Hn : NoDup (id <$> batch)).
  { eapply NoDup_ids_sublist; [|exact Hnd].
    subst batch limited. etrans; apply js_slice_sublist. }
  pose proof (forBatches_extends w batch (NoDup_distinctGroups _ Hn)) as H.
  destruct (forBatches analyzeEmail laterFirst w batch) as [w' out]. exact H.
Qed.

Lemma serve_extends w r :
  NoDup (id <$> window r) -> extends w (serve analyzeEmail laterFirst Date_parse w r).
Proof.
  destruct r; cbn [window serve]; intros H.
  - by apply fetchAll_extends.
  - by apply fetchAll_extends.
  - by apply fetchNew_extends.
  - by apply fetchProgressive_extends.
Qed.

Lemma serveAll_extends w rs :
  Forall (fun r => NoDup (id <$> window r)) rs ->
  extends w (serveAll analyzeEmail laterFirst Date_parse w rs).
Proof.
  intros H. revert w. induction H as [|r rs Hr Hrs IH]; intros w.
  - apply extends_refl.
  - cbn. eapply extends_trans; [apply serve_extends, Hr|apply IH].
Qed.

End ServeFacts.

(** C5 (as amended). A task writes an entry only for an identity it found
    absent from the memo cache when it was launched. Hence, in every
    interleaving of the enrichment tasks of any groups and requests in which
    no task is launched on an identity while another task for that identity
    is still awaiting its analysis, every write finds its identity absent and
    no entry, once written, is ever replaced. Each group of the batch loop
    is such an interleaving when its members have distinct identities; so
    base-fetch, delta and progressive requests served one after the other
    over windows whose identities are pairwise distinct never replace an
    entry, and every entry present before is present, unchanged, after. *)
Theorem memo_cache_write_once
    (analyzeEmail : nat -> string -> string -> OpenRouter.AIResponse)
    (laterFirst : nat -> bool) (Date_parse : string -> JSDate)
    (w : World) (requests : list Request) :
  Forall (fun r => NoDup (id <$> window r)) requests ->
  let w' := serveAll analyzeEmail laterFirst Date_parse w requests in
  (writeOnce (cache w) (newWrites w w')
   /\ cache w' = applyWrites (cache w) (newWrites w w')
   /\ (forall k v, cache w !! k = Some v -> cache w' !! k = Some v)
   /\ (forall l, distinctGroups l ->
         writeOnce (cache w) (newWrites w (forBatches analyzeEmail laterFirst w l).1)))
  /\ (forall s evs s' log,
        tasksDisjoint s -> exclusive s evs -> runTasks s evs = Some (s', log) ->
        writeOnce (t_cache s) log
        /\ t_cache s' = applyWrites (t_cache s) log
        /\ (forall k v, t_cache s !! k = Some v -> t_cache s' !! k = Some v))
  /\ (forall batch,
        runTasks {| t_cache := cache w; t_pending := [] |}
          (groupEvents analyzeEmail laterFirst w batch)
        = Some ({| t_cache := cache (processGroup analyzeEmail laterFirst w batch).1;
                   t_pending := [] |},
                newWrites w (processGroup analyzeEmail laterFirst w batch).1)
        /\ (NoDup (id <$> batch) ->
            exclusive {| t_cache := cache w; t_pending := [] |}
              (groupEvents analyzeEmail laterFirst w batch))).
Proof.
  intros H. cbn zeta.
  pose proof (serveAll_extends analyzeEmail laterFirst Date_parse w requests H) as He.
  destruct (extends_newWrites _ _ He) as [H1 H2].
  split; [|split].
  - split; [exact H1|]. split; [exact H2|]. split.
    + intros k v Hk. rewrite H2. by apply writeOnce_preserves.
    + intros l Hl. apply extends_newWrites. by apply forBatches_extends.
  - intros s evs s' log Hd Hex Hrun.
    destruct (runTasks_writeOnce evs s s' log Hd Hex Hrun) as (G1 & G2 & _).
    split; [exact G1|]. split; [exact G2|].
    intros k v Hk. rewrite G2. by apply writeOnce_preserves.
  - intros batch. split; [apply processGroup_run|apply groupEvents_exclusive].
Qed.

Lemma NoDup_ids_fortyMessages : NoDup (id <$> Scenarios.fortyMessages).
Proof. apply (bool_decide_eq_true_1 _). vm_compute. reflexivity. Qed.

(** two progressive pages, a delta refresh and a base fetch over the same
    forty messages, with a provider that fails from its second call on *)
Lemma memo_cache_write_once_witness :
  writeOnce (cache Scenarios.emptyWorld)
    (newWrites Scenarios.emptyWorld
       (serveAll Scenarios.flakyAnalyze (fun _ => true) Scenarios.noDateParse
          Scenarios.emptyWorld
          [PostFetchProgressive "secret" 0 Scenarios.fortyMessages;
           PostFetchProgressive "secret" 1 Scenarios.fortyMessages;
           PostFetchNew "secret" None ["msg-0"] Scenarios.fortyMessages;
           GetRoot "secret" Scenarios.fortyMessages])).
Proof.
  destruct (memo_cache_write_once Scenarios.flakyAnalyze (fun _ => true)
              Scenarios.noDateParse Scenarios.emptyWorld
              [PostFetchProgressive "secret" 0 Scenarios.fortyMessages;
               PostFetchProgressive "secret" 1 Scenarios.fortyMessages;
               PostFetchNew "secret" None ["msg-0"] Scenarios.fortyMessages;
               GetRoot "secret" Scenarios.fortyMessages]) as [[H _] _].
  - do 4 (constructor; [exact NoDup_ids_fortyMessages|]). constructor.
  - exact H.
Defined.

(** C5 (as stated) fails: the mailbox holds one message twice, the two
    copies are enriched in the same group, both miss the cache, the provider
    answers the first call and is rate-limited on the second, and the entry
    written by the task that settles first is replaced by a different one,
    in either completion order. *)
Lemma memo_cache_overwritten :
  newWrites Scenarios.emptyWorld
    (postFetch Scenarios.flakyAnalyze (fun _ => false) Scenarios.emptyWorld "secret"
       Scenarios.duplicatedMailbox).1
  = [("<notice-17@iitk.ac.in>",
      {| c_category := "General"; c_summary := VStr "No summary available";
         c_extractedEvents := VArr [] |});
     ("<notice-17@iitk.ac.in>",
      {| c_category := "General"; c_summary := VStr "Unable to analyze email content.";
         c_extractedEvents := VArr [] |})]
  /\ ~ writeOnce (cache Scenarios.emptyWorld)
         (newWrites Scenarios.emptyWorld
            (postFetch Scenarios.flakyAnalyze (fun _ => false) Scenarios.emptyWorld "secret"
               Scenarios.duplicatedMailbox).1)
  /\ ~ writeOnce (cache Scenarios.emptyWorld)
         (newWrites Scenarios.emptyWorld
            (postFetch Scenarios.flakyAnalyze (fun _ => true) Scenarios.emptyWorld "secret"
               Scenarios.duplicatedMailbox).1)
  /\ ~ exclusive {| t_cache := ∅; t_pending := [] |}
         (groupEvents Scenarios.flakyAnalyze (fun _ => false) Scenarios.emptyWorld
            Scenarios.duplicatedMailbox).
Proof.
  assert (E1 : newWrites Scenarios.emptyWorld
            (postFetch Scenarios.flakyAnalyze (fun _ => false) Scenarios.emptyWorld "secret"
               Scenarios.duplicatedMailbox).1
          = [("<notice-17@iitk.ac.in>",
              {| c_category := "General"; c_summary := VStr "No summary available";
                 c_extractedEvents := VArr [] |});
             ("<notice-17@iitk.ac.in>",
              {| c_category := "General"; c_summary := VStr "Unable to analyze email content.";
                 c_extractedEvents := VArr [] |})]) by (vm_compute; reflexivity).
  assert (E2 : newWrites Scenarios.emptyWorld
            (postFetch Scenarios.flakyAnalyze (fun _ => true) Scenarios.emptyWorld "secret"
               Scenarios.duplicatedMailbox).1
          = [("<notice-17@iitk.ac.in>",
              {| c_category := "General"; c_summary := VStr "Unable to analyze email content.";
                 c_extractedEvents := VArr [] |});
             ("<notice-17@iitk.ac.in>",
              {| c_category := "General"; c_summary := VStr "No summary available";
                 c_extractedEvents := VArr [] |})]) by (vm_compute; reflexivity).
  split; [exact E1|]. rewrite E1, E2. cbn [writeOnce].
  split; [|split]; try (intros (_ & [H|H] & _); rewrite lookup_insert_eq in H; discriminate).
  intros (_ & H & _). cbn in H. apply (H eq_refl). by left.
Qed.

(** ** Progressive paging *)

Lemma page_numbers (b n j : nat) :
  (fun i => Some (Z.of_nat (S b + i) + 1)) <$> seq j n
  = (fun i => Some (Z.of_nat (b + i) + 1)) <$> seq (S j) n.
Proof.
  revert j. induction n as [|n IH]; intros j; cbn; [reflexivity|].
  f_equal; [do 2 f_equal; lia|apply IH].
Qed.

Section PagingFacts.
Variable analyzeEmail : nat -> string -> string -> OpenRouter.AIResponse.
Variable laterFirst : nat -> bool.

Local Arguments Nat.mul : simpl never.
Local Arguments sortEmails : simpl never.
Local Arguments sortEnriched : simpl never.

(** one page of a window of at most forty messages, four of which lie at
    [4 * b] *)
Lemma fetchProgressive_page w password (b : nat) rawEmails :
  password <> "" ->
  (length rawEmails <= 40)%nat ->
  (4 * b + 4 <= length rawEmails)%nat ->
  exists w' r,
    fetchProgressive analyzeEmail laterFirst w password (Z.of_nat b) rawEmails
      = (w', Success r)
    /\ base <$> p_emails r = sortEmails (take 4 (drop (4 * b) rawEmails))
    /\ p_count r = 4
    /\ batchNumber r = Some (Z.of_nat b + 1)
    /\ isComplete r = bool_decide (length rawEmails = 4 * b + 4)%nat
    /\ totalFetched r = Z.of_nat (4 * b + 4)
    /\ totalExpected r = Z.of_nat (length rawEmails)
    /\ (validDates rawEmails -> ascending (p_emails r)).
Proof.
  intros Hp Hcap Hb. unfold fetchProgressive.
  destruct (String.eqb_spec password ""); [done|].
  rewrite js_slice_all by (unfold TOTAL_EMAILS; lia).
  replace (Z.of_nat (length rawEmails) =? 0) with false by lia.
  replace (Z.of_nat (length rawEmails) <=? Z.of_nat b * BATCH_SIZE) with false
    by (unfold BATCH_SIZE; lia).
  replace (Z.of_nat b * BATCH_SIZE) with (Z.of_nat (4 * b)) by (unfold BATCH_SIZE; lia).
  change BATCH_SIZE with (Z.of_nat 4).
  rewrite js_slice_window by lia.
  set (batch := take 4 (drop (4 * b) rawEmails)).
  assert (Hlen : length batch = 4%nat).
  { subst batch. rewrite length_take, length_drop. lia. }
  pose proof (orchestrate_sorted analyzeEmail laterFirst w batch) as (H1 & H2 & H3).
  destruct (forBatches analyzeEmail laterFirst w batch) as [w' out]. cbn [snd] in *.
  eexists _, _. split; [reflexivity|]. cbn [p_emails p_count batchNumber isComplete
    totalFetched totalExpected].
  rewrite H2, Hlen.
  split; [exact H1|]. split; [reflexivity|]. split; [reflexivity|].
  split; [case_bool_decide; lia|]. split; [lia|]. split; [reflexivity|].
  intros Hv. apply H3. subst batch. by apply Forall_take, Forall_drop.
Qed.

(** the run from page [b] on, when [n] pages of four remain *)
Lemma paging_from (n : nat) : forall w password (b : nat) rawEmails fuel,
  password <> "" ->
  (length rawEmails <= 40)%nat ->
  (length rawEmails = 4 * (b + S n))%nat ->
  (S n <= fuel)%nat ->
  exists pages,
    paging analyzeEmail laterFirst fuel w password (Z.of_nat b) rawEmails = Success <$> pages
    /\ length pages = S n
    /\ isComplete <$> pages = replicate n false ++ [true]
    /\ batchNumber <$> pages = (fun i => Some (Z.of_nat (b + i) + 1)) <$> seq 0 (S n)
    /\ base <$> concat (p_emails <$> pages) ≡ₚ drop (4 * b) rawEmails
    /\ Forall (fun r => length (p_emails r) = 4%nat) pages
    /\ (forall i r, pages !! i = Some r ->
          base <$> p_emails r = sortEmails (take 4 (drop (4 * (b + i)) rawEmails)))
    /\ (validDates rawEmails -> Forall (fun r => ascending (p_emails r)) pages).
Proof.
  induction n as [|n IH]; intros w password b rawEmails fuel Hp Hcap Hlen Hfuel.
  - destruct fuel as [|fuel]; [lia|]. cbn [paging].
    destruct (fetchProgressive_page w password b rawEmails Hp Hcap ltac:(lia))
      as (w' & r & Hr & Hb & Hc & Hbn & Hic & _ & _ & Hs).
    rewrite Hr. rewrite Hic. rewrite bool_decide_eq_true_2 by lia.
    exists [r]. cbn. rewrite app_nil_r, Hb, Hbn, Hic.
    rewrite bool_decide_eq_true_2 by lia.
    replace (b + 0)%nat with b by lia.
    split; [done|]. split; [done|]. split; [done|]. split; [done|].
    split.
    { unfold sortEmails. rewrite sortByDate_perm. rewrite take_ge; [done|].
      rewrite length_drop. lia. }
    split.
    { repeat constructor. rewrite <- (length_fmap base), Hb.
      unfold sortEmails. rewrite sortByDate_length, length_take, length_drop. lia. }
    split.
    { intros [|i] r' Hi; [|done]. injection Hi as <-.
      by replace (b + 0)%nat with b by lia. }
    intros Hv. repeat constructor. auto.
  - destruct fuel as [|fuel]; [lia|]. cbn [paging].
    destruct (fetchProgressive_page w password b rawEmails Hp Hcap ltac:(lia))
      as (w' & r & Hr & Hb & Hc & Hbn & Hic & _ & _ & Hs).
    rewrite Hr. rewrite Hic. rewrite bool_decide_eq_false_2 by lia.
    replace (Z.of_nat b + 1) with (Z.of_nat (S b)) by lia.
    destruct (IH w' password (S b) rawEmails fuel Hp Hcap ltac:(lia) ltac:(lia))
      as (pages & Hrun & Hn & Hflags & Hnums & Hperm & Hfour & Hnth & Hsorted).
    rewrite Hrun. exists (r :: pages).
    split; [done|]. split; [cbn; lia|]. split.
    { cbn. rewrite Hic, bool_decide_eq_false_2 by lia. by rewrite Hflags. }
    split.
    { cbn [fmap list_fmap seq]. rewrite Hbn, Hnums.
      replace (b + 0)%nat with b by lia. f_equal. apply page_numbers. }
    split.
    { cbn [fmap list_fmap concat]. rewrite fmap_app, Hb, Hperm.
      unfold sortEmails. rewrite sortByDate_perm.
      replace (4 * S b)%nat with (4 * b + 4)%nat by lia.
      rewrite <- drop_drop. by rewrite take_drop. }
    split.
    { constructor; [|exact Hfour]. rewrite <- (length_fmap base), Hb.
      unfold sortEmails. rewrite sortByDate_length, length_take, length_drop. lia. }
    split.
    { intros [|i] r' Hi.
      - injection Hi as <-. by replace (b + 0)%nat with b by lia.
      - cbn in Hi. rewrite (Hnth i r' Hi). do 4 f_equal. lia. }
    intros Hv. constructor; auto.
Qed.

End PagingFacts.

(** C2. Over a mailbox window of exactly forty messages the progressive
    protocol, started at batch 0, makes exactly ten calls (batches 0 to 9):
    every call is answered with a page of four messages, the slice
    [4k, 4k+4) of the window in ascending date order, carrying batch number
    k+1; [isComplete] is false on the first nine pages and true on the
    tenth; the pages put end to end are a rearrangement of the window, so no
    message is delivered twice. *)
Theorem progressive_paging_forty
    (analyzeEmail : nat -> string -> string -> OpenRouter.AIResponse)
    (laterFirst : nat -> bool) (w : World) (password : string)
    (rawEmails : list Email) (fuel : nat) :
  password <> "" ->
  length rawEmails = 40%nat ->
  validDates rawEmails ->
  (10 <= fuel)%nat ->
  exists pages,
    paging analyzeEmail laterFirst fuel w password 0 rawEmails = Success <$> pages
    /\ length pages = 10%nat
    /\ isComplete <$> pages
       = [false; false; false; false; false; false; false; false; false; true]
    /\ batchNumber <$> pages
       = [Some 1; Some 2; Some 3; Some 4; Some 5; Some 6; Some 7; Some 8; Some 9; Some 10]
    /\ (forall k r, pages !! k = Some r ->
          length (p_emails r) = 4%nat
          /\ ascending (p_emails r)
          /\ base <$> p_emails r
             = sortEmails (js_slice (js_slice rawEmails 0 TOTAL_EMAILS)
                             (Z.of_nat k * BATCH_SIZE) (Z.of_nat k * BATCH_SIZE + BATCH_SIZE)))
    /\ base <$> concat (p_emails <$> pages) ≡ₚ rawEmails
    /\ (NoDup rawEmails -> NoDup (base <$> concat (p_emails <$> pages)))
    /\ (NoDup (id <$> rawEmails) -> NoDup (id <$> (base <$> concat (p_emails <$> pages)))).
Proof.
  intros Hp Hlen Hv Hfuel.
  destruct (paging_from analyzeEmail laterFirst 9 w password 0 rawEmails fuel Hp)
    as (pages & Hrun & Hn & Hflags & Hnums & Hperm & Hfour & Hnth & Hsorted); [lia..|].
  exists pages. rewrite drop_0 in Hperm.
  split; [exact Hrun|]. split; [exact Hn|]. split; [exact Hflags|].
  split; [exact Hnums|]. split.
  { intros k r Hk.
    assert (Hk10 : (k < 10)%nat) by (rewrite <- Hn; eapply lookup_lt_Some; eauto).
    split; [|split].
    - rewrite Forall_forall in Hfour. apply Hfour. eapply list_elem_of_lookup_2; eauto.
    - specialize (Hsorted Hv). rewrite Forall_forall in Hsorted.
      apply Hsorted. eapply list_elem_of_lookup_2; eauto.
    - rewrite (Hnth k r Hk). f_equal.
      rewrite js_slice_all by (unfold TOTAL_EMAILS; lia).
      replace (Z.of_nat k * BATCH_SIZE) with (Z.of_nat (4 * (0 + k))) by (unfold BATCH_SIZE; lia).
      change BATCH_SIZE with (Z.of_nat 4).
      rewrite js_slice_window by lia. reflexivity. }
  split; [exact Hperm|]. split.
  - intros Hnd. by rewrite Hperm.
  - intros Hnd. by rewrite Hperm.
Qed.

(** the run over forty numbered messages, from an empty cache *)
Lemma progressive_paging_forty_witness :
  exists pages,
    paging Scenarios.steadyAnalyze (fun _ => false) 12 Scenarios.emptyWorld "secret" 0
      Scenarios.fortyMessages = Success <$> pages
    /\ length pages = 10%nat
    /\ isComplete <$> pages
       = [false; false; false; false; false; false; false; false; false; true]
    /\ batchNumber <$> pages
       = [Some 1; Some 2; Some 3; Some 4; Some 5; Some 6; Some 7; Some 8; Some 9; Some 10]
    /\ (forall k r, pages !! k = Some r ->
          length (p_emails r) = 4%nat
          /\ ascending (p_emails r)
          /\ base <$> p_emails r
             = sortEmails (js_slice (js_slice Scenarios.fortyMessages 0 TOTAL_EMAILS)
                             (Z.of_nat k * BATCH_SIZE) (Z.of_nat k * BATCH_SIZE + BATCH_SIZE)))
    /\ base <$> concat (p_emails <$> pages) ≡ₚ Scenarios.fortyMessages
    /\ (NoDup Scenarios.fortyMessages -> NoDup (base <$> concat (p_emails <$> pages)))
    /\ (NoDup (id <$> Scenarios.fortyMessages) ->
        NoDup (id <$> (base <$> concat (p_emails <$> pages)))).
Proof.
  apply (progressive_paging_forty Scenarios.steadyAnalyze (fun _ => false)
           Scenarios.emptyWorld "secret" Scenarios.fortyMessages 12).
  - discriminate.
  - reflexivity.
  - exact validDates_fortyMessages.
  - lia.
Defined.

(** ** Extraction of the JSON text *)

Lemma append_cons c s t : String c s +:+ t = String c (s +:+ t).
Proof. reflexivity. Qed.

Lemma append_nil s : "" +:+ s = s.
Proof. reflexivity. Qed.

Lemma prefix_nil_r sep : sep <> "" -> String.prefix sep "" = false.
Proof. destruct sep; [done|reflexivity]. Qed.

Lemma drop_str_nil n : drop_str n "" = "".
Proof. destruct n; reflexivity. Qed.

(** passing over [k] characters is splitting what is left after them *)
Lemma split_go_skip sep s : forall k, split_go sep k s = split_go sep 0 (drop_str k s).
Proof.
  induction s as [|c s IH]; intros k.
  - by rewrite drop_str_nil.
  - destruct k as [|k]; [reflexivity|]. cbn [split_go drop_str]. apply IH.
Qed.

(** [split] in terms of the position of the first separator *)
Lemma split_go_indexOf sep s :
  sep <> "" ->
  split_go sep 0 s =
    match indexOf sep s with
    | None => (s, [])
    | Some i =>
        (take_str i s,
         let '(a, l) := split_go sep 0 (drop_str (i + String.length sep) s) in a :: l)
    end.
Proof.
  intros Hsep. induction s as [|c s IH].
  - destruct sep; [done|reflexivity].
  - cbn [split_go indexOf]. destruct (String.prefix sep (String c s)) eqn:E.
    + cbn [take_str]. f_equal. rewrite split_go_skip.
      destruct sep as [|c0 sep]; [done|]. reflexivity.
    + rewrite IH. destruct (indexOf sep s) as [i|]; cbn; reflexivity.
Qed.

Lemma split_head s sep :
  sep <> "" -> at_index (split s sep) 0 = VStr (OpenRouter.upTo sep s).
Proof.
  intros Hsep. unfold split, OpenRouter.upTo. rewrite (split_go_indexOf sep s Hsep).
  destruct (indexOf sep s) as [i|].
  - destruct (split_go sep 0 _). reflexivity.
  - reflexivity.
Qed.

Lemma split_second s sep :
  sep <> "" ->
  at_index (split s sep) 1 =
    match OpenRouter.afterFirst sep s with
    | Some rest => VStr (OpenRouter.upTo sep rest)
    | None => VUndefined
    end.
Proof.
  intros Hsep. unfold split, OpenRouter.afterFirst. rewrite (split_go_indexOf sep s Hsep).
  destruct (indexOf sep s) as [i|]; [|reflexivity].
  pose proof (split_head (drop_str (i + String.length sep) s) sep Hsep) as H.
  unfold split in H. destruct (split_go sep 0 _) as [a l]. exact H.
Qed.

Lemma includes_afterFirst s sep :
  includes s sep = match OpenRouter.afterFirst sep s with Some _ => true | None => false end.
Proof.
  unfold includes, OpenRouter.afterFirst. destruct (indexOf sep s); reflexivity.
Qed.

Lemma prefix_take sep : forall n s,
  String.prefix sep (take_str n s) = true -> String.prefix sep s = true.
Proof.
  induction sep as [|a sep IH]; intros n s H; [by destruct s|].
  destruct s as [|b s]; [by destruct n|].
  destruct n as [|n]; [discriminate|].
  cbn in *. destruct (ascii_dec a b); [eauto|discriminate].
Qed.

(** the text before the first separator holds no separator *)
Lemma indexOf_take sep s : forall j,
  sep <> "" -> indexOf sep s = Some j -> indexOf sep (take_str j s) = None.
Proof.
  induction s as [|c s IH]; intros j Hsep E.
  - destruct sep; [done|discriminate].
  - cbn [indexOf] in E. destruct (String.prefix sep (String c s)) eqn:P.
    + injection E as <-. destruct sep; [done|reflexivity].
    + destruct (indexOf sep s) as [j'|] eqn:Ej; [|discriminate]. injection E as <-.
      cbn [take_str indexOf].
      destruct (String.prefix sep (String c (take_str j' s))) eqn:P'.
      * apply (prefix_take sep (S j') (String c s)) in P'. congruence.
      * by rewrite (IH j' Hsep eq_refl).
Qed.

Lemma upTo_idem sep s :
  sep <> "" -> OpenRouter.upTo sep (OpenRouter.upTo sep s) = OpenRouter.upTo sep s.
Proof.
  intros Hsep. unfold OpenRouter.upTo at 2 3. destruct (indexOf sep s) as [j|] eqn:E.
  - unfold OpenRouter.upTo. by rewrite (indexOf_take sep s j Hsep E).
  - unfold OpenRouter.upTo. by rewrite E.
Qed.

(** lines 315-320 never throw, and select this text *)
Lemma stripFence_selectedText jsonText :
  OpenRouter.stripFence jsonText = Ok (OpenRouter.selectedText jsonText).
Proof.
  unfold OpenRouter.stripFence, OpenRouter.selectedText.
  rewrite !includes_afterFirst.
  destruct (OpenRouter.afterFirst "```json" jsonText) as [rest|] eqn:E1.
  - rewrite split_second, E1 by done. cbn [OpenRouter.split_of mbind Exc_bind].
    rewrite split_head by done. reflexivity.
  - destruct (OpenRouter.afterFirst "```" jsonText) as [rest|] eqn:E2; [|reflexivity].
    rewrite split_second, E2 by done. cbn [OpenRouter.split_of mbind Exc_bind].
    rewrite split_head, upTo_idem by done. reflexivity.
Qed.

Lemma extractJsonText_selectedText content :
  OpenRouter.extractJsonText content
  = Ok (OpenRouter.matchOrSelf (OpenRouter.selectedText (trim content))).
Proof.
  unfold OpenRouter.extractJsonText. by rewrite stripFence_selectedText.
Qed.

Lemma no_char_cons d c s :
  includes (String c s) (String d "") = false ->
  d <> c /\ includes s (String d "") = false.
Proof.
  unfold includes. cbn [indexOf String.prefix].
  destruct (ascii_dec d c) as [->|Hne].
  - destruct s; cbn; intros H; discriminate.
  - intros H. split; [exact Hne|].
    destruct (indexOf (String d "") s); [|reflexivity].
    apply bool_decide_eq_false in H. destruct H. by eexists.
Qed.

Lemma append_assoc (a b c : string) : (a +:+ b) +:+ c = a +:+ (b +:+ c).
Proof.
  induction a as [|x a IH]; [done|].
  change (String x ((a +:+ b) +:+ c) = String x (a +:+ (b +:+ c))). by rewrite IH.
Qed.

Lemma append_nil_r (a : string) : a +:+ "" = a.
Proof.
  induction a as [|x a IH]; [done|].
  change (String x (a +:+ "") = String x a). by rewrite IH.
Qed.

Lemma includes_false s sub : includes s sub = false <-> indexOf sub s = None.
Proof.
  unfold includes. destruct (indexOf sub s).
  - rewrite bool_decide_eq_false. split; [intros []; eauto|done].
  - rewrite bool_decide_eq_false. split; [done|]. intros _ [? ?]. done.
Qed.

Lemma no_char_nil d : includes "" (String d "") = false.
Proof. reflexivity. Qed.

Lemma no_char_intro d c s :
  d <> c -> includes s (String d "") = false -> includes (String c s) (String d "") = false.
Proof.
  intros Hne H. apply includes_false in H. apply includes_false.
  cbn [indexOf String.prefix]. destruct (ascii_dec d c); [done|]. by rewrite H.
Qed.

Lemma no_char_app d a b :
  includes a (String d "") = false -> includes b (String d "") = false ->
  includes (a +:+ b) (String d "") = false.
Proof.
  induction a as [|c a IH]; intros Ha Hb; [done|].
  apply no_char_cons in Ha as [Hne Ha]. rewrite append_cons.
  apply no_char_intro; [done|by apply IH].
Qed.

Lemma upto_last_close_none s : includes s "}" = false -> upto_last_close s = None.
Proof.
  induction s as [|c s IH]; intros H; [reflexivity|].
  apply no_char_cons in H as [Hne H]. cbn. rewrite (IH H).
  destruct (Ascii.eqb_spec c "}"); [congruence|reflexivity].
Qed.

Lemma upto_last_close_app m b :
  includes b "}" = false -> upto_last_close (m +:+ "}" +:+ b) = Some (m +:+ "}").
Proof.
  intros Hb. induction m as [|c m IH].
  - rewrite !append_nil. change ("}" +:+ b) with (String "}" b).
    cbn. by rewrite (upto_last_close_none b Hb).
  - change (String c m +:+ "}" +:+ b) with (String c (m +:+ "}" +:+ b)).
    change (String c m +:+ "}") with (String c (m +:+ "}")).
    cbn [upto_last_close]. by rewrite IH.
Qed.

Lemma match_braces_none_open s : includes s "{" = false -> match_braces s = None.
Proof.
  induction s as [|c s IH]; intros H; [reflexivity|].
  apply no_char_cons in H as [Hne H]. cbn.
  destruct (Ascii.eqb_spec c "{"); [congruence|auto].
Qed.

Lemma match_braces_none_close s : includes s "}" = false -> match_braces s = None.
Proof.
  induction s as [|c s IH]; intros H; [reflexivity|].
  apply no_char_cons in H as [Hne H]. cbn.
  rewrite (upto_last_close_none s H), (IH H). by destruct (Ascii.eqb c "{").
Qed.

Lemma match_braces_app a m b :
  includes a "{" = false -> includes b "}" = false ->
  match_braces (a +:+ "{" +:+ m +:+ "}" +:+ b) = Some ("{" +:+ m +:+ "}").
Proof.
  intros Ha Hb. induction a as [|c a IH].
  - rewrite append_nil. change ("{" +:+ m +:+ "}" +:+ b) with (String "{" (m +:+ "}" +:+ b)).
    cbn [match_braces]. rewrite Ascii.eqb_refl, (upto_last_close_app m b Hb). reflexivity.
  - apply no_char_cons in Ha as [Hne Ha].
    change (String c a +:+ "{" +:+ m +:+ "}" +:+ b)
      with (String c (a +:+ "{" +:+ m +:+ "}" +:+ b)).
    cbn [match_braces].
    destruct (Ascii.eqb_spec c "{"); [congruence|auto].
Qed.

(** the five parts of a text around a brace span, written to the right *)
Lemma span_assoc a m b :
  a +:+ "{" +:+ m +:+ "}" +:+ b = a +:+ String "{" (m +:+ String "}" b).
Proof. reflexivity. Qed.

Lemma upto_last_close_None_inv s : upto_last_close s = None -> includes s "}" = false.
Proof.
  induction s as [|c s IH]; [done|]. cbn [upto_last_close].
  destruct (upto_last_close s); [done|].
  destruct (Ascii.eqb_spec c "}"); [done|]. intros _.
  apply no_char_intro; [congruence|by apply IH].
Qed.

Lemma upto_last_close_some x y : exists r, upto_last_close (x +:+ String "}" y) = Some r.
Proof.
  induction x as [|c x [r IH]].
  - rewrite append_nil. cbn [upto_last_close]. destruct (upto_last_close y); eauto.
  - rewrite append_cons. cbn [upto_last_close]. rewrite IH. eauto.
Qed.

Lemma upto_last_close_parts s : forall r,
  upto_last_close s = Some r ->
  exists m b, s = m +:+ String "}" b /\ includes b "}" = false /\ r = m +:+ "}".
Proof.
  induction s as [|c s IH]; intros r H; [done|]. cbn [upto_last_close] in H.
  destruct (upto_last_close s) as [m0|] eqn:E.
  - injection H as <-. destruct (IH m0 eq_refl) as (m & b & -> & Hb & ->).
    by exists (String c m), b.
  - destruct (Ascii.eqb_spec c "}") as [->|]; [|done]. injection H as <-.
    exists "", s. split; [done|]. split; [by apply upto_last_close_None_inv|done].
Qed.

(** a match is a span from the first opening brace to the last closing one *)
Lemma match_braces_parts s : forall r,
  match_braces s = Some r ->
  exists a m b,
    includes a "{" = false /\ includes b "}" = false
    /\ s = a +:+ "{" +:+ m +:+ "}" +:+ b /\ r = "{" +:+ m +:+ "}".
Proof.
  induction s as [|c s IH]; intros r H; [done|]. cbn [match_braces] in H.
  destruct (Ascii.eqb_spec c "{") as [->|Hc].
  - destruct (upto_last_close s) as [m0|] eqn:E.
    + injection H as <-. destruct (upto_last_close_parts s m0 E) as (m & b & -> & Hb & ->).
      exists "", m, b. split; [done|]. split; [exact Hb|].
      by rewrite span_assoc.
    + apply upto_last_close_None_inv in E. by rewrite (match_braces_none_close s E) in H.
  - destruct (IH r H) as (a & m & b & Ha & Hb & -> & ->).
    exists (String c a), m, b. split; [apply no_char_intro; [congruence|exact Ha]|].
    split; [exact Hb|]. split; [|done]. by rewrite !span_assoc.
Qed.

(** wherever an opening brace has a closing one after it, there is a match *)
Lemma match_braces_some a : forall m b,
  exists r, match_braces (a +:+ "{" +:+ m +:+ "}" +:+ b) = Some r.
Proof.
  induction a as [|c a IH]; intros m b; rewrite span_assoc.
  - rewrite append_nil. cbn [match_braces]. rewrite Ascii.eqb_refl.
    destruct (upto_last_close_some m b) as [r ->]. eauto.
  - rewrite append_cons. cbn [match_braces]. destruct (Ascii.eqb c "{").
    + destruct (upto_last_close_some (a +:+ String "{" m) b) as [r Hr].
      rewrite append_assoc in Hr. change (String "{" m +:+ String "}" b)
        with (String "{" (m +:+ String "}" b)) in Hr. rewrite Hr. eauto.
    + rewrite <- span_assoc. apply IH.
Qed.

(** C7 (as amended). The provider text is trimmed; when it holds a
    [```json] fence the text after the first one, cut at the next [```json]
    if there is one and then at the first bare fence that remains, is
    selected and trimmed; else when it holds a bare fence the text between
    the first two fences (or up to the end), trimmed; else the text itself.
    In all three cases what is handed to [JSON.parse] is the span of the
    selected text from its first ["{"] to its LAST ["}"] when it has such a
    span, and the selected text itself when it has not, that is when no
    ["{"] of it has a ["}"] after it; every text is of one of the two kinds.
    The step never throws. *)
Theorem extraction_selects_outer_braces (content : string) :
  OpenRouter.extractJsonText content
    = Ok (OpenRouter.matchOrSelf (OpenRouter.selectedText (trim content)))
  /\ (forall a m b,
        includes a "{" = false -> includes b "}" = false ->
        OpenRouter.matchOrSelf (a +:+ "{" +:+ m +:+ "}" +:+ b) = "{" +:+ m +:+ "}")
  /\ (forall s, includes s "{" = false \/ includes s "}" = false ->
        OpenRouter.matchOrSelf s = s)
  /\ (forall m, OpenRouter.matchOrSelf ("{" +:+ m +:+ "}") = "{" +:+ m +:+ "}")
  /\ (forall s, (forall a m b, s <> a +:+ "{" +:+ m +:+ "}" +:+ b) ->
        OpenRouter.matchOrSelf s = s)
  /\ (forall s,
        (exists a m b, includes a "{" = false /\ includes b "}" = false
                       /\ s = a +:+ "{" +:+ m +:+ "}" +:+ b)
        \/ (forall a m b, s <> a +:+ "{" +:+ m +:+ "}" +:+ b)).
Proof.
  split; [apply extractJsonText_selectedText|]. split; [|split; [|split; [|split]]];
    [| | |intros s Hno; unfold OpenRouter.matchOrSelf;
          destruct (match_braces s) as [r|] eqn:E; [|done];
          destruct (match_braces_parts s r E) as (a & m & b & _ & _ & Hs & _);
          by destruct (Hno a m b)
     |intros s; destruct (match_braces s) as [r|] eqn:E;
          [left; destruct (match_braces_parts s r E) as (a & m & b & Ha & Hb & Hs & _);
           by exists a, m, b
          |right; intros a m b Hs; destruct (match_braces_some a m b) as [r Hr];
           rewrite <- Hs in Hr; congruence]].
  - intros a m b Ha Hb. unfold OpenRouter.matchOrSelf.
    by rewrite (match_braces_app a m b Ha Hb).
  - intros s [H|H]; unfold OpenRouter.matchOrSelf.
    + by rewrite (match_braces_none_open s H).
    + by rewrite (match_braces_none_close s H).
  - intros m. unfold OpenRouter.matchOrSelf.
    pose proof (match_braces_app "" m "" eq_refl eq_refl) as H.
    rewrite append_nil in H.
    replace ("{" +:+ m +:+ "}" +:+ "") with ("{" +:+ m +:+ "}") in H; [by rewrite H|].
    clear H. induction m as [|c m IH]; [reflexivity|].
    change ("{" +:+ String c m +:+ "}") with (String "{" (String c (m +:+ "}"))).
    change ("{" +:+ String c m +:+ "}" +:+ "") with (String "{" (String c (m +:+ "}" +:+ ""))).
    change ("{" +:+ m +:+ "}") with (String "{" (m +:+ "}")) in IH.
    change ("{" +:+ m +:+ "}" +:+ "") with (String "{" (m +:+ "}" +:+ "")) in IH.
    congruence.
Qed.

(** C7 (as stated) fails. A fenced block with prose around the object: the
    stated policy parses the block's contents, the code parses only the
    braces inside it. Text with two objects and no fence: the stated policy
    takes the first top-level span, the code takes everything from the first
    opening brace to the last closing brace. *)
Lemma extraction_differs_from_stated_policy :
  OpenRouter.extractJsonText Scenarios.fencedProse = Ok "{}"
  /\ OpenRouter.extract_spec Scenarios.fencedProse = "Result: {} done"
  /\ OpenRouter.extractJsonText Scenarios.twoObjects = Ok (Scenarios.urgentText +:+ " or {}")
  /\ OpenRouter.extract_spec Scenarios.twoObjects = Scenarios.urgentText
  /\ OpenRouter.extractJsonText Scenarios.fencedProse
     <> Ok (OpenRouter.extract_spec Scenarios.fencedProse)
  /\ OpenRouter.extractJsonText Scenarios.twoObjects
     <> Ok (OpenRouter.extract_spec Scenarios.twoObjects).
Proof.
  repeat split; try (vm_compute; reflexivity); vm_compute; discriminate.
Qed.

(** on a fenced block that holds just the object the two agree *)
Example extraction_of_fenced_object :
  OpenRouter.extractJsonText Scenarios.fencedObject = Ok Scenarios.urgentText
  /\ OpenRouter.extract_spec Scenarios.fencedObject = Scenarios.urgentText.
Proof. split; vm_compute; reflexivity. Qed.

(** a provider answer whose category is "Urgent", end to end *)
Example analyzeEmail_urgent_is_general :
  OpenRouter.analyzeEmail (Some "sk-or-key") Scenarios.parseExamples "Categorize:"
    (fun _ => Scenarios.chatCompletion Scenarios.fencedObject) "Quiz" "Quiz on Friday"
  = {| OpenRouter.category := "General";
       OpenRouter.summary := VStr "No summary available";
       OpenRouter.events := VArr [] |}.
Proof. vm_compute. reflexivity. Qed.

(** the summary and the events of the provider are passed on as they are *)
Example analyzeEmail_passes_values_through :
  OpenRouter.analyzeEmail (Some "sk-or-key")
    (fun _ => Some (VObj [("category", VStr "Event"); ("summary", VNum 5);
                          ("events", VStr "none")]))
    "Categorize:" (fun _ => Scenarios.chatCompletion "{}") "Quiz" "Quiz on Friday"
  = {| OpenRouter.category := "Event";
       OpenRouter.summary := VNum 5;
       OpenRouter.events := VStr "none" |}.
Proof. vm_compute. reflexivity. Qed.

(** * Further properties of the pipeline *)

(** ** The batch loop and the memo cache *)

Lemma applyWrites_snoc m ws k v :
  applyWrites m (ws ++ [(k, v)]) = <[k := v]> (applyWrites m ws).
Proof. unfold applyWrites. by rewrite foldl_app. Qed.

Lemma applyWrites_is_Some (ws : list (string * CacheEntry)) : forall m k,
  is_Some (m !! k) \/ k ∈ ws.*1 -> is_Some (applyWrites m ws !! k).
Proof.
  induction ws as [|[k' v'] ws IH]; intros m k H.
  - destruct H as [H|H]; [exact H|]. by apply elem_of_nil in H.
  - cbn. apply IH. destruct H as [H|H].
    + left. destruct (decide (k' = k)) as [->|Hne].
      * rewrite lookup_insert_eq. by eexists.
      * by rewrite lookup_insert_ne.
    + cbn in H. apply elem_of_cons in H as [->|H]; [|by right].
      left. rewrite lookup_insert_eq. by eexists.
Qed.

(** distinct keys: each write is what the cache holds afterwards *)
Lemma applyWrites_lookup (ws : list (string * CacheEntry)) : forall m k v,
  NoDup ws.*1 -> (k, v) ∈ ws -> applyWrites m ws !! k = Some v.
Proof.
  induction ws as [|[k' v'] ws IH] using rev_ind; intros m k v Hnd Hin.
  - by apply elem_of_nil in Hin.
  - rewrite applyWrites_snoc. rewrite fmap_app in Hnd. cbn in Hnd.
    apply NoDup_app in Hnd as (Hnd & Hdis & _).
    apply elem_of_app in Hin as [Hin|Hin].
    + rewrite lookup_insert_ne; [by apply IH|].
      intros ->. apply (Hdis k); [|by left].
      apply list_elem_of_fmap. by exists (k, v).
    + apply list_elem_of_singleton in Hin. injection Hin as -> ->.
      apply lookup_insert_eq.
Qed.

Lemma applyWrites_other (ws : list (string * CacheEntry)) : forall m k,
  k ∉ ws.*1 -> applyWrites m ws !! k = m !! k.
Proof.
  induction ws as [|[k' v'] ws IH]; intros m k H; [reflexivity|].
  cbn in *. apply not_elem_of_cons in H as [Hne H].
  rewrite IH by done. by rewrite lookup_insert_ne.
Qed.

Section LoopFacts.
Variable analyzeEmail : nat -> string -> string -> OpenRouter.AIResponse.
Variable laterFirst : nat -> bool.

(** what a group's launch yields, member by member *)
Lemma launchAll_spec m batch : forall n,
  let '(rs, ws, n') := launchAll analyzeEmail m n batch in
  n' = (n + length ws)%nat
  /\ (length ws <= length batch)%nat
  /\ Forall (fun kv => m !! kv.1 = None) ws
  /\ Forall (fun r => m !! id (base r) = Some (Enrichment.shown r)
                      \/ (id (base r), Enrichment.shown r) ∈ ws) rs
  /\ ((forall e, e ∈ batch -> is_Some (m !! id e)) -> ws = []).
Proof.
  induction batch as [|e rest IH]; intros n; cbn [launchAll].
  - split; [cbn; lia|]. split; [done|]. split; [constructor|]. split; [constructor|done].
  - unfold launch. destruct (m !! id e) as [c|] eqn:E.
    + specialize (IH n). destruct (launchAll analyzeEmail m n rest) as [[rs ws] n2].
      destruct IH as (H1 & H2 & H3 & H4 & H5). cbn.
      split; [exact H1|]. split; [lia|]. split; [exact H3|]. split.
      * constructor; [|exact H4]. left. cbn. rewrite E. by destruct c.
      * intros Hall. apply H5. intros e' He'. apply Hall. by right.
    + specialize (IH (S n)). destruct (launchAll analyzeEmail m (S n) rest) as [[rs ws] n2].
      destruct IH as (H1 & H2 & H3 & H4 & H5). cbn.
      split; [lia|]. split; [lia|]. split; [by constructor|]. split.
      * constructor; [right; by left|].
        eapply Forall_impl; [exact H4|]. intros r [Hr|Hr]; [by left|right; by right].
      * intros Hall. destruct (Hall e) as [c Hc]; [by left|]. congruence.
Qed.

(** the effect of one group on the shared state *)
Lemma processGroup_log w batch :
  let '(w', rs) := processGroup analyzeEmail laterFirst w batch in
  exists log,
    writes w' = writes w ++ log
    /\ cache w' = applyWrites (cache w) log
    /\ calls w' = (calls w + length log)%nat
    /\ (length log <= length batch)%nat
    /\ ((forall e, e ∈ batch -> is_Some (cache w !! id e)) -> log = [])
    /\ (forall e, e ∈ batch -> is_Some (cache w' !! id e))
    /\ (NoDup (id <$> batch) \/ (forall e, e ∈ batch -> is_Some (cache w !! id e)) ->
        Forall (fun r => cache w' !! id (base r) = Some (Enrichment.shown r)) rs).
Proof.
  unfold processGroup.
  pose proof (launchAll_spec (cache w) batch (calls w)) as Hspec.
  pose proof (launchAll_writes analyzeEmail (cache w) (calls w) batch) as [_ Hsub].
  pose proof (launchAll_base analyzeEmail (cache w) (calls w) batch) as Hbase.
  destruct (launchAll analyzeEmail (cache w) (calls w) batch) as [[rs ws] n].
  cbn [fst snd] in *. destruct Hspec as (H1 & H2 & H3 & H4 & H5).
  set (done := if laterFirst (groups w) then rev ws else ws).
  assert (Hperm : done ≡ₚ ws).
  { subst done. destruct (laterFirst (groups w)); [by rewrite <- Permutation_rev|done]. }
  exists done. cbn [writes cache calls].
  split; [done|]. split; [done|]. split; [by rewrite Hperm|]. split; [by rewrite Hperm|].
  split.
  { intros Hall. rewrite (H5 Hall) in Hperm. by apply Permutation_nil_r in Hperm. }
  assert (Hin : forall r, r ∈ rs ->
            cache w !! id (base r) = Some (Enrichment.shown r)
            \/ (id (base r), Enrichment.shown r) ∈ done).
  { rewrite Forall_forall in H4. intros r Hr. destruct (H4 r Hr) as [H|H]; [by left|].
    right. by rewrite Hperm. }
  split.
  - intros e He. rewrite <- Hbase in He. apply list_elem_of_fmap in He as (r & -> & Hr).
    apply applyWrites_is_Some. destruct (Hin r Hr) as [H|H].
    + left. rewrite H. by eexists.
    + right. apply list_elem_of_fmap. by exists (id (base r), Enrichment.shown r).
  - intros Hnd. apply Forall_forall. intros r Hr.
    assert (Hnd' : NoDup done.*1).
    { rewrite Hperm. destruct Hnd as [Hnd|Hall].
      - eapply sublist_NoDup; [exact Hnd|exact Hsub].
      - rewrite (H5 Hall). constructor. }
    destruct (Hin r Hr) as [H|H].
    + rewrite applyWrites_other; [exact H|].
      intros Hk. apply list_elem_of_fmap in Hk as ([k v] & Hk & Hkv). cbn in Hk. subst k.
      rewrite Forall_forall in H3. rewrite Hperm in Hkv.
      specialize (H3 _ Hkv). cbn in H3. congruence.
    + by apply applyWrites_lookup.
Qed.

Lemma forBatches_log w l :
  let '(w', rs) := forBatches analyzeEmail laterFirst w l in
  exists log,
    writes w' = writes w ++ log
    /\ cache w' = applyWrites (cache w) log
    /\ calls w' = (calls w + length log)%nat
    /\ (length log <= length l)%nat
    /\ ((forall e, e ∈ l -> is_Some (cache w !! id e)) -> log = [])
    /\ (forall e, e ∈ l -> is_Some (cache w' !! id e))
    /\ (distinctGroups l \/ (forall e, e ∈ l -> is_Some (cache w !! id e)) ->
        Forall (fun r => cache w' !! id (base r) = Some (Enrichment.shown r)) rs).
Proof.
  revert w. induction l as [|a|a b l IH] using pairs_ind; intros w.
  - cbn. exists []. rewrite app_nil_r. repeat split; try done.
    intros e He. by apply elem_of_nil in He.
  - cbn [forBatches]. pose proof (processGroup_log w [a]) as H.
    destruct (processGroup analyzeEmail laterFirst w [a]) as [w' rs].
    destruct H as (log & H1 & H2 & H3 & H4 & H5 & H6 & H7).
    exists log. repeat split; try done.
    intros [_|Hall]; apply H7; [left; cbn; apply NoDup_singleton|by right].
  - cbn [forBatches]. pose proof (processGroup_log w [a; b]) as H.
    destruct (processGroup analyzeEmail laterFirst w [a; b]) as [w1 r1].
    destruct H as (log1 & H1 & H2 & H3 & H4 & H5 & H6 & H7).
    specialize (IH w1).
    pose proof (forBatches_writeOnce analyzeEmail laterFirst w1 l) as Hwo.
    destruct (forBatches analyzeEmail laterFirst w1 l) as [w2 r2].
    destruct IH as (log2 & G1 & G2 & G3 & G4 & G5 & G6 & G7).
    cbn [fst] in Hwo.
    assert (Hgrow : forall k, is_Some (cache w1 !! k) -> is_Some (cache w2 !! k)).
    { intros k Hk. rewrite G2. apply applyWrites_is_Some. by left. }
    assert (Hgrow1 : forall k, is_Some (cache w !! k) -> is_Some (cache w1 !! k)).
    { intros k Hk. rewrite H2. apply applyWrites_is_Some. by left. }
    exists (log1 ++ log2).
    split; [by rewrite G1, H1, app_assoc|].
    split; [by rewrite G2, H2, applyWrites_app|].
    split; [rewrite G3, H3, length_app; lia|].
    split; [rewrite length_app; cbn [length] in *; lia|].
    split.
    { intros Hall. rewrite H5, G5; [done| |].
      - intros e He. apply Hgrow1, Hall. by do 2 right.
      - intros e He. apply Hall. apply elem_of_cons in He as [->|He]; [by left|].
        apply list_elem_of_singleton in He as ->. right. by left. }
    split.
    { intros e He. apply elem_of_cons in He as [->|He]; [apply Hgrow, H6; by left|].
      apply elem_of_cons in He as [->|He]; [apply Hgrow, H6; right; by left|by apply G6]. }
    intros Hcase. apply Forall_app. split.
    + assert (Hr1 : Forall (fun r => cache w1 !! id (base r) = Some (Enrichment.shown r)) r1).
      { apply H7. destruct Hcase as [[Hab _]|Hall]; [left; by apply NoDup_pair|right].
        intros e He. apply Hall. apply elem_of_cons in He as [->|He]; [by left|].
        apply list_elem_of_singleton in He as ->. right. by left. }
      assert (Hkeep : forall k v, cache w1 !! k = Some v -> cache w2 !! k = Some v).
      { destruct Hcase as [[_ Hd]|Hall].
        - destruct (Hwo Hd) as (log & L1 & L2 & L3).
          intros k v Hk. rewrite L2. by apply writeOnce_preserves.
        - rewrite G2, G5; [done|]. intros e He. apply Hgrow1, Hall. by do 2 right. }
      eapply Forall_impl; [exact Hr1|]. intros r Hr. by apply Hkeep.
    + apply G7. destruct Hcase as [[_ Hd]|Hall]; [by left|right].
      intros e He. apply Hgrow1, Hall. by do 2 right.
Qed.

End LoopFacts.

Section RequestFacts.
Variable analyzeEmail : nat -> string -> string -> OpenRouter.AIResponse.
Variable laterFirst : nat -> bool.
Variable Date_parse : string -> JSDate.


(** every request enriches one list, drawn from its window, through the
    batch loop and answers with the sorted outcome *)
Lemma serve_forBatches (r : Request) :
  exists l l0,
    l ≡ₚ l0 /\ sublist l0 (window r)
    /\ forall w, serve analyzeEmail laterFirst Date_parse w r = (forBatches analyzeEmail laterFirst w l).1
                 /\ Enrichment.respond analyzeEmail laterFirst Date_parse w r = sortEnriched (forBatches analyzeEmail laterFirst w l).2.
Proof.
  destruct r as [p raw|p raw|p since known raw|p b raw];
    cbn [serve Enrichment.respond window].
  - unfold getRoot, fetchAll. destruct (String.eqb p "").
    + exists [], []. split; [done|]. split; [apply sublist_nil_l|]. by intros w.
    + exists raw, raw. split; [done|]. split; [done|]. intros w.
      destruct raw as [|e raw]; [done|].
      by destruct (forBatches analyzeEmail laterFirst w (e :: raw)).
  - unfold postFetch, fetchAll. destruct (String.eqb p "").
    + exists [], []. split; [done|]. split; [apply sublist_nil_l|]. by intros w.
    + exists raw, raw. split; [done|]. split; [done|]. intros w.
      destruct raw as [|e raw]; [done|].
      by destruct (forBatches analyzeEmail laterFirst w (e :: raw)).
  - unfold fetchNew. destruct (String.eqb p "").
    + exists [], []. split; [done|]. split; [apply sublist_nil_l|]. by intros w.
    + exists (sortEmails (selectNew Date_parse known since raw)),
             (selectNew Date_parse known since raw).
      split; [apply sortByDate_perm|]. split; [apply selectNew_sublist|]. intros w.
      by destruct (forBatches analyzeEmail laterFirst w _).
  - unfold fetchProgressive. destruct (String.eqb p "").
    + exists [], []. split; [done|]. split; [apply sublist_nil_l|]. by intros w.
    + set (limited := js_slice raw 0 TOTAL_EMAILS).
      destruct (Z.of_nat (length limited) =? 0).
      { exists [], []. split; [done|]. split; [apply sublist_nil_l|]. by intros w. }
      destruct (Z.of_nat (length limited) <=? b * BATCH_SIZE).
      { exists [], []. split; [done|]. split; [apply sublist_nil_l|]. by intros w. }
      exists (js_slice limited (b * BATCH_SIZE) (b * BATCH_SIZE + BATCH_SIZE)),
             (js_slice limited (b * BATCH_SIZE) (b * BATCH_SIZE + BATCH_SIZE)).
      split; [done|]. split; [subst limited; etrans; apply js_slice_sublist|]. intros w.
      by destruct (forBatches analyzeEmail laterFirst w _).
Qed.

End RequestFacts.

Lemma perm_sublist_length {A} (l l0 k : list A) :
  l ≡ₚ l0 -> sublist l0 k -> (length l <= length k)%nat.
Proof. intros -> H. by apply sublist_length. Qed.

Lemma perm_sublist_NoDup_ids (l l0 k : list Email) :
  l ≡ₚ l0 -> sublist l0 k -> NoDup (id <$> k) -> NoDup (id <$> l).
Proof. intros -> Hs Hk. by eapply NoDup_ids_sublist. Qed.

(** X1. A request served a second time (same window, same parameters) makes
    no call to [analyzeEmail] and leaves the memo cache as it is: every
    identity it enriches was cached by the first pass, whatever the
    provider answered then. *)
Theorem repeated_request_makes_no_call
    (analyzeEmail : nat -> string -> string -> OpenRouter.AIResponse)
    (laterFirst : nat -> bool) (Date_parse : string -> JSDate)
    (w : World) (r : Request) :
  let w1 := serve analyzeEmail laterFirst Date_parse w r in
  let w2 := serve analyzeEmail laterFirst Date_parse w1 r in
  calls w2 = calls w1
  /\ writes w2 = writes w1
  /\ cache w2 = cache w1
  /\ Forall (fun e => cache w1 !! id (base e) = Some (Enrichment.shown e))
       (Enrichment.respond analyzeEmail laterFirst Date_parse w1 r).
Proof.
  cbn zeta.
  destruct (serve_forBatches analyzeEmail laterFirst Date_parse r) as (l & l0 & _ & _ & Hs).
  destruct (Hs w) as [-> _]. destruct (Hs (forBatches analyzeEmail laterFirst w l).1) as [-> ->].
  pose proof (forBatches_log analyzeEmail laterFirst w l) as H1.
  destruct (forBatches analyzeEmail laterFirst w l) as [w1 r1].
  destruct H1 as (log1 & _ & _ & _ & _ & _ & Hall & _).
  pose proof (forBatches_log analyzeEmail laterFirst w1 l) as H2.
  cbn [fst]. destruct (forBatches analyzeEmail laterFirst w1 l) as [w2 r2].
  destruct H2 as (log2 & G1 & G2 & G3 & _ & G5 & _ & G7).
  rewrite (G5 Hall) in *. cbn [fst snd]. rewrite app_nil_r in G1. cbn in G2, G3.
  split; [lia|]. split; [done|]. split; [done|].
  unfold sortEnriched. rewrite sortByDate_perm. rewrite <- G2. apply G7. by right.
Qed.

(** X2. Every request issues at most one [analyzeEmail] call per retrieved
    message and performs exactly one cache write per call: the call counter
    advances by the number of writes performed, which is at most the size of
    the window, and the cache afterwards is the cache before with those
    writes applied. *)
Theorem calls_and_writes_advance_together
    (analyzeEmail : nat -> string -> string -> OpenRouter.AIResponse)
    (laterFirst : nat -> bool) (Date_parse : string -> JSDate)
    (w : World) (r : Request) :
  let w' := serve analyzeEmail laterFirst Date_parse w r in
  calls w' = (calls w + length (newWrites w w'))%nat
  /\ (length (newWrites w w') <= length (window r))%nat
  /\ writes w' = writes w ++ newWrites w w'
  /\ cache w' = applyWrites (cache w) (newWrites w w').
Proof.
  cbn zeta.
  destruct (serve_forBatches analyzeEmail laterFirst Date_parse r) as (l & l0 & Hp & Hsub & Hs).
  destruct (Hs w) as [-> _].
  pose proof (forBatches_log analyzeEmail laterFirst w l) as H1.
  destruct (forBatches analyzeEmail laterFirst w l) as [w1 r1].
  destruct H1 as (log & G1 & G2 & G3 & G4 & _). cbn [fst].
  unfold newWrites. rewrite G1, drop_app_length.
  split; [done|]. split; [|done].
  pose proof (perm_sublist_length _ _ _ Hp Hsub). lia.
Qed.

(** X3. When the identities of the retrieved window are pairwise distinct,
    what a request answers is what the memo cache holds afterwards: every
    answered message carries exactly the category, summary and events cached
    under its identity. *)
Theorem answer_matches_cache
    (analyzeEmail : nat -> string -> string -> OpenRouter.AIResponse)
    (laterFirst : nat -> bool) (Date_parse : string -> JSDate)
    (w : World) (r : Request) :
  NoDup (id <$> window r) ->
  Forall (fun e => cache (serve analyzeEmail laterFirst Date_parse w r) !! id (base e)
                   = Some (Enrichment.shown e))
    (Enrichment.respond analyzeEmail laterFirst Date_parse w r).
Proof.
  intros Hnd.
  destruct (serve_forBatches analyzeEmail laterFirst Date_parse r) as (l & l0 & Hp & Hsub & Hs).
  destruct (Hs w) as [-> ->].
  pose proof (forBatches_log analyzeEmail laterFirst w l) as H1.
  destruct (forBatches analyzeEmail laterFirst w l) as [w1 r1].
  destruct H1 as (log & _ & _ & _ & _ & _ & _ & G7). cbn [fst snd].
  unfold sortEnriched. rewrite sortByDate_perm. apply G7. left.
  apply NoDup_distinctGroups. by eapply perm_sublist_NoDup_ids.
Qed.

(** a window of forty distinct identities, served page by page *)
Lemma answer_matches_cache_witness :
  Forall (fun e => cache (serve Scenarios.flakyAnalyze (fun _ => true) Scenarios.noDateParse
                            Scenarios.emptyWorld
                            (PostFetchProgressive "secret" 2 Scenarios.fortyMessages))
                     !! id (base e) = Some (Enrichment.shown e))
    (Enrichment.respond Scenarios.flakyAnalyze (fun _ => true) Scenarios.noDateParse
       Scenarios.emptyWorld (PostFetchProgressive "secret" 2 Scenarios.fortyMessages)).
Proof.
  apply (answer_matches_cache Scenarios.flakyAnalyze (fun _ => true) Scenarios.noDateParse
           Scenarios.emptyWorld (PostFetchProgressive "secret" 2 Scenarios.fortyMessages)).
  exact NoDup_ids_fortyMessages.
Defined.

(** ** Progressive paging over any window *)

Lemma js_slice_take_drop {A} (l : list A) (i m : nat) :
  js_slice l (Z.of_nat i) (Z.of_nat i + Z.of_nat m) = take m (drop i l).
Proof.
  unfold js_slice. cbv zeta.
  replace (Z.of_nat i <? 0) with false by lia.
  replace (Z.of_nat i + Z.of_nat m <? 0) with false by lia.
  destruct (decide (i <= length l)%nat) as [Hi|Hi].
  - rewrite (Z.min_l (Z.of_nat i)) by lia. rewrite Nat2Z.id.
    destruct (decide (i + m <= length l)%nat) as [Hm|Hm].
    + rewrite Z.min_l by lia. f_equal. lia.
    + rewrite Z.min_r by lia.
      rewrite !take_ge; [done| |]; rewrite length_drop; lia.
  - rewrite !Z.min_r by lia. rewrite Z.sub_diag, Nat2Z.id. cbn.
    rewrite (drop_ge l i) by lia. by destruct m.
Qed.

Lemma js_slice_cap {A} (l : list A) : js_slice l 0 TOTAL_EMAILS = take 40 l.
Proof. apply (js_slice_take_drop l 0 40). Qed.

Lemma js_slice_length_le {A} (l : list A) (s : Z) :
  (length (js_slice l s (s + BATCH_SIZE)) <= 4)%nat.
Proof.
  unfold js_slice, BATCH_SIZE. cbv zeta. rewrite length_take.
  destruct (s <? 0) eqn:E1, (s + 4 <? 0) eqn:E2; lia.
Qed.

Section AnyWindow.
Variable analyzeEmail : nat -> string -> string -> OpenRouter.AIResponse.
Variable laterFirst : nat -> bool.

Local Arguments Nat.mul : simpl never.
Local Arguments sortEmails : simpl never.
Local Arguments sortEnriched : simpl never.

(** the page at [b] when the capped window reaches beyond [4 * b] *)
Lemma fetchProgressive_any_page w password (b : nat) rawEmails :
  password <> "" ->
  (4 * b < length (take 40 rawEmails))%nat ->
  exists w' r,
    fetchProgressive analyzeEmail laterFirst w password (Z.of_nat b) rawEmails
      = (w', Success r)
    /\ base <$> p_emails r = sortEmails (take 4 (drop (4 * b) (take 40 rawEmails)))
    /\ batchNumber r = Some (Z.of_nat b + 1)
    /\ isComplete r = bool_decide (length (take 40 rawEmails) <= 4 * b + 4)%nat.
Proof.
  intros Hp Hb. unfold fetchProgressive.
  destruct (String.eqb_spec password ""); [done|].
  rewrite js_slice_cap. set (limited := take 40 rawEmails) in *.
  replace (Z.of_nat (length limited) =? 0) with false by lia.
  replace (Z.of_nat (length limited) <=? Z.of_nat b * BATCH_SIZE) with false
    by (unfold BATCH_SIZE; lia).
  replace (Z.of_nat b * BATCH_SIZE) with (Z.of_nat (4 * b)) by (unfold BATCH_SIZE; lia).
  change BATCH_SIZE with (Z.of_nat 4). rewrite js_slice_take_drop.
  set (batch := take 4 (drop (4 * b) limited)).
  assert (Hlen : length batch = Nat.min 4 (length limited - 4 * b)).
  { subst batch. by rewrite length_take, length_drop. }
  pose proof (orchestrate_sorted analyzeEmail laterFirst w batch) as (H1 & H2 & _).
  destruct (forBatches analyzeEmail laterFirst w batch) as [w' out]. cbn [snd] in *.
  eexists _, _. split; [reflexivity|]. cbn [p_emails batchNumber isComplete].
  split; [exact H1|]. split; [reflexivity|].
  rewrite Hlen. case_bool_decide; lia.
Qed.

(** the run from page [b] on, when [k + 1] pages remain *)
Lemma paging_any_from (k : nat) : forall w password (b : nat) rawEmails fuel,
  password <> "" ->
  (4 * (b + k) < length (take 40 rawEmails) <= 4 * (b + S k))%nat ->
  (S k <= fuel)%nat ->
  exists pages,
    paging analyzeEmail laterFirst fuel w password (Z.of_nat b) rawEmails = Success <$> pages
    /\ length pages = S k
    /\ isComplete <$> pages = replicate k false ++ [true]
    /\ base <$> concat (p_emails <$> pages) ≡ₚ drop (4 * b) (take 40 rawEmails)
    /\ Forall (fun r => 1 <= length (p_emails r) <= 4)%nat pages.
Proof.
  induction k as [|k IH]; intros w password b rawEmails fuel Hp Hlen Hfuel;
    (destruct fuel as [|fuel]; [lia|]); cbn [paging];
    destruct (fetchProgressive_any_page w password b rawEmails Hp ltac:(lia))
      as (w' & r & Hr & Hb & Hbn & Hic);
    rewrite Hr, Hic.
  - rewrite bool_decide_eq_true_2 by lia. exists [r]. cbn. rewrite app_nil_r, Hb, Hic.
    rewrite bool_decide_eq_true_2 by lia.
    split; [done|]. split; [done|]. split; [done|]. split.
    { unfold sortEmails. rewrite sortByDate_perm. rewrite take_ge; [done|].
      rewrite length_drop. lia. }
    constructor; [|constructor].
    rewrite <- (length_fmap base), Hb. unfold sortEmails.
    rewrite sortByDate_length, length_take, length_drop. lia.
  - rewrite bool_decide_eq_false_2 by lia.
    replace (Z.of_nat b + 1) with (Z.of_nat (S b)) by lia.
    destruct (IH w' password (S b) rawEmails fuel Hp ltac:(lia) ltac:(lia))
      as (pages & Hrun & Hn & Hflags & Hperm & Hsize).
    rewrite Hrun. exists (r :: pages).
    split; [done|]. split; [cbn; lia|]. split.
    { cbn. rewrite Hic, bool_decide_eq_false_2 by lia. by rewrite Hflags. }
    split.
    { cbn [fmap list_fmap concat]. rewrite fmap_app, Hb, Hperm.
      unfold sortEmails. rewrite sortByDate_perm.
      replace (4 * S b)%nat with (4 * b + 4)%nat by lia.
      rewrite <- drop_drop. by rewrite take_drop. }
    constructor; [|exact Hsize]. rewrite <- (length_fmap base), Hb. unfold sortEmails.
    rewrite sortByDate_length, length_take, length_drop. lia.
Qed.

End AnyWindow.

(** X4. Progressive paging over a window of any size: started at batch 0 it
    stops after ceil(n/4) calls, n being the size of the window capped at
    forty (after one call when the window is empty); only the last answer
    says [isComplete]; every page but that of an empty window holds between
    one and four messages; and the pages put end to end are a rearrangement
    of the first forty messages of the window. *)
Theorem progressive_paging_any_window
    (analyzeEmail : nat -> string -> string -> OpenRouter.AIResponse)
    (laterFirst : nat -> bool) (w : World) (password : string)
    (rawEmails : list Email) (fuel : nat) :
  password <> "" ->
  let n := Nat.min (length rawEmails) 40 in
  let k := Nat.max 1 ((n + 3) / 4) in
  (k <= fuel)%nat ->
  exists pages,
    paging analyzeEmail laterFirst fuel w password 0 rawEmails = Success <$> pages
    /\ length pages = k
    /\ (k <= 10)%nat
    /\ isComplete <$> pages = replicate (k - 1) false ++ [true]
    /\ base <$> concat (p_emails <$> pages) ≡ₚ take 40 rawEmails
    /\ Forall (fun r => length (p_emails r) <= 4)%nat pages
    /\ (rawEmails <> [] -> Forall (fun r => p_emails r <> []) pages).
Proof.
  intros Hp n k Hfuel.
  assert (Hn : length (take 40 rawEmails) = n) by (subst n; rewrite length_take; lia).
  assert (Hk10 : (k <= 10)%nat).
  { assert (Hq : ((n + 3) / 4 < 11)%nat)
      by (apply Nat.Div0.div_lt_upper_bound; subst n; lia).
    subst k. lia. }
  destruct (decide (n = 0%nat)) as [Hz|Hz].
  - assert (Hk : k = 1%nat) by (subst k; rewrite Hz; reflexivity).
    assert (Hraw : rawEmails = []) by (destruct rawEmails; [done|cbn in *; lia]).
    subst rawEmails. rewrite Hk in *. destruct fuel as [|fuel]; [lia|].
    cbn [paging]. unfold fetchProgressive.
    destruct (String.eqb_spec password ""); [done|].
    eexists [_]. cbn. split; [reflexivity|]. repeat split; try done; try lia.
    repeat constructor.
  - assert (Hk : exists j, k = S j /\ (4 * j < n <= 4 * S j)%nat).
    { exists (k - 1)%nat. subst k.
      pose proof (Nat.div_mod_eq (n + 3) 4).
      pose proof (Nat.mod_upper_bound (n + 3) 4). lia. }
    destruct Hk as (j & Hkj & Hj).
    destruct (paging_any_from analyzeEmail laterFirst j w password 0 rawEmails fuel Hp)
      as (pages & Hrun & Hlen & Hflags & Hperm & Hsize); [rewrite Hn; lia|lia|].
    exists pages. rewrite drop_0 in Hperm. rewrite Hkj.
    replace (S j - 1)%nat with j by lia.
    split; [exact Hrun|]. split; [exact Hlen|]. split; [lia|]. split; [exact Hflags|].
    split; [exact Hperm|]. split.
    + eapply Forall_impl; [exact Hsize|]. intros r Hr. cbn in Hr. lia.
    + intros _. eapply Forall_impl; [exact Hsize|]. intros r Hr Hnil.
      cbv beta in Hr. rewrite Hnil in Hr. cbn in Hr. lia.
Qed.

(** forty-two retrieved messages are paged as their first forty *)
Lemma progressive_paging_any_window_witness :
  exists pages,
    paging Scenarios.flakyAnalyze (fun _ => true) 10 Scenarios.emptyWorld "secret" 0
      (Scenarios.fortyMessages ++ Scenarios.duplicatedMailbox) = Success <$> pages
    /\ length pages = 10%nat
    /\ (10 <= 10)%nat
    /\ isComplete <$> pages = replicate 9 false ++ [true]
    /\ base <$> concat (p_emails <$> pages)
       ≡ₚ take 40 (Scenarios.fortyMessages ++ Scenarios.duplicatedMailbox)
    /\ Forall (fun r => length (p_emails r) <= 4)%nat pages
    /\ (Scenarios.fortyMessages ++ Scenarios.duplicatedMailbox <> [] ->
        Forall (fun r => p_emails r <> []) pages).
Proof.
  apply (progressive_paging_any_window Scenarios.flakyAnalyze (fun _ => true)
           Scenarios.emptyWorld "secret"
           (Scenarios.fortyMessages ++ Scenarios.duplicatedMailbox) 10).
  - discriminate.
  - cbn. lia.
Defined.

(** length of a batch cut at a valid start index *)
Lemma js_slice_batch_length {A} (l : list A) (s : Z) :
  0 <= s ->
  Z.of_nat (length (js_slice l s (s + BATCH_SIZE)))
  = Z.max 0 (Z.min 4 (Z.of_nat (length l) - s)).
Proof.
  intros Hs. unfold js_slice, BATCH_SIZE. cbv zeta.
  rewrite length_take, length_drop.
  replace (s <? 0) with false by lia. replace (s + 4 <? 0) with false by lia. lia.
Qed.

Lemma js_slice_negative_batch {A} (l : list A) (s : Z) :
  s < 0 ->
  s + Z.of_nat (length (js_slice l s (s + BATCH_SIZE))) <= 0.
Proof.
  intros Hs. unfold js_slice, BATCH_SIZE. cbv zeta.
  rewrite length_take, length_drop.
  replace (s <? 0) with true by lia.
  destruct (s + 4 <? 0) eqn:E; lia.
Qed.

(** X5. One call of POST /fetch-progressive, for any batch number (also a
    negative one, or one past the end): the call is refused exactly when no
    password is given, and then nothing changes; otherwise the page holds at
    most four messages, all from the first forty of the window, [count] is
    their number, [totalExpected] is the size of the capped window, at most
    one provider call per message of the page is made, and [isComplete] holds
    exactly when the window is empty or the batch number is non-negative and
    its batch reaches the end of the capped window. *)
Theorem progressive_page_bounds
    (analyzeEmail : nat -> string -> string -> OpenRouter.AIResponse)
    (laterFirst : nat -> bool) (w : World) (password : string)
    (batchNo : Z) (rawEmails : list Email) :
  let n := Z.of_nat (Nat.min (length rawEmails) 40) in
  match fetchProgressive analyzeEmail laterFirst w password batchNo rawEmails with
  | (w', BadRequest _) => password = "" /\ w' = w
  | (w', Success r) =>
      password <> ""
      /\ (length (p_emails r) <= 4)%nat
      /\ p_count r = Z.of_nat (length (p_emails r))
      /\ (forall e, e ∈ p_emails r -> base e ∈ take 40 rawEmails)
      /\ totalExpected r = n
      /\ (calls w' <= calls w + length (p_emails r))%nat
      /\ (isComplete r = true <-> n = 0 \/ (0 <= batchNo /\ n <= batchNo * 4 + 4))
      /\ (n <= batchNo * 4 -> p_emails r = [] /\ w' = w)
  end.
Proof.
  intros n. unfold fetchProgressive.
  destruct (String.eqb_spec password "") as [Hp|Hp]; [done|].
  rewrite js_slice_cap. set (limited := take 40 rawEmails).
  assert (Hn : Z.of_nat (length limited) = n).
  { subst limited n. rewrite length_take. lia. }
  rewrite Hn. destruct (Z.eqb_spec n 0) as [Hz|Hz].
  { cbn. rewrite Hz. repeat split; try done; try lia.
    all: try (intros e He; by apply elem_of_nil in He).
    all: try (intros _; by left). }
  destruct (Z.leb_spec n (batchNo * BATCH_SIZE)) as [Hle|Hlt].
  { cbn. unfold BATCH_SIZE in Hle. repeat split; try done; try lia.
    all: try (intros e He; by apply elem_of_nil in He).
    all: try (intros _; right; lia). }
  set (batch := js_slice limited (batchNo * BATCH_SIZE) (batchNo * BATCH_SIZE + BATCH_SIZE)).
  pose proof (js_slice_length_le limited (batchNo * BATCH_SIZE)) as Hb4. fold batch in Hb4.
  pose proof (orchestrate_sorted analyzeEmail laterFirst w batch) as (H1 & H2 & _).
  pose proof (forBatches_log analyzeEmail laterFirst w batch) as Hlog.
  destruct (forBatches analyzeEmail laterFirst w batch) as [w' out]. cbn [snd] in *.
  destruct Hlog as (log & _ & _ & Hcalls & Hlen & _).
  cbn [p_emails p_count totalExpected isComplete].
  split; [done|]. split; [lia|]. split; [done|]. split.
  { intros e He. apply (elem_of_sublist batch); [|apply js_slice_sublist].
    assert (Hin : base e ∈ base <$> sortEnriched out) by (apply list_elem_of_fmap; eauto).
    change (base <$> sortEnriched out) with (map base (sortEnriched out)) in Hin.
    rewrite H1 in Hin. unfold sortEmails in Hin. by rewrite sortByDate_perm in Hin. }
  split; [done|]. split; [lia|]. split; [|unfold BATCH_SIZE in Hlt; lia].
  destruct (Z.ltb_spec batchNo 0) as [Hneg|Hpos].
  - pose proof (js_slice_negative_batch limited (batchNo * BATCH_SIZE)
                  ltac:(unfold BATCH_SIZE; lia)) as Hnb.
    fold batch in Hnb. split; [lia|]. intros [?|[? _]]; lia.
  - pose proof (js_slice_batch_length limited (batchNo * BATCH_SIZE)
                  ltac:(unfold BATCH_SIZE; lia)) as Hbl.
    fold batch in Hbl. unfold BATCH_SIZE in *. split; [lia|]. intros [?|[_ ?]]; lia.
Qed.

(** ** The delta refresh *)

Lemma sorted_last_bounds {A} (R : A -> A -> Prop) (l : list A) (x : A) :
  StronglySorted R l -> Forall (fun y => R y y) l -> last l = Some x ->
  Forall (fun y => R y x) l.
Proof.
  induction 1 as [|a l Hs IH Ha]; intros Hrefl Hlast; [constructor|].
  apply Forall_cons in Hrefl as [Haa Hrefl].
  destruct l as [|b l].
  - cbn in Hlast. injection Hlast as <-. by repeat constructor.
  - change (last (a :: b :: l)) with (last (b :: l)) in Hlast.
    constructor; [|by apply IH].
    rewrite Forall_forall in Ha. apply Ha.
    apply last_Some in Hlast as [l' Hl']. rewrite Hl'. set_solver.
Qed.

(** X6. The refresh watermark of POST /fetch-new. When messages are
    answered, [newestDate] is the date of one of them and no answered message
    is later; when none is answered the request's [sinceDate] is handed back
    unchanged. Without known identities, a non-empty [sinceDate] keeps
    exactly the messages strictly later than it (none at all if it does not
    parse), and a missing or empty [sinceDate] keeps the whole window. *)
Theorem fetchNew_watermark
    (analyzeEmail : nat -> string -> string -> OpenRouter.AIResponse)
    (laterFirst : nat -> bool) (Date_parse : string -> JSDate)
    (w : World) (password : string) (sinceDate : option string)
    (knownEmailIds : list string) (rawEmails : list Email) :
  password <> "" ->
  validDates rawEmails ->
  exists r,
    (fetchNew analyzeEmail laterFirst Date_parse w password sinceDate knownEmailIds rawEmails).2
      = Success r
    /\ match newestDate r with
       | NewestOf d =>
           (exists e, e ∈ d_emails r /\ date (base e) = d)
           /\ (forall e, e ∈ d_emails r -> notLater (date (base e)) d)
       | SinceEcho o => o = sinceDate /\ d_emails r = []
       end
    /\ (knownEmailIds = [] ->
        match sinceDate with
        | Some s =>
            if String.eqb s "" then base <$> d_emails r ≡ₚ rawEmails
            else base <$> d_emails r
                 ≡ₚ filter (fun e => laterThan (date e) (Date_parse s)) rawEmails
                 /\ (Date_parse s = InvalidDate -> d_emails r = [])
        | None => base <$> d_emails r ≡ₚ rawEmails
        end).
Proof.
  intros Hp Hv.
  destruct (fetchNew_Success analyzeEmail laterFirst Date_parse w password sinceDate
              knownEmailIds rawEmails Hp) as (r & Hr & Hbase & _ & Hasc).
  specialize (Hasc Hv). exists r. split; [exact Hr|].
  assert (Hperm : base <$> d_emails r ≡ₚ selectNew Date_parse knownEmailIds sinceDate rawEmails).
  { change (base <$> d_emails r) with (map base (d_emails r)). rewrite Hbase.
    unfold sortEmails. by rewrite !sortByDate_perm. }
  assert (Hnew : newestDate r = match last (d_emails r) with
                                | Some e => NewestOf (date (base e))
                                | None => SinceEcho sinceDate
                                end).
  { revert Hr. unfold fetchNew. destruct (String.eqb_spec password ""); [done|].
    destruct (forBatches analyzeEmail laterFirst w _) as [w' out]. cbn [snd].
    by intros [= <-]. }
  split.
  - rewrite Hnew. destruct (last (d_emails r)) as [e|] eqn:Hlast.
    + split.
      * exists e. split; [|done]. apply last_Some in Hlast as [l' ->]. set_solver.
      * intros e' He'.
        assert (Hall : Forall (fun y => notLater (date (base y)) (date (base e))) (d_emails r)).
        { apply (sorted_last_bounds _ _ _ Hasc); [|exact Hlast].
          apply Forall_forall. intros y Hy.
          assert (Hin : base y ∈ rawEmails).
          { apply (elem_of_sublist (selectNew Date_parse knownEmailIds sinceDate rawEmails));
              [|apply selectNew_sublist].
            rewrite <- Hperm. apply list_elem_of_fmap. eauto. }
          unfold validDates in Hv. rewrite Forall_forall in Hv.
          destruct (Hv _ Hin) as [t Ht]. unfold notLater. rewrite Ht. lia. }
        rewrite Forall_forall in Hall. by apply Hall.
    + split; [done|]. by apply last_None in Hlast.
  - intros ->. unfold selectNew in Hperm. destruct sinceDate as [s|]; [|exact Hperm].
    destruct (String.eqb s ""); [exact Hperm|]. split; [exact Hperm|].
    intros Hinv. rewrite Hinv in Hperm.
    assert (Hnil : filter (fun e : Email => laterThan (date e) InvalidDate) rawEmails = []).
    { clear. induction rawEmails as [|e l IH]; [done|].
      rewrite filter_cons. destruct (decide _) as [H|H]; [|exact IH].
      exfalso. revert H. unfold laterThan. cbn. by destruct (getTime (date e)). }
    rewrite Hnil in Hperm. apply Permutation_nil_r in Hperm.
    by apply fmap_nil_inv in Hperm.
Qed.

(** a refresh since the instant of message 20 answers the twenty later ones *)
Lemma fetchNew_watermark_witness :
  exists r,
    (fetchNew Scenarios.flakyAnalyze (fun _ => true) Samples.midwayParse
       Scenarios.emptyWorld "secret" (Some "2023-11-14T22:13:00.000Z") []
       Scenarios.fortyMessages).2 = Success r
    /\ match newestDate r with
       | NewestOf d =>
           (exists e, e ∈ d_emails r /\ date (base e) = d)
           /\ (forall e, e ∈ d_emails r -> notLater (date (base e)) d)
       | SinceEcho o => o = Some "2023-11-14T22:13:00.000Z" /\ d_emails r = []
       end
    /\ (@nil string = [] ->
        base <$> d_emails r
        ≡ₚ filter (fun e => laterThan (date e)
                              (Samples.midwayParse "2023-11-14T22:13:00.000Z"))
             Scenarios.fortyMessages
        /\ (Samples.midwayParse "2023-11-14T22:13:00.000Z" = InvalidDate -> d_emails r = [])).
Proof.
  apply (fetchNew_watermark Scenarios.flakyAnalyze (fun _ => true) Samples.midwayParse
           Scenarios.emptyWorld "secret" (Some "2023-11-14T22:13:00.000Z") []
           Scenarios.fortyMessages).
  - discriminate.
  - exact validDates_fortyMessages.
Defined.

(** ** The mailbox session *)








(** X8. The sequence numbers handed to the fetch: the last forty of the
    search result, newest first (all of them, reversed, when there are at
    most forty); never more than forty, each one taken from the search
    result, and without repetition when the search result has none. *)
Theorem last40Results_newest_first (results : list Z) :
  last40Results results = rev (drop (length results - 40) results)
  /\ length (last40Results results) = Nat.min (length results) 40
  /\ (forall k, (k < Nat.min (length results) 40)%nat ->
        last40Results results !! k = results !! (length results - 1 - k)%nat)
  /\ (NoDup results -> NoDup (last40Results results)).
Proof.
  assert (E : last40Results results = rev (drop (length results - 40) results)).
  { unfold last40Results. apply firstn_rev. }
  split; [exact E|]. split.
  { rewrite E, length_rev, length_drop. lia. }
  split.
  { intros k Hk. rewrite E.
    replace (rev (drop (length results - 40) results))
      with (reverse (drop (length results - 40) results))
      by (unfold reverse; by rewrite <- rev_alt).
    rewrite reverse_lookup.
    - rewrite lookup_drop, length_drop. f_equal. lia.
    - rewrite length_drop. lia. }
  intros Hn. rewrite E. apply NoDup_ListNoDup, NoDup_rev, NoDup_ListNoDup.
  eapply sublist_NoDup; [exact Hn|apply sublist_drop].
Qed.

(** ** The enrichment client: what reaches the provider *)

Lemma length_append (a b : string) :
  String.length (a +:+ b) = (String.length a + String.length b)%nat.
Proof. induction a as [|c a IH]; [done|]. cbn. by rewrite <- IH. Qed.

Lemma take_str_length n : forall s,
  String.length (take_str n s) = Nat.min n (String.length s).
Proof.
  induction n as [|n IH]; intros [|c s]; cbn; try done. by rewrite IH.
Qed.

Lemma truncate_length n marker s :
  String.length (OpenRouter.truncate n marker s)
  = if (n <? String.length s)%nat then (n + String.length marker)%nat else String.length s.
Proof.
  unfold OpenRouter.truncate. destruct (n <? String.length s)%nat eqn:E; [|done].
  unfold substring0. rewrite length_append, take_str_length. lia.
Qed.

Lemma truncate_agree n marker a b :
  (n < String.length a)%nat -> (n < String.length b)%nat ->
  substring0 n a = substring0 n b ->
  OpenRouter.truncate n marker a = OpenRouter.truncate n marker b.
Proof.
  intros Ha Hb E. unfold OpenRouter.truncate.
  replace (n <? String.length a)%nat with true by lia.
  replace (n <? String.length b)%nat with true by lia. by rewrite E.
Qed.

Lemma long_nonempty n s : (n < String.length s)%nat -> String.eqb s "" = false.
Proof. destruct s; cbn; [lia|done]. Qed.

(** X9. The enrichment request reads a message only through the first 200
    characters of its subject and the first 4000 of its body: two messages
    that are longer than that and agree on those prefixes are sent as the
    same prompt and receive the same analysis; and whatever the message, the
    prompt is at most 4257 characters longer than the fixed instructions. *)
Theorem analyzeEmail_reads_truncated_input
    (API_KEY : option string) (JSON_parse : string -> option JSValue)
    (categorizationPrompt : string) (provider : string -> OpenRouter.FetchOutcome)
    (subject1 subject2 body1 body2 : string) :
  (200 < String.length subject1)%nat -> (200 < String.length subject2)%nat ->
  substring0 200 subject1 = substring0 200 subject2 ->
  (4000 < String.length body1)%nat -> (4000 < String.length body2)%nat ->
  substring0 4000 body1 = substring0 4000 body2 ->
  OpenRouter.fullPrompt categorizationPrompt subject1 body1
    = OpenRouter.fullPrompt categorizationPrompt subject2 body2
  /\ OpenRouter.analyzeEmail API_KEY JSON_parse categorizationPrompt provider subject1 body1
     = OpenRouter.analyzeEmail API_KEY JSON_parse categorizationPrompt provider subject2 body2
  /\ String.length (OpenRouter.fullPrompt categorizationPrompt subject1 body1)
     = (String.length categorizationPrompt + 4257)%nat
  /\ (forall subject body,
        String.length (OpenRouter.fullPrompt categorizationPrompt subject body)
        <= String.length categorizationPrompt + 4257)%nat.
Proof.
  intros Hs1 Hs2 Es Hb1 Hb2 Eb.
  assert (Hlen : forall subject body,
            String.length (OpenRouter.fullPrompt categorizationPrompt subject body)
            = (String.length categorizationPrompt + 26
               + String.length (OpenRouter.truncate 200 "..." subject)
               + String.length (OpenRouter.truncate 4000
                                  (OpenRouter.nl +:+ "[... content truncated ...]") body))%nat).
  { intros subject body. unfold OpenRouter.fullPrompt. cbv zeta.
    rewrite !length_append. cbn [String.length OpenRouter.nl]. lia. }
  assert (Hp : OpenRouter.fullPrompt categorizationPrompt subject1 body1
               = OpenRouter.fullPrompt categorizationPrompt subject2 body2).
  { unfold OpenRouter.fullPrompt. cbv zeta.
    by rewrite (truncate_agree 200 _ subject1 subject2),
               (truncate_agree 4000 _ body1 body2). }
  split; [exact Hp|]. split.
  { unfold OpenRouter.analyzeEmail, OpenRouter.analyzeEmail_try.
    rewrite (long_nonempty 200 subject1), (long_nonempty 200 subject2) by done.
    cbn [andb]. by rewrite Hp. }
  split.
  { rewrite Hlen, !truncate_length.
    replace (200 <? String.length subject1)%nat with true by lia.
    replace (4000 <? String.length body1)%nat with true by lia.
    rewrite length_append. cbn [String.length OpenRouter.nl]. lia. }
  intros subject body. rewrite Hlen, !truncate_length.
  rewrite length_append. cbn [String.length OpenRouter.nl].
  destruct (200 <? String.length subject)%nat eqn:E1,
           (4000 <? String.length body)%nat eqn:E2; lia.
Qed.

Lemma analyzeEmail_reads_truncated_input_witness :
  OpenRouter.fullPrompt "Categorize:" Samples.longSubjectA Samples.longBodyA
    = OpenRouter.fullPrompt "Categorize:" Samples.longSubjectB Samples.longBodyB
  /\ OpenRouter.analyzeEmail (Some "sk-or-key") Scenarios.parseExamples "Categorize:"
       Samples.pickyProvider Samples.longSubjectA Samples.longBodyA
     = OpenRouter.analyzeEmail (Some "sk-or-key") Scenarios.parseExamples "Categorize:"
         Samples.pickyProvider Samples.longSubjectB Samples.longBodyB
  /\ String.length (OpenRouter.fullPrompt "Categorize:" Samples.longSubjectA Samples.longBodyA)
     = (String.length "Categorize:" + 4257)%nat
  /\ (forall subject body,
        String.length (OpenRouter.fullPrompt "Categorize:" subject body)
        <= String.length "Categorize:" + 4257)%nat.
Proof.
  apply (analyzeEmail_reads_truncated_input (Some "sk-or-key") Scenarios.parseExamples
           "Categorize:" Samples.pickyProvider
           Samples.longSubjectA Samples.longSubjectB Samples.longBodyA Samples.longBodyB).
  - apply Nat.ltb_lt. vm_compute. reflexivity.
  - apply Nat.ltb_lt. vm_compute. reflexivity.
  - vm_compute. reflexivity.
  - apply Nat.ltb_lt. vm_compute. reflexivity.
  - apply Nat.ltb_lt. vm_compute. reflexivity.
  - vm_compute. reflexivity.
Defined.

(** ** The reply generator *)

Lemma trimStart_head s :
  trimStart s = "" \/ exists c t, trimStart s = String c t /\ is_ws c = false.
Proof.
  induction s as [|c s IH]; [by left|]. cbn [trimStart].
  destruct (is_ws c) eqn:E; [exact IH|]. right. eauto.
Qed.

Lemma trimEnd_head c s : is_ws c = false -> exists t, trimEnd (String c s) = String c t.
Proof. intros E. cbn [trimEnd]. rewrite E. destruct (trimEnd s); eauto. Qed.

Lemma trimEnd_idem s : trimEnd (trimEnd s) = trimEnd s.
Proof.
  induction s as [|c s IH]; [done|]. cbn [trimEnd].
  destruct (trimEnd s) as [|d t] eqn:E.
  - destruct (is_ws c) eqn:Ec; [done|]. cbn [trimEnd]. by rewrite Ec.
  - cbn [trimEnd]. cbn [trimEnd] in IH. by rewrite IH.
Qed.

Lemma trim_idem s : trim (trim s) = trim s.
Proof.
  unfold trim. destruct (trimStart_head s) as [->|(c & t & -> & Hc)]; [done|].
  destruct (trimEnd_head c t Hc) as [t' E]. rewrite E.
  cbn [trimStart]. rewrite Hc. rewrite <- E. apply trimEnd_idem.
Qed.

Lemma contentOf_not_blank data s :
  OpenRouter.contentOf data = Ok s -> trim s <> "".
Proof.
  unfold OpenRouter.contentOf. intros H.
  repeat match type of H with
         | (mbind _ ?m) = Ok _ =>
             let E := fresh "E" in
             destruct m eqn:E; cbn [mbind Exc_bind] in H; [|discriminate]
         end.
  revert H. destruct (get_opt _ "content") as [| | | |c| |]; cbn; try done;
    try (by destruct b).
  - destruct (n =? 0); done.
  - unfold throwIf. destruct (String.eqb c "" || _) eqn:Eb; cbn; [done|].
    intros [= <-]. apply orb_false_iff in Eb as [_ Eb].
    intros Ht. rewrite Ht in Eb. done.
Qed.

Section ReplyFacts.
Variable API_KEY : option string.
Variable replyPrompt : string -> string -> string -> string.
Variable refinePrompt : string -> string -> string -> string -> string -> string.
Variable provider : string -> OpenRouter.FetchOutcome.

Lemma generateEmailReply_Ok_inv originalSubject originalBody userPrompt rr cd r :
  OpenRouter.generateEmailReply API_KEY replyPrompt refinePrompt provider
    originalSubject originalBody userPrompt rr cd = Ok r ->
  exists content,
    trim content <> ""
    /\ r = {| OpenRouter.reply_subject := OpenRouter.replySubject originalSubject;
              OpenRouter.reply_body :=
                if includes (trim content) "```" then trim (strip_fences (trim content))
                else trim content |}.
Proof.
  unfold OpenRouter.generateEmailReply. intros H.
  apply bind_Ok_inv in H as (k & _ & H).
  apply bind_Ok_inv in H as (response & _ & H).
  apply bind_Ok_inv in H as (u & _ & H).
  apply bind_Ok_inv in H as (data & _ & H).
  apply bind_Ok_inv in H as (content & Hc & H).
  exists content. split; [by eapply contentOf_not_blank|].
  by injection H as <-.
Qed.

End ReplyFacts.

(** the payload from which [contentOf] returns, the other way round *)
Lemma contentOf_Ok_intro data err choices len first content :
  get data "error" = Ok err -> truthy err = false ->
  get data "choices" = Ok choices -> truthy choices = true ->
  get choices "length" = Ok len -> is_zero len = false ->
  get0 choices = Ok first ->
  get_opt (get_opt first "message") "content" = VStr content ->
  trim content <> "" ->
  OpenRouter.contentOf data = Ok content.
Proof.
  intros H1 H2 H3 H4 H5 H6 H7 H8 H9. unfold OpenRouter.contentOf.
  rewrite (bind_Ok _ _ _ H1), H2. rewrite (bind_Ok _ _ tt eq_refl).
  rewrite (bind_Ok _ _ _ H3), H4. rewrite (bind_Ok _ _ _ H5), H6.
  cbn [negb orb throwIf]. rewrite (bind_Ok _ _ tt eq_refl).
  rewrite (bind_Ok _ _ _ H7). cbv zeta. rewrite H8.
  assert (Hne : (String.eqb content "" || (String.length (trim content) =? 0)%nat) = false).
  { apply orb_false_iff. split.
    - destruct (String.eqb_spec content "") as [->|]; [by destruct H9|done].
    - destruct (trim content); [done|reflexivity]. }
  rewrite Hne. reflexivity.
Qed.

(** X10. [generateEmailReply] returns a reply exactly when an API key is
    set, the provider resolves the request for the prompt with a success
    status and a decodable body that carries no truthy [error], has
    [choices] that are not empty, and whose first choice holds a string
    content that is not blank. The reply is then fixed by that content: its
    subject is the original one under [Re:], and its body is the content
    trimmed (with the fenced spans removed and trimmed again when the
    trimmed content shows a code fence), which is not empty when there is
    no fence; the body has no blank at either end. *)
Theorem generateEmailReply_result
    (API_KEY : option string)
    (replyPrompt : string -> string -> string -> string)
    (refinePrompt : string -> string -> string -> string -> string -> string)
    (provider : string -> OpenRouter.FetchOutcome)
    (originalSubject originalBody userPrompt : string)
    (refinementRequest currentDraft : option string) (r : OpenRouter.Reply) :
  let truncatedOriginal :=
    OpenRouter.truncate 2000 (OpenRouter.nl +:+ "[... content truncated ...]") originalBody in
  let prompt :=
    match refinementRequest with
    | Some request =>
        if String.eqb request ""
        then replyPrompt originalSubject truncatedOriginal userPrompt
        else refinePrompt originalSubject truncatedOriginal userPrompt
               (match currentDraft with Some d => d | None => "" end) request
    | None => replyPrompt originalSubject truncatedOriginal userPrompt
    end in
  (OpenRouter.generateEmailReply API_KEY replyPrompt refinePrompt provider
     originalSubject originalBody userPrompt refinementRequest currentDraft = Ok r
   <->
   exists key response data err choices len first content,
     API_KEY = Some key /\ key <> ""
     /\ provider prompt = OpenRouter.FetchResolves response
     /\ OpenRouter.ok response = true
     /\ OpenRouter.json response = Ok data
     /\ get data "error" = Ok err /\ truthy err = false
     /\ get data "choices" = Ok choices /\ truthy choices = true
     /\ get choices "length" = Ok len /\ is_zero len = false
     /\ get0 choices = Ok first
     /\ get_opt (get_opt first "message") "content" = VStr content
     /\ trim content <> ""
     /\ r = {| OpenRouter.reply_subject := OpenRouter.replySubject originalSubject;
               OpenRouter.reply_body :=
                 if includes (trim content) "```"
                 then trim (strip_fences (trim content))
                 else trim content |})
  /\ (OpenRouter.generateEmailReply API_KEY replyPrompt refinePrompt provider
        originalSubject originalBody userPrompt refinementRequest currentDraft = Ok r ->
      startsWith (OpenRouter.reply_subject r) "Re:" = true
      /\ (OpenRouter.reply_subject r = originalSubject
          \/ OpenRouter.reply_subject r = "Re: " +:+ originalSubject)
      /\ trim (OpenRouter.reply_body r) = OpenRouter.reply_body r).
Proof.
  cbv zeta. split; [split|].
  - unfold OpenRouter.generateEmailReply. cbv zeta. intros H.
    apply bind_Ok_inv in H as (key & Hk & H).
    apply bind_Ok_inv in H as (response & Hr & H).
    apply bind_Ok_inv in H as ([] & Hst & H).
    apply bind_Ok_inv in H as (data & Hd & H).
    apply bind_Ok_inv in H as (content & Hc & H).
    destruct (contentOf_Ok_inv data content Hc)
      as (err & choices & len & first & H1 & H2 & H3 & H4 & H5 & H6 & H7 & H8 & H9).
    exists key, response, data, err, choices, len, first, content.
    split.
    { unfold OpenRouter.requireKey in Hk. destruct API_KEY as [k|]; [|done].
      destruct (String.eqb k ""); [done|]. by injection Hk as ->. }
    split.
    { unfold OpenRouter.requireKey in Hk. destruct API_KEY as [k|]; [|done].
      destruct (String.eqb_spec k ""); [done|]. by injection Hk as <-. }
    split.
    { unfold OpenRouter.awaitFetch in Hr. destruct (provider _); [done|]. by injection Hr as ->. }
    split.
    { destruct (OpenRouter.ok response); [done|].
      apply bind_Ok_inv in Hst as (t & _ & Hst). discriminate. }
    do 10 (split; [done|]). by injection H as <-.
  - intros (key & response & data & err & choices & len & first & content
            & -> & Hkey & Hp & Hok & Hj & H1 & H2 & H3 & H4 & H5 & H6 & H7 & H8 & H9 & ->).
    unfold OpenRouter.generateEmailReply. cbv zeta.
    assert (Hk : OpenRouter.requireKey (Some key) = Ok key).
    { unfold OpenRouter.requireKey. by destruct (String.eqb_spec key ""). }
    rewrite (bind_Ok _ _ _ Hk), Hp. cbn [OpenRouter.awaitFetch].
    rewrite (bind_Ok _ _ _ eq_refl), Hok, (bind_Ok _ _ tt eq_refl).
    rewrite (bind_Ok _ _ _ Hj).
    by rewrite (bind_Ok _ _ _ (contentOf_Ok_intro _ _ _ _ _ _ H1 H2 H3 H4 H5 H6 H7 H8 H9)).
  - intros H.
    destruct (generateEmailReply_Ok_inv _ _ _ _ _ _ _ _ _ _ H) as (content & Hne & ->).
    cbn [OpenRouter.reply_subject OpenRouter.reply_body].
    split; [apply replySubject_startsWith|]. split.
    { unfold OpenRouter.replySubject. destruct (startsWith originalSubject "Re:"); auto. }
    destruct (includes (trim content) "```"); apply trim_idem.
Qed.

(** a provider answer with blanks around the text, end to end *)
Example generateEmailReply_trims_padding :
  OpenRouter.generateEmailReply (Some "sk-or-key") Samples.replyWording
    Samples.refineWording Samples.paddedProvider
    "Meeting" "Shall we meet at 4 PM?" "Say yes" None None
  = Ok {| OpenRouter.reply_subject := "Re: Meeting";
          OpenRouter.reply_body := "Thanks, I will attend." |}.
Proof. vm_compute. reflexivity. Qed.

(** X11. The reply request reads the original message only through its
    first 2000 characters, and reads the current draft only when a non-empty
    refinement is asked for: two original bodies longer than that which
    agree on the prefix give the same outcome, and without a refinement (or
    with an empty one) the draft does not matter. *)
Theorem generateEmailReply_reads_truncated_body
    (API_KEY : option string)
    (replyPrompt : string -> string -> string -> string)
    (refinePrompt : string -> string -> string -> string -> string -> string)
    (provider : string -> OpenRouter.FetchOutcome)
    (originalSubject body1 body2 userPrompt : string)
    (refinementRequest currentDraft : option string) :
  (2000 < String.length body1)%nat -> (2000 < String.length body2)%nat ->
  substring0 2000 body1 = substring0 2000 body2 ->
  OpenRouter.generateEmailReply API_KEY replyPrompt refinePrompt provider
    originalSubject body1 userPrompt refinementRequest currentDraft
  = OpenRouter.generateEmailReply API_KEY replyPrompt refinePrompt provider
      originalSubject body2 userPrompt refinementRequest currentDraft
  /\ (forall draft1 draft2,
        OpenRouter.generateEmailReply API_KEY replyPrompt refinePrompt provider
          originalSubject body1 userPrompt None draft1
        = OpenRouter.generateEmailReply API_KEY replyPrompt refinePrompt provider
            originalSubject body2 userPrompt (Some "") draft2).
Proof.
  intros H1 H2 E. unfold OpenRouter.generateEmailReply. cbv zeta.
  rewrite (truncate_agree 2000 _ body1 body2 H1 H2 E). split; [done|].
  intros draft1 draft2. reflexivity.
Qed.

Lemma generateEmailReply_reads_truncated_body_witness :
  OpenRouter.generateEmailReply (Some "sk-or-key") Samples.replyWording
    Samples.refineWording Samples.pickyProvider
    "Meeting" Samples.longOriginalA "Say yes" (Some "shorter") (Some "Yes.")
  = OpenRouter.generateEmailReply (Some "sk-or-key") Samples.replyWording
      Samples.refineWording Samples.pickyProvider
      "Meeting" Samples.longOriginalB "Say yes" (Some "shorter") (Some "Yes.")
  /\ (forall draft1 draft2,
        OpenRouter.generateEmailReply (Some "sk-or-key") Samples.replyWording
          Samples.refineWording Samples.pickyProvider
          "Meeting" Samples.longOriginalA "Say yes" None draft1
        = OpenRouter.generateEmailReply (Some "sk-or-key") Samples.replyWording
            Samples.refineWording Samples.pickyProvider
            "Meeting" Samples.longOriginalB "Say yes" (Some "") draft2).
Proof.
  apply (generateEmailReply_reads_truncated_body (Some "sk-or-key") Samples.replyWording
           Samples.refineWording Samples.pickyProvider
           "Meeting" Samples.longOriginalA Samples.longOriginalB "Say yes"
           (Some "shorter") (Some "Yes.")).
  - apply Nat.ltb_lt. vm_compute. reflexivity.
  - apply Nat.ltb_lt. vm_compute. reflexivity.
  - vm_compute. reflexivity.
Defined.

(** ** Account names *)

Lemma take_drop_str n : forall s, take_str n s +:+ drop_str n s = s.
Proof.
  induction n as [|n IH]; intros [|c s]; try done.
  cbn [take_str drop_str]. rewrite append_cons. by rewrite IH.
Qed.

Lemma take_str_app (a b : string) : take_str (String.length a) (a +:+ b) = a.
Proof.
  induction a as [|x a IH]; [by destruct b|].
  rewrite append_cons. cbn [String.length take_str]. by rewrite IH.
Qed.

Lemma drop_str_app (a b : string) : drop_str (String.length a) (a +:+ b) = b.
Proof. induction a as [|x a IH]; [done|]. exact IH. Qed.

Lemma prefix_drop sep : forall s,
  String.prefix sep s = true -> s = sep +:+ drop_str (String.length sep) s.
Proof.
  induction sep as [|c sep IH]; intros s H; [done|].
  destruct s as [|d s]; [discriminate|]. cbn in H.
  destruct (ascii_dec c d) as [->|]; [|discriminate].
  cbn [String.length drop_str]. rewrite append_cons. f_equal. by apply IH.
Qed.

(** the text around the first occurrence of a separator *)
Lemma indexOf_Some_parts sep : forall s i,
  indexOf sep s = Some i ->
  s = take_str i s +:+ (sep +:+ drop_str (i + String.length sep) s).
Proof.
  induction s as [|c s IH]; intros i H.
  - change (indexOf sep "") with (if String.prefix sep "" then Some 0%nat else None) in H.
    destruct (String.prefix sep "") eqn:E; [|discriminate].
    injection H as <-. by apply prefix_drop.
  - cbn [indexOf] in H. destruct (String.prefix sep (String c s)) eqn:E.
    + injection H as <-. by apply prefix_drop.
    + destruct (indexOf sep s) as [j|] eqn:Ej; [|discriminate]. injection H as <-.
      cbn [take_str drop_str Nat.add]. change (String c ?a +:+ ?b) with (String c (a +:+ b)).
      f_equal. by apply IH.
Qed.

(** a one-character separator is first found where it is first written *)
Lemma indexOf_char_app c (a b : string) :
  indexOf (String c "") a = None ->
  indexOf (String c "") (a +:+ String c b) = Some (String.length a).
Proof.
  induction a as [|x a IH]; intros H.
  - change ("" +:+ String c b) with (String c b). cbn [indexOf String.prefix String.length].
    destruct (ascii_dec c c); [|done]. by destruct b.
  - cbn [indexOf] in H. destruct (String.prefix (String c "") (String x a)) eqn:E; [discriminate|].
    destruct (indexOf (String c "") a) eqn:Ea; [discriminate|].
    change (String x a +:+ String c b) with (String x (a +:+ String c b)).
    cbn [indexOf String.length].
    replace (String.prefix (String c "") (String x (a +:+ String c b))) with false.
    + by rewrite IH.
    + cbn in *. destruct (ascii_dec c x); [|done]. by destruct a.
Qed.

Lemma username_upTo email : Account.username email = OpenRouter.upTo "@" email.
Proof.
  unfold Account.username. destruct (includes email "@") eqn:E.
  - pose proof (split_head email "@" ltac:(done)) as H.
    unfold split in *. destruct (split_go "@" 0 email) as [a l]. cbn in *. by injection H.
  - apply includes_false in E. unfold OpenRouter.upTo. by rewrite E.
Qed.

Lemma upTo_free sep s : sep <> "" -> includes (OpenRouter.upTo sep s) sep = false.
Proof.
  intros Hsep. apply includes_false. unfold OpenRouter.upTo.
  destruct (indexOf sep s) as [j|] eqn:E; [|exact E]. by apply indexOf_take.
Qed.

Lemma username_normalizeEmail email :
  Account.username (Account.normalizeEmail email) = Account.username email.
Proof.
  unfold Account.normalizeEmail. destruct (includes email "@") eqn:E; [done|].
  rewrite !username_upTo. apply includes_false in E. unfold OpenRouter.upTo. rewrite E.
  change (email +:+ "@iitk.ac.in") with (email +:+ String "@" "iitk.ac.in").
  rewrite (indexOf_char_app "@" email "iitk.ac.in" E). apply take_str_app.
Qed.

(** X12. The user name presented to the mail servers: it never holds an
    [@]; the address is the user name followed by nothing or by a text that
    starts with [@]; computing it twice changes nothing; and an address
    completed by the login with [@iitk.ac.in] has the user name it was
    completed from. *)
Theorem username_is_local_part (email : string) :
  includes (Account.username email) "@" = false
  /\ (exists rest, email = Account.username email +:+ rest
                   /\ (rest = "" \/ startsWith rest "@" = true))
  /\ Account.username (Account.username email) = Account.username email
  /\ Account.username (Account.normalizeEmail email) = Account.username email
  /\ (includes email "@" = false ->
      Account.username (email +:+ "@iitk.ac.in") = email).
Proof.
  split; [rewrite username_upTo; by apply upTo_free|]. split.
  { rewrite username_upTo. unfold OpenRouter.upTo.
    destruct (indexOf "@" email) as [i|] eqn:E.
    - exists ("@" +:+ drop_str (i + String.length "@") email). split.
      + by apply indexOf_Some_parts.
      + right. unfold startsWith. cbn. by destruct (drop_str _ _).
    - exists "". split; [by rewrite append_nil_r|by left]. }
  split.
  { rewrite !username_upTo. by apply upTo_idem. }
  split; [apply username_normalizeEmail|].
  intros E. pose proof (username_normalizeEmail email) as H.
  unfold Account.normalizeEmail in H. rewrite E in H. rewrite H.
  unfold Account.username. by rewrite E.
Qed.

(** ** Login and access tokens *)

Lemma endsWith_app (a suffix : string) : Account.endsWith (a +:+ suffix) suffix = true.
Proof.
  unfold Account.endsWith. rewrite length_append.
  replace (String.length a + String.length suffix - String.length suffix)%nat
    with (String.length a) by lia.
  rewrite drop_str_app, String.eqb_refl. apply andb_true_iff. split; [|done].
  apply Nat.leb_le. lia.
Qed.

Lemma drop_str_past (a : string) c (b : string) :
  drop_str (String.length a + 1) (a +:+ String c b) = b.
Proof.
  induction a as [|x a IH]; [done|]. rewrite append_cons. exact IH.
Qed.

Lemma eqb_app_cons (a : string) c (b : string) : String.eqb (a +:+ String c b) "" = false.
Proof. by destruct a. Qed.

(** the second of the words separated by single blanks *)
Lemma second_word (scheme token tail : string) :
  includes scheme " " = false -> includes token " " = false ->
  tail = "" \/ startsWith tail " " = true ->
  at_index (split (scheme +:+ (" " +:+ (token +:+ tail))) " ") 1 = VStr token.
Proof.
  intros Hs Ht Htail. apply includes_false in Hs. apply includes_false in Ht.
  rewrite split_second by done. unfold OpenRouter.afterFirst.
  change (" " +:+ (token +:+ tail)) with (String " " (token +:+ tail)).
  rewrite (indexOf_char_app " " scheme (token +:+ tail) Hs).
  change (String.length " ") with 1%nat. rewrite drop_str_past. f_equal.
  unfold OpenRouter.upTo. destruct Htail as [->|Htail].
  - by rewrite append_nil_r, Ht.
  - apply prefix_drop in Htail. rewrite Htail.
    change (" " +:+ ?x) with (String " " x).
    rewrite (indexOf_char_app " " token _ Ht). apply take_str_app.
Qed.

(** X13. POST /login: a login succeeds exactly when both fields are given,
    the address (completed with [@iitk.ac.in] when it has no [@]) ends with
    [@iitk.ac.in], and a mailbox session opens for the user name before the
    first [@] with the given password; the account of the answer and of the
    token is the completed address. The refusals are 400 (a field missing,
    or an address with an [@] that does not end with [@iitk.ac.in]) and 401
    (the session failed, its message handed on as details). *)
Theorem login_outcomes
    (jwt_sign : Auth.User -> string)
    (mailSession : string -> string -> Exc (list Email))
    (email password : string) :
  match Auth.login jwt_sign mailSession email password with
  | Auth.LoggedIn token user =>
      email <> "" /\ password <> ""
      /\ Auth.u_id user = Auth.u_email user
      /\ Auth.u_email user = Account.normalizeEmail email
      /\ Account.endsWith (Auth.u_email user) "@iitk.ac.in" = true
      /\ token = Auth.generateToken jwt_sign (Auth.u_email user)
      /\ exists msgs, mailSession (Account.username email) password = Ok msgs
  | Auth.LoginRefused status error details =>
      (status = 400 /\ details = None
       /\ (email = "" \/ password = ""
           \/ (includes email "@" = true /\ Account.endsWith email "@iitk.ac.in" = false)))
      \/ (status = 401 /\ email <> "" /\ password <> ""
          /\ Account.endsWith (Account.normalizeEmail email) "@iitk.ac.in" = true
          /\ exists e, mailSession (Account.username email) password = Throw e
                       /\ details = Some (Account.messageOf e))
  end.
Proof.
  unfold Auth.login.
  destruct (String.eqb_spec email "") as [->|He]; [left; auto|].
  destruct (String.eqb_spec password "") as [->|Hp]; [left; auto|]. cbn [orb].
  destruct (Account.endsWith (Account.normalizeEmail email) "@iitk.ac.in") eqn:Ee; cbn [negb].
  - unfold Auth.fetchUserEmails. rewrite username_normalizeEmail.
    destruct (mailSession (Account.username email) password) as [msgs|e] eqn:Em.
    + cbn [Auth.u_id Auth.u_email]. repeat split; try done. by exists msgs.
    + right. repeat split; try done. by exists e.
  - left. split; [done|]. split; [done|]. right. right.
    unfold Account.normalizeEmail in Ee. destruct (includes email "@"); [done|].
    by rewrite endsWith_app in Ee.
Qed.

(** X14. The middleware reads the second of the blank-separated words of
    the Authorization header as the token, whatever the first word is and
    whatever follows a second blank: an empty second word is answered 401,
    one that does not verify 403, and otherwise the request goes on as the
    token's account. A missing header, or one without a blank, is answered
    401. *)
Theorem authenticateToken_reads_second_word
    (jwt_verify : string -> option Auth.User) (scheme token tail : string) :
  includes scheme " " = false -> includes token " " = false ->
  tail = "" \/ startsWith tail " " = true ->
  Auth.authenticateToken jwt_verify (Some (scheme +:+ (" " +:+ (token +:+ tail))))
  = (if String.eqb token "" then Auth.Denied 401 "Access token required"
     else match jwt_verify token with
          | Some user => Auth.Next user
          | None => Auth.Denied 403 "Invalid or expired token"
          end)
  /\ Auth.authenticateToken jwt_verify None = Auth.Denied 401 "Access token required"
  /\ Auth.authenticateToken jwt_verify (Some scheme) = Auth.Denied 401 "Access token required".
Proof.
  intros Hs Ht Htail. split; [|split; [done|]].
  - unfold Auth.authenticateToken, Auth.tokenOf.
    change (" " +:+ (token +:+ tail)) with (String " " (token +:+ tail)).
    rewrite eqb_app_cons.
    change (String " " (token +:+ tail)) with (" " +:+ (token +:+ tail)).
    by rewrite second_word.
  - unfold Auth.authenticateToken, Auth.tokenOf.
    destruct (String.eqb_spec scheme ""); [done|].
    rewrite split_second by done. unfold OpenRouter.afterFirst.
    apply includes_false in Hs. by rewrite Hs.
Qed.

Lemma authenticateToken_reads_second_word_witness :
  Auth.authenticateToken Samples.toyVerify
    (Some ("Basic" +:+ (" " +:+ ("tok.ayush@iitk.ac.in" +:+ " trailing words"))))
  = (if String.eqb "tok.ayush@iitk.ac.in" "" then Auth.Denied 401 "Access token required"
     else match Samples.toyVerify "tok.ayush@iitk.ac.in" with
          | Some user => Auth.Next user
          | None => Auth.Denied 403 "Invalid or expired token"
          end)
  /\ Auth.authenticateToken Samples.toyVerify None = Auth.Denied 401 "Access token required"
  /\ Auth.authenticateToken Samples.toyVerify (Some "Basic")
     = Auth.Denied 401 "Access token required".
Proof.
  apply (authenticateToken_reads_second_word Samples.toyVerify
           "Basic" "tok.ayush@iitk.ac.in" " trailing words").
  - vm_compute. reflexivity.
  - vm_compute. reflexivity.
  - right. vm_compute. reflexivity.
Defined.

(** X15. From login to the later requests: while the token issued for the
    completed address verifies to that account, is not empty and holds no
    blank, a request that carries it as [Bearer <token>] passes the
    middleware as the very account the login answered, and the mail servers
    are then addressed under the same user name as at login. *)
Theorem login_token_round_trip
    (jwt_sign : Auth.User -> string) (jwt_verify : string -> option Auth.User)
    (mailSession : string -> string -> Exc (list Email))
    (email password token : string) (user : Auth.User) :
  let issued := Auth.generateToken jwt_sign (Account.normalizeEmail email) in
  jwt_verify issued
    = Some {| Auth.u_email := Account.normalizeEmail email;
              Auth.u_id := Account.normalizeEmail email |} ->
  issued <> "" -> includes issued " " = false ->
  Auth.login jwt_sign mailSession email password = Auth.LoggedIn token user ->
  Auth.authenticateToken jwt_verify (Some ("Bearer " +:+ token)) = Auth.Next user
  /\ Account.username (Auth.u_email user) = Account.username email
  /\ exists msgs,
       Auth.fetchUserEmails mailSession (Auth.u_email user) password = Ok msgs.
Proof.
  intros issued Hv Hne Hsp Hlogin. revert Hlogin. unfold Auth.login.
  destruct (String.eqb email "" || String.eqb password ""); [done|].
  destruct (Account.endsWith (Account.normalizeEmail email) "@iitk.ac.in"); [|done].
  cbn [negb]. destruct (Auth.fetchUserEmails mailSession _ password) as [msgs|e] eqn:Em; [|done].
  intros [= <- <-]. cbn [Auth.u_email]. fold issued. split.
  - unfold Auth.authenticateToken, Auth.tokenOf.
    change ("Bearer " +:+ issued) with ("Bearer" +:+ String " " issued).
    rewrite eqb_app_cons.
    pose proof (second_word "Bearer" issued "" ltac:(done) Hsp ltac:(by left)) as H.
    rewrite append_nil_r in H. change (" " +:+ issued) with (String " " issued) in H.
    rewrite H. destruct (String.eqb_spec issued ""); [done|]. by rewrite Hv.
  - split; [apply username_normalizeEmail|]. by exists msgs.
Qed.

Lemma login_token_round_trip_witness :
  Auth.authenticateToken Samples.toyVerify (Some ("Bearer " +:+ "tok.ayush@iitk.ac.in"))
  = Auth.Next {| Auth.u_email := "ayush@iitk.ac.in"; Auth.u_id := "ayush@iitk.ac.in" |}
  /\ Account.username "ayush@iitk.ac.in" = Account.username "ayush"
  /\ exists msgs,
       Auth.fetchUserEmails Samples.oneAccount "ayush@iitk.ac.in" "secret" = Ok msgs.
Proof.
  apply (login_token_round_trip Samples.toySign Samples.toyVerify Samples.oneAccount
           "ayush" "secret" "tok.ayush@iitk.ac.in"
           {| Auth.u_email := "ayush@iitk.ac.in"; Auth.u_id := "ayush@iitk.ac.in" |}).
  - vm_compute. reflexivity.
  - discriminate.
  - vm_compute. reflexivity.
  - vm_compute. reflexivity.
Defined.

(** ** Sending *)

Lemma rev_app_append p : forall t s,
  String.rev_app p t +:+ s = String.rev_app p (t +:+ s).
Proof.
  induction p as [|c p IH]; intros t s; [done|].
  cbn [String.rev_app]. by rewrite IH.
Qed.

Lemma rev_snoc p c s : String.rev (String c p) +:+ s = String.rev p +:+ String c s.
Proof. unfold String.rev. cbn [String.rev_app]. by rewrite !rev_app_append. Qed.

Lemma rev_app_length p : forall t,
  String.length (String.rev_app p t) = (String.length p + String.length t)%nat.
Proof.
  induction p as [|c p IH]; intros t; [done|].
  cbn [String.rev_app String.length]. rewrite IH. cbn [String.length]. lia.
Qed.

Lemma noClose_app a b : Smtp.noClose (a +:+ b) = Smtp.noClose a && Smtp.noClose b.
Proof.
  induction a as [|c a IH]; [done|]. rewrite append_cons. cbn [Smtp.noClose].
  rewrite IH. by rewrite andb_assoc.
Qed.

Lemma noClose_app_close b c : Smtp.noClose (b +:+ String ">" c) = false.
Proof.
  rewrite noClose_app. cbn [Smtp.noClose]. change (Ascii.eqb ">" ">") with true.
  cbn [negb andb]. apply andb_false_r.
Qed.

Lemma noClose_false_parts s :
  Smtp.noClose s = false -> exists b c, s = b +:+ String ">" c.
Proof.
  induction s as [|x s IH]; [done|]. cbn [Smtp.noClose].
  destruct (Ascii.eqb_spec x ">") as [->|Hx]; cbn [negb andb].
  - intros _. by exists "", s.
  - intros H. destruct (IH H) as (b & c & ->). by exists (String x b), c.
Qed.

(** inside a tag the text read so far is kept in case no [">"] comes *)
Lemma stripTags_go_noClose s : forall p,
  Smtp.noClose s = true -> Smtp.stripTags_go (Some p) s = String.rev p +:+ s.
Proof.
  induction s as [|c s IH]; intros p H.
  - cbn [Smtp.stripTags_go]. by rewrite append_nil_r.
  - cbn [Smtp.noClose] in H. apply andb_true_iff in H as [Hc H].
    apply negb_true_iff in Hc. cbn [Smtp.stripTags_go]. rewrite Hc.
    rewrite (IH _ H). apply rev_snoc.
Qed.

Lemma tagFree_fixed t : Smtp.tagFree t = true -> Smtp.stripTags t = t.
Proof.
  unfold Smtp.stripTags. induction t as [|c t IH]; [done|].
  cbn [Smtp.tagFree Smtp.stripTags_go]. destruct (Ascii.eqb c "<") eqn:E; intros H.
  - by rewrite (stripTags_go_noClose t _ H).
  - by rewrite (IH H).
Qed.

Lemma stripTags_go_tagFree s :
  Smtp.tagFree (Smtp.stripTags_go None s) = true
  /\ forall p q, String.rev p = String "<" q -> Smtp.noClose q = true ->
       Smtp.tagFree (Smtp.stripTags_go (Some p) s) = true.
Proof.
  induction s as [|c s [IH1 IH2]].
  - split; [done|]. intros p q Hp Hq. cbn [Smtp.stripTags_go]. by rewrite Hp.
  - split.
    + cbn [Smtp.stripTags_go]. destruct (Ascii.eqb_spec c "<") as [->|Hc].
      * by apply (IH2 _ "").
      * cbn [Smtp.tagFree]. destruct (Ascii.eqb_spec c "<"); [done|exact IH1].
    + intros p q Hp Hq. cbn [Smtp.stripTags_go].
      destruct (Ascii.eqb c ">") eqn:Ec; [exact IH1|].
      apply (IH2 _ (q +:+ String c "")).
      * pose proof (rev_snoc p c "") as H. rewrite append_nil_r in H. rewrite H, Hp.
        by rewrite append_cons.
      * rewrite noClose_app, Hq. cbn [Smtp.noClose]. by rewrite Ec.
Qed.

Lemma stripTags_go_length s :
  (String.length (Smtp.stripTags_go None s) <= String.length s)%nat
  /\ forall p, (String.length (Smtp.stripTags_go (Some p) s)
                <= String.length p + String.length s)%nat.
Proof.
  induction s as [|c s [IH1 IH2]].
  - split; [done|]. intros p. cbn [Smtp.stripTags_go]. unfold String.rev.
    rewrite rev_app_length. lia.
  - split.
    + cbn [Smtp.stripTags_go]. destruct (Ascii.eqb c "<").
      * specialize (IH2 (String c "")). cbn [String.length] in *. lia.
      * cbn [String.length]. lia.
    + intros p. cbn [Smtp.stripTags_go]. destruct (Ascii.eqb c ">").
      * cbn [String.length]. lia.
      * specialize (IH2 (String c p)). cbn [String.length] in *. lia.
Qed.

Lemma tagFree_no_tag a : forall t b c,
  Smtp.tagFree t = true -> t <> a +:+ String "<" (b +:+ String ">" c).
Proof.
  induction a as [|x a IH]; intros t b c Ht ->.
  - rewrite append_nil in Ht. change (Smtp.noClose (b +:+ String ">" c) = true) in Ht.
    by rewrite noClose_app_close in Ht.
  - rewrite append_cons in Ht. cbn [Smtp.tagFree] in Ht.
    destruct (Ascii.eqb x "<").
    + rewrite noClose_app in Ht. cbn [Smtp.noClose] in Ht.
      rewrite noClose_app_close in Ht. by rewrite !andb_false_r in Ht.
    + by eapply IH.
Qed.

Lemma no_tag_tagFree t :
  (forall a b c, t <> a +:+ String "<" (b +:+ String ">" c)) -> Smtp.tagFree t = true.
Proof.
  induction t as [|x t IH]; intros H; [done|]. cbn [Smtp.tagFree].
  destruct (Ascii.eqb_spec x "<") as [->|Hx].
  - destruct (Smtp.noClose t) eqn:E; [done|].
    destruct (noClose_false_parts t E) as (b & c & ->). by destruct (H "" b c).
  - apply IH. intros a b c ->. by apply (H (String x a) b c).
Qed.

(** X16. The plain-text alternative of a sent message: stripping leaves no
    tag, that is no ["<"] with a [">"] after it; it never lengthens the
    text; stripping again changes nothing; and a body that holds no tag is
    its own plain text. *)
Theorem stripTags_leaves_no_tag (body : string) :
  Smtp.tagFree (Smtp.stripTags body) = true
  /\ (forall a b c, Smtp.stripTags body <> a +:+ ("<" +:+ (b +:+ (">" +:+ c))))
  /\ Smtp.stripTags (Smtp.stripTags body) = Smtp.stripTags body
  /\ (String.length (Smtp.stripTags body) <= String.length body)%nat
  /\ ((forall a b c, body <> a +:+ ("<" +:+ (b +:+ (">" +:+ c)))) ->
      Smtp.stripTags body = body).
Proof.
  assert (H : Smtp.tagFree (Smtp.stripTags body) = true)
    by apply stripTags_go_tagFree.
  split; [exact H|]. split.
  { intros a b c. by apply tagFree_no_tag. }
  split; [by apply tagFree_fixed|]. split; [apply stripTags_go_length|].
  intros Hb. apply tagFree_fixed. by apply no_tag_tagFree.
Qed.

Section SendFacts.
Variable MMTP_HOST : string.
Variable MMTP_PORT : string.
Variable createTransport : string -> string -> option Smtp.SmtpError.
Variable verify : string -> string -> option Smtp.SmtpError.
Variable sendMail : Smtp.MailOptions -> option Smtp.SmtpError.
Variable close : nat -> option Smtp.SmtpError.

(** the five cases of [tryToSend] *)
Lemma tryToSend_cases fromEmail fromPassword to subject body replyTo :
  let user := Account.username fromEmail in
  let opts := Smtp.mailOptionsOf fromEmail to subject body replyTo in
  let a := Smtp.tryToSend createTransport verify sendMail close
             fromEmail fromPassword to subject body replyTo in
  ((fromEmail = "" \/ fromPassword = "" \/ to = "" \/ subject = "" \/ body = "")
   /\ a = {| Smtp.log := []; Smtp.transporter := false;
             Smtp.thrown := Some (Smtp.plainError
               "Missing required email fields: fromEmail, fromPassword, to, subject, body") |})
  \/ (fromEmail <> "" /\ fromPassword <> "" /\ to <> "" /\ subject <> "" /\ body <> ""
      /\ ((exists e, createTransport user fromPassword = Some e
                     /\ a = {| Smtp.log := [Smtp.CreateTransport user fromPassword];
                               Smtp.transporter := false; Smtp.thrown := Some e |})
          \/ (createTransport user fromPassword = None
              /\ ((exists e, verify user fromPassword = Some e
                     /\ a = {| Smtp.log := [Smtp.CreateTransport user fromPassword; Smtp.Verify];
                               Smtp.transporter := true; Smtp.thrown := Some e |})
                  \/ (verify user fromPassword = None
                      /\ ((exists e, sendMail opts = Some e
                             /\ a = {| Smtp.log := [Smtp.CreateTransport user fromPassword;
                                                    Smtp.Verify; Smtp.SendMail opts];
                                       Smtp.transporter := true; Smtp.thrown := Some e |})
                          \/ (sendMail opts = None
                              /\ a = {| Smtp.log := [Smtp.CreateTransport user fromPassword;
                                                     Smtp.Verify; Smtp.SendMail opts; Smtp.Close];
                                        Smtp.transporter := true;
                                        Smtp.thrown := close 0%nat |}))))))).
Proof.
  cbv zeta. unfold Smtp.tryToSend.
  destruct (String.eqb_spec fromEmail ""); [left; auto|].
  destruct (String.eqb_spec fromPassword ""); [left; auto 6|].
  destruct (String.eqb_spec to ""); [left; auto 6|].
  destruct (String.eqb_spec subject ""); [left; auto 6|].
  destruct (String.eqb_spec body ""); [left; auto 7|].
  cbn [orb]. right. do 5 (split; [done|]).
  destruct (createTransport _ _) as [e|]; [left; eauto|]. right. split; [done|].
  destruct (verify _ _) as [e|]; [left; eauto|]. right. split; [done|].
  destruct (sendMail _) as [e|]; [left; eauto|]. right. by split.
Qed.

End SendFacts.

(** what the endpoint needs of [sendEmail] *)
Lemma sendEmail_facts
    (MMTP_HOST MMTP_PORT : string)
    (createTransport verify : string -> string -> option Smtp.SmtpError)
    (sendMail : Smtp.MailOptions -> option Smtp.SmtpError)
    (close : nat -> option Smtp.SmtpError)
    (fromEmail fromPassword to subject body : string) (replyTo : option string) :
  let user := Account.username fromEmail in
  let opts := Smtp.mailOptionsOf fromEmail to subject body replyTo in
  let run := Smtp.sendEmail MMTP_HOST MMTP_PORT createTransport verify sendMail close
               fromEmail fromPassword to subject body replyTo in
  (run.2 = Ok tt \/ exists m, run.2 = Throw (Error ("Failed to send email: " +:+ m)))
  /\ (fromEmail = "" \/ fromPassword = "" \/ to = "" \/ subject = "" \/ body = "" ->
      run.1 = [])
  /\ (run.2 = Ok tt <->
      fromEmail <> "" /\ fromPassword <> "" /\ to <> "" /\ subject <> "" /\ body <> ""
      /\ createTransport user fromPassword = None /\ verify user fromPassword = None
      /\ sendMail opts = None /\ close 0%nat = None)
  /\ (run.2 = Ok tt ->
      run.1 = [Smtp.CreateTransport user fromPassword; Smtp.Verify; Smtp.SendMail opts;
               Smtp.Close])
  /\ (fromEmail <> "" /\ fromPassword <> "" /\ to <> "" /\ subject <> "" /\ body <> "" ->
      head run.1 = Some (Smtp.CreateTransport user fromPassword)).
Proof.
  cbv zeta. unfold Smtp.sendEmail.
  destruct (tryToSend_cases createTransport verify sendMail close
              fromEmail fromPassword to subject body replyTo)
    as [(Hmiss & ->)|(H1 & H2 & H3 & H4 & H5 & Hcase)].
  { cbn. split; [right; eauto|]. split; [done|]. split.
    - split; [done|]. intros (? & ? & ? & ? & ? & _). destruct Hmiss as [?|[?|[?|[?|?]]]]; done.
    - split; [done|]. intros (? & ? & ? & ? & ?). destruct Hmiss as [?|[?|[?|[?|?]]]]; done. }
  assert (Hnot : ~ (fromEmail = "" \/ fromPassword = "" \/ to = "" \/ subject = "" \/ body = ""))
    by (intros [?|[?|[?|[?|?]]]]; done).
  destruct Hcase as [(e & Hc & ->)|(Hc & [(e & Hv & ->)|(Hv & [(e & Hs & ->)|(Hs & ->)])])];
    cbn [Smtp.thrown Smtp.log Smtp.transporter fst snd app].
  - split; [right; eauto|]. split; [done|]. split; [|done].
    split; [done|]. intros (_ & _ & _ & _ & _ & ? & _). congruence.
  - split; [right; eauto|]. split; [done|]. split; [|done].
    split; [done|]. intros (_ & _ & _ & _ & _ & _ & ? & _). congruence.
  - split; [right; eauto|]. split; [done|]. split; [|done].
    split; [done|]. intros (_ & _ & _ & _ & _ & _ & _ & ? & _). congruence.
  - destruct (close 0%nat) as [e|] eqn:Hcl; cbn [fst snd app].
    + split; [right; eauto|]. split; [done|]. split; [|done].
      split; [done|]. intros (_ & _ & _ & _ & _ & _ & _ & _ & ?). congruence.
    + split; [by left|]. split; [done|]. split; [done|]. by split.
Qed.

(** membership in a log that is written out *)
Ltac in_log H :=
  repeat (apply elem_of_cons in H as [H|H]; [try discriminate H|]);
  [..|by apply elem_of_nil in H]; simplify_eq.

(** X17. [sendEmail], for any behaviour of the transport: it returns, or
    throws an [Error] whose message starts with [Failed to send email: ];
    with a required field missing no transport is touched; it returns
    exactly when all five fields are given and creating, verifying, sending
    and closing all went through, and the calls made are then those four, in
    that order; a message is sent only after the connection verified, from
    the full address and with a tag-free plain text; the transport is opened
    under the user name without [@]; and once a transport exists the last
    call made on it is [close]. *)
Theorem sendEmail_outcomes
    (MMTP_HOST MMTP_PORT : string)
    (createTransport verify : string -> string -> option Smtp.SmtpError)
    (sendMail : Smtp.MailOptions -> option Smtp.SmtpError)
    (close : nat -> option Smtp.SmtpError)
    (fromEmail fromPassword to subject body : string) (replyTo : option string) :
  let user := Account.username fromEmail in
  let opts := Smtp.mailOptionsOf fromEmail to subject body replyTo in
  let run := Smtp.sendEmail MMTP_HOST MMTP_PORT createTransport verify sendMail close
               fromEmail fromPassword to subject body replyTo in
  (run.2 = Ok tt \/ exists m, run.2 = Throw (Error ("Failed to send email: " +:+ m)))
  /\ (fromEmail = "" \/ fromPassword = "" \/ to = "" \/ subject = "" \/ body = "" ->
      run = ([], Throw (Error
        "Failed to send email: Missing required email fields: fromEmail, fromPassword, to, subject, body")))
  /\ (run.2 = Ok tt <->
      fromEmail <> "" /\ fromPassword <> "" /\ to <> "" /\ subject <> "" /\ body <> ""
      /\ createTransport user fromPassword = None /\ verify user fromPassword = None
      /\ sendMail opts = None /\ close 0%nat = None)
  /\ (run.2 = Ok tt ->
      run.1 = [Smtp.CreateTransport user fromPassword; Smtp.Verify; Smtp.SendMail opts;
               Smtp.Close])
  /\ (forall o, Smtp.SendMail o ∈ run.1 ->
        o = opts /\ verify user fromPassword = None /\ Smtp.from o = fromEmail
        /\ Smtp.replyTo o <> "" /\ Smtp.tagFree (Smtp.text o) = true)
  /\ (forall u p, Smtp.CreateTransport u p ∈ run.1 ->
        u = user /\ p = fromPassword /\ includes u "@" = false)
  /\ (Smtp.Verify ∈ run.1 -> last run.1 = Some Smtp.Close).
Proof.
  cbv zeta. unfold Smtp.sendEmail.
  assert (Hfree : includes (Account.username fromEmail) "@" = false)
    by (rewrite username_upTo; by apply upTo_free).
  pose proof (stripTags_go_tagFree body) as (Hplain & _).
  destruct (tryToSend_cases createTransport verify sendMail close
              fromEmail fromPassword to subject body replyTo)
    as [(Hmiss & ->)|(H1 & H2 & H3 & H4 & H5 & Hcase)].
  { cbn. split; [right; eauto|]. split; [done|]. split.
    - split; [done|]. intros (? & ? & ? & ? & ? & _). destruct Hmiss as [?|[?|[?|[?|?]]]]; done.
    - split; [done|]. split; [intros o Ho; by apply elem_of_nil in Ho|].
      split; [intros u p Ho; by apply elem_of_nil in Ho|].
      intros Ho; by apply elem_of_nil in Ho. }
  assert (Hreply : Smtp.replyTo (Smtp.mailOptionsOf fromEmail to subject body replyTo) <> "").
  { cbn. unfold str_or. destruct replyTo as [r|]; [|done]. by destruct (String.eqb_spec r ""). }
  assert (Hnot : ~ (fromEmail = "" \/ fromPassword = "" \/ to = "" \/ subject = "" \/ body = ""))
    by (intros [?|[?|[?|[?|?]]]]; done).
  destruct Hcase as [(e & Hc & ->)|(Hc & [(e & Hv & ->)|(Hv & [(e & Hs & ->)|(Hs & ->)])])];
    cbn [Smtp.thrown Smtp.log Smtp.transporter fst snd app].
  - split; [right; eauto|]. split; [done|]. split.
    { split; [done|]. intros (_ & _ & _ & _ & _ & ? & _). congruence. }
    split; [done|]. split; [intros o Ho; in_log Ho|].
    split; [intros u p Ho; in_log Ho; done|intros Ho; in_log Ho].
  - split; [right; eauto|]. split; [done|]. split.
    { split; [done|]. intros (_ & _ & _ & _ & _ & _ & ? & _). congruence. }
    split; [done|]. split; [intros o Ho; in_log Ho|].
    split; [intros u p Ho; in_log Ho; done|done].
  - split; [right; eauto|]. split; [done|]. split.
    { split; [done|]. intros (_ & _ & _ & _ & _ & _ & _ & ? & _). congruence. }
    split; [done|]. split; [intros o Ho; in_log Ho; done|].
    split; [intros u p Ho; in_log Ho; done|done].
  - destruct (close 0%nat) as [e|] eqn:Hcl; cbn [fst snd app].
    + split; [right; eauto|]. split; [done|]. split.
      { split; [done|]. intros (_ & _ & _ & _ & _ & _ & _ & _ & ?). congruence. }
      split; [done|]. split; [intros o Ho; in_log Ho; done|].
      split; [intros u p Ho; in_log Ho; done|done].
    + split; [by left|]. split; [done|]. split; [done|]. split; [done|].
      split; [intros o Ho; in_log Ho; done|].
      split; [intros u p Ho; in_log Ho; done|done].
Qed.

(** ** The reply and send endpoints *)

(** X18. POST /send, for any behaviour of the transport: the answer is the
    success text, a 400 or a 500. A 400 (no password, or no recipient,
    subject or body) touches no transport. With the account of the token
    not empty, every other request opens a transport under the account's
    user name; the answer is the success text exactly when creating,
    verifying, sending and closing all went through, and otherwise a 500
    whose message starts with [Failed to send email: ]. *)
Theorem postSend_outcomes
    (MMTP_HOST MMTP_PORT : string)
    (createTransport verify : string -> string -> option Smtp.SmtpError)
    (sendMail : Smtp.MailOptions -> option Smtp.SmtpError)
    (close : nat -> option Smtp.SmtpError)
    (email password to subject body : string) (replyTo : option string) :
  let user := Account.username email in
  let opts := Smtp.mailOptionsOf email to subject body replyTo in
  let run := Outbound.postSend MMTP_HOST MMTP_PORT createTransport verify sendMail close
               email password to subject body replyTo in
  match run.2 with
  | Outbound.Done text =>
      text = "Email sent successfully"
      /\ email <> "" /\ password <> "" /\ to <> "" /\ subject <> "" /\ body <> ""
      /\ run.1 = [Smtp.CreateTransport user password; Smtp.Verify; Smtp.SendMail opts;
                  Smtp.Close]
      /\ createTransport user password = None /\ verify user password = None
      /\ sendMail opts = None /\ close 0%nat = None
  | Outbound.Refused status error message =>
      (status = 400 /\ message = None /\ run.1 = []
       /\ (password = "" \/ to = "" \/ subject = "" \/ body = ""))
      \/ (status = 500 /\ error = "Failed to send email"
          /\ password <> "" /\ to <> "" /\ subject <> "" /\ body <> ""
          /\ (exists m, message = Some ("Failed to send email: " +:+ m))
          /\ (email <> "" ->
              head run.1 = Some (Smtp.CreateTransport user password)
              /\ (createTransport user password <> None \/ verify user password <> None
                  \/ sendMail opts <> None \/ close 0%nat <> None)))
  end.
Proof.
  cbv zeta. unfold Outbound.postSend.
  destruct (String.eqb_spec password ""); [left; auto 6|].
  destruct (String.eqb_spec to ""); [left; auto 7|].
  destruct (String.eqb_spec subject ""); [left; auto 7|].
  destruct (String.eqb_spec body ""); [left; auto 7|].
  cbn [orb].
  pose proof (sendEmail_facts MMTP_HOST MMTP_PORT createTransport verify sendMail close
                email password to subject body replyTo)
    as (Hres & Hmiss & Hok & Hlog & Hhead).
  destruct (Smtp.sendEmail _ _ _ _ _ _ _ _ _ _ _ _) as [log [[]|error]] eqn:E;
    cbn [fst snd] in *.
  - destruct Hok as [Hok _]. specialize (Hok eq_refl).
    destruct Hok as (? & ? & ? & ? & ? & ? & ? & ? & ?). rewrite (Hlog eq_refl).
    repeat split; done.
  - right. destruct Hres as [?|(m & Hm)]; [done|]. injection Hm as ->.
    do 6 (split; [done|]). split; [by exists m|].
    intros He. split; [by apply Hhead|].
    destruct (createTransport _ _) eqn:E1; [by left|].
    destruct (verify _ _) eqn:E2; [right; by left|].
    destruct (sendMail _) eqn:E3; [right; right; by left|].
    destruct (close 0%nat) eqn:E4; [right; right; by right|].
    destruct Hok as [_ Hok]. by specialize (Hok ltac:(done)).
Qed.



(** a provider error whose message is a number is handed on in print *)
Example postGenerateReply_prints_error_message :
  Outbound.postGenerateReply (Some "sk-or-key") Samples.replyWording Samples.refineWording
    (fun _ => Samples.errorNumber) "Meeting" "Shall we meet at 4 PM?" "Say yes" None None
  = Outbound.Refused 500 "Failed to generate email reply" (Some "OpenRouter API error: 5").
Proof. vm_compute. reflexivity. Qed.

(** ** The mail list of the client *)

Lemma received_valid (e : EnrichedEmail) :
  is_Some (getTime (date (base e))) -> Client.received e = e.
Proof.
  destruct e as [[i s su b d] c sm ev]. cbn. intros [t Ht].
  destruct d; [done|discriminate].
Qed.

Lemma received_all (l : list EnrichedEmail) :
  validDates (base <$> l) -> Client.received <$> l = l.
Proof.
  unfold validDates. induction l as [|e l IH]; [done|].
  rewrite fmap_cons, Forall_cons. intros [He Hl]. cbn [fmap list_fmap].
  rewrite (received_valid e He). f_equal. by apply IH.
Qed.

Lemma unseen_all (known batch : list EnrichedEmail) :
  (forall e, e ∈ batch -> id (base e) ∉ Client.idsOf known) ->
  Client.unseen known batch = batch.
Proof.
  unfold Client.unseen. induction batch as [|e l IH]; intros H; [done|].
  rewrite filter_cons. destruct (decide _) as [Hd|Hd].
  - f_equal. apply IH. intros x Hx. apply H. by right.
  - destruct Hd. apply H. by left.
Qed.

Lemma idsOf_base (l : list EnrichedEmail) : Client.idsOf l = id <$> (base <$> l).
Proof. unfold Client.idsOf. by rewrite <- list_fmap_compose. Qed.

Lemma validDates_sublist (l k : list Email) : sublist l k -> validDates k -> validDates l.
Proof.
  unfold validDates. rewrite !Forall_forall. intros Hs Hk e He.
  apply Hk. by eapply elem_of_sublist.
Qed.

Section ClientLoad.
Variable analyzeEmail : nat -> string -> string -> OpenRouter.AIResponse.
Variable laterFirst : nat -> bool.

Local Arguments Nat.mul : simpl never.
Local Arguments sortEmails : simpl never.
Local Arguments sortEnriched : simpl never.

(** the loop from batch [b] on, when [k + 1] requests remain *)
Lemma loadFrom_from (k : nat) : forall w password (b : nat) allEmails rawEmails fuel,
  password <> "" ->
  NoDup (id <$> take 40 rawEmails) -> validDates (take 40 rawEmails) ->
  (4 * (b + k) < length (take 40 rawEmails) <= 4 * (b + S k))%nat ->
  (S k <= fuel)%nat ->
  base <$> allEmails ≡ₚ take (4 * b) (take 40 rawEmails) ->
  base <$> Client.loadFrom analyzeEmail laterFirst fuel w password (Z.of_nat b)
             allEmails rawEmails
  ≡ₚ take 40 rawEmails.
Proof.
  induction k as [|k IH];
    intros w password b allEmails rawEmails fuel Hp Hnd Hv Hlen Hfuel Hacc;
    (destruct fuel as [|fuel]; [lia|]); cbn [Client.loadFrom];
    set (limited := take 40 rawEmails) in *;
    assert (Hn40 : (length limited <= 40)%nat) by (subst limited; rewrite length_take; lia);
    assert (Hall : length allEmails = (4 * b)%nat)
      by (rewrite <- (length_fmap base), Hacc, length_take; lia);
    (replace (40 <=? length allEmails)%nat with false by lia);
    destruct (fetchProgressive_any_page analyzeEmail laterFirst w password b rawEmails Hp
                ltac:(fold limited; lia)) as (w' & r & Hr & Hb & Hbn & Hic);
    fold limited in Hb, Hic; rewrite Hr;
    assert (Hbatch : base <$> p_emails r ≡ₚ take 4 (drop (4 * b) limited))
      by (rewrite Hb; unfold sortEmails; apply sortByDate_perm);
    assert (Hrecv : Client.received <$> p_emails r = p_emails r)
      by (apply received_all; eapply validDates_perm; [symmetry; exact Hbatch|];
          eapply validDates_sublist; [|exact Hv];
          etrans; [apply sublist_take|apply sublist_drop]);
    assert (Hnew : Client.unseen allEmails (p_emails r) = p_emails r)
      by (apply unseen_all; intros e He; rewrite idsOf_base, Hacc; intros Hin;
          rewrite <- (take_drop (4 * b) limited), fmap_app in Hnd;
          apply NoDup_app in Hnd as (_ & Hdis & _); apply (Hdis _ Hin);
          apply (elem_of_sublist (id <$> take 4 (drop (4 * b) limited)));
          [rewrite <- Hbatch; apply list_elem_of_fmap_2; by apply list_elem_of_fmap_2
          |apply fmap_sublist, sublist_take]);
    cbv zeta; rewrite Hrecv, Hnew, Hic;
    assert (Hacc' : base <$> (allEmails ++ p_emails r) ≡ₚ take (4 * b + 4) limited)
      by (rewrite fmap_app, Hacc, Hbatch, take_take_drop; done).
  - rewrite bool_decide_eq_true_2 by lia. cbn [orb].
    rewrite Hacc'. by rewrite take_ge by lia.
  - rewrite bool_decide_eq_false_2 by lia. cbn [orb].
    assert (Hall' : length (allEmails ++ p_emails r) = (4 * b + 4)%nat)
      by (rewrite <- (length_fmap base), Hacc', length_take; lia).
    replace (40 <=? length (allEmails ++ p_emails r))%nat with false by lia.
    replace (Z.of_nat b + 1) with (Z.of_nat (S b)) by lia.
    apply IH; fold limited; try done; try lia.
    by replace (4 * S b)%nat with (4 * b + 4)%nat by lia.
Qed.

End ClientLoad.

(** X20. The initial load of the client against the progressive endpoint:
    with a password stored, a window whose first forty messages have
    distinct identities and valid dates, and room for ceil(n/4) requests,
    the list put on display shows each of the first forty messages of the
    window exactly once, oldest first. *)
Theorem client_load_shows_first_forty
    (analyzeEmail : nat -> string -> string -> OpenRouter.AIResponse)
    (laterFirst : nat -> bool) (w : World) (password : string)
    (rawEmails : list Email) (fuel : nat) :
  password <> "" ->
  NoDup (id <$> take 40 rawEmails) -> validDates (take 40 rawEmails) ->
  (Nat.max 1 ((Nat.min (length rawEmails) 40 + 3) / 4) <= fuel)%nat ->
  exists shown,
    Client.fetchEmails analyzeEmail laterFirst fuel w password rawEmails = Some shown
    /\ base <$> shown ≡ₚ take 40 rawEmails
    /\ ascending shown
    /\ NoDup (Client.idsOf shown)
    /\ length shown = Nat.min (length rawEmails) 40.
Proof.
  intros Hp Hnd Hv Hfuel. unfold Client.fetchEmails.
  destruct (String.eqb_spec password "") as [|_]; [done|].
  set (n := Nat.min (length rawEmails) 40) in *.
  assert (Hn : length (take 40 rawEmails) = n) by (subst n; rewrite length_take; lia).
  assert (Hload : base <$> Client.loadFrom analyzeEmail laterFirst fuel w password 0 []
                             rawEmails ≡ₚ take 40 rawEmails).
  { destruct (decide (n = 0%nat)) as [Hz|Hz].
    - assert (Hraw : rawEmails = []) by (destruct rawEmails; [done|cbn in *; lia]).
      subst rawEmails. destruct fuel as [|fuel]; [cbn in Hfuel; lia|].
      cbn [Client.loadFrom]. unfold fetchProgressive.
      destruct (String.eqb_spec password "") as [|_]; [done|]. done.
    - assert (Hk : exists j, (4 * j < n <= 4 * S j)%nat /\ (S j <= fuel)%nat).
      { exists ((n + 3) / 4 - 1)%nat.
        pose proof (Nat.div_mod_eq (n + 3) 4).
        pose proof (Nat.mod_upper_bound (n + 3) 4). lia. }
      destruct Hk as (j & Hj & Hjf).
      apply (loadFrom_from analyzeEmail laterFirst j w password 0 [] rawEmails fuel);
        try done; rewrite ?Hn; try lia. }
  eexists. split; [reflexivity|].
  assert (Hshown : base <$> sortEnriched (Client.loadFrom analyzeEmail laterFirst fuel w
                                            password 0 [] rawEmails) ≡ₚ take 40 rawEmails).
  { unfold sortEnriched. by rewrite sortByDate_perm. }
  split; [exact Hshown|]. split.
  { apply sortEnriched_ascending. eapply validDates_perm; [symmetry; exact Hload|exact Hv]. }
  split.
  { rewrite idsOf_base, Hshown. exact Hnd. }
  by rewrite <- (length_fmap base), Hshown.
Qed.

Lemma client_load_shows_first_forty_witness :
  exists shown,
    Client.fetchEmails Scenarios.flakyAnalyze (fun _ => false) 10 Scenarios.emptyWorld
      "secret" Scenarios.fortyMessages = Some shown
    /\ base <$> shown ≡ₚ take 40 Scenarios.fortyMessages
    /\ ascending shown
    /\ NoDup (Client.idsOf shown)
    /\ length shown = Nat.min (length Scenarios.fortyMessages) 40.
Proof.
  apply (client_load_shows_first_forty Scenarios.flakyAnalyze (fun _ => false)
           Scenarios.emptyWorld "secret" Scenarios.fortyMessages 10).
  - discriminate.
  - exact NoDup_ids_fortyMessages.
  - exact validDates_fortyMessages.
  - cbn. lia.
Defined.

Lemma newestOf_valid first emails :
  is_Some (getTime (date (base first))) -> validDates (base <$> emails) ->
  is_Some (getTime (Client.newestOf first emails)).
Proof.
  unfold Client.newestOf. generalize (date (base first)) as d.
  induction emails as [|e l IH]; intros d Hd Hv; [done|].
  unfold validDates in Hv. rewrite fmap_cons, Forall_cons in Hv. destruct Hv as [He Hl].
  cbn [foldl]. apply IH; [|exact Hl].
  by destruct (laterThan (date (base e)) d).
Qed.

Lemma filter_none_known (l : list Email) : filter (fun e => id e ∉ @nil string) l = l.
Proof.
  induction l as [|e l IH]; [done|]. rewrite filter_cons.
  destruct (decide _) as [|Hd]; [by rewrite IH|]. destruct Hd. apply not_elem_of_nil.
Qed.

Lemma filter_none {A} (P : A -> Prop) `{!forall x, Decision (P x)} (l : list A) :
  (forall x, x ∈ l -> ~ P x) -> filter P l = [].
Proof.
  induction l as [|x l IH]; intros Hall; [done|]. rewrite filter_cons.
  destruct (decide (P x)) as [Hx|_].
  - destruct (Hall x); [by left|done].
  - apply IH. intros y Hy. apply Hall. by right.
Qed.

Section ClientRefresh.
Variable analyzeEmail : nat -> string -> string -> OpenRouter.AIResponse.
Variable laterFirst : nat -> bool.
Variable Date_parse : string -> JSDate.
Variable toISOString : Z -> string.

Local Arguments sortEmails : simpl never.
Local Arguments sortEnriched : simpl never.

(** what one refresh puts on display *)
Lemma refreshEmails_spec w password emails rawEmails :
  password <> "" -> validDates rawEmails -> validDates (base <$> emails) ->
  let unknown := filter (fun e => id e ∉ Client.idsOf emails) rawEmails in
  let shown := (Client.refreshEmails analyzeEmail laterFirst Date_parse toISOString
                  w password emails rawEmails).2 in
  base <$> shown ≡ₚ (base <$> emails) ++ unknown
  /\ (unknown = [] -> shown = emails)
  /\ (unknown <> [] -> ascending shown).
Proof.
  intros Hp Hraw Hem. cbv zeta. unfold Client.refreshEmails.
  destruct (String.eqb_spec password "") as [|_]; [done|].
  set (since := match emails with
                | [] => Some None
                | first :: _ =>
                    match getTime (Client.newestOf first emails) with
                    | Some t => Some (Some (toISOString t))
                    | None => None
                    end
                end).
  assert (Hsince : exists s, since = Some s
            /\ selectNew Date_parse (Client.idsOf emails) s rawEmails
               = filter (fun e => id e ∉ Client.idsOf emails) rawEmails).
  { subst since. destruct emails as [|first rest].
    - exists None. split; [done|]. cbn. by rewrite filter_none_known.
    - destruct (newestOf_valid first (first :: rest)) as [t Ht]; [|exact Hem|].
      { unfold validDates in Hem. rewrite fmap_cons, Forall_cons in Hem. tauto. }
      rewrite Ht. by eexists. }
  destruct Hsince as (s & -> & Hsel).
  destruct (fetchNew_Success analyzeEmail laterFirst Date_parse w password s
              (Client.idsOf emails) rawEmails Hp) as (r & Hr & Hbase & _ & Hasc).
  destruct (fetchNew analyzeEmail laterFirst Date_parse w password s _ rawEmails)
    as [w' answer]. cbn [snd] in Hr. subst answer.
  set (unknown := filter (fun e => id e ∉ Client.idsOf emails) rawEmails) in *.
  assert (Hperm : base <$> d_emails r ≡ₚ unknown).
  { change (base <$> d_emails r) with (map base (d_emails r)). rewrite Hbase, Hsel.
    unfold sortEmails. by rewrite !sortByDate_perm. }
  assert (Hrecv : Client.received <$> d_emails r = d_emails r).
  { apply received_all. eapply validDates_perm; [symmetry; exact Hperm|].
    eapply validDates_sublist; [apply sublist_filter|exact Hraw]. }
  rewrite Hrecv.
  assert (Hnew : Client.unseen emails (d_emails r) = d_emails r).
  { apply unseen_all. intros e He.
    assert (Hin : base e ∈ unknown) by (rewrite <- Hperm; by apply list_elem_of_fmap_2).
    by apply list_elem_of_filter in Hin as [Hin _]. }
  rewrite Hnew.
  destruct (d_emails r) as [|e l] eqn:Ed; cbn [snd].
  - symmetry in Hperm. apply Permutation_nil_r in Hperm. rewrite Hperm, app_nil_r. by split.
  - assert (Hne : unknown <> []).
    { intros E. rewrite E in Hperm. by apply Permutation_nil_r in Hperm. }
    split; [|split; [done|]].
    + unfold sortEnriched. by rewrite sortByDate_perm, fmap_app, Hperm.
    + intros _. apply sortEnriched_ascending.
      change (map base (emails ++ e :: l)) with (base <$> (emails ++ e :: l)).
      rewrite fmap_app. unfold validDates in *. apply Forall_app. split; [exact Hem|].
      change (Forall (fun e0 => is_Some (getTime (date e0))) (base <$> e :: l)).
      eapply (validDates_perm unknown); [by symmetry|].
      eapply validDates_sublist; [apply sublist_filter|exact Hraw].
Qed.

End ClientRefresh.

(** X21. One refresh of the client against the delta endpoint, with valid
    dates throughout: the list on display afterwards holds what was shown
    before together with exactly the messages of the window whose identity
    was not shown, so the client's own filter drops nothing of the answer;
    when there is no such message the list is left as it is, and otherwise
    it is put in ascending order; identities stay distinct when they were
    so on display and in the window; and a second refresh over the same
    window changes nothing. *)
Theorem refresh_adds_the_unknown
    (analyzeEmail : nat -> string -> string -> OpenRouter.AIResponse)
    (laterFirst : nat -> bool) (Date_parse : string -> JSDate)
    (toISOString : Z -> string)
    (w : World) (password : string) (emails : list EnrichedEmail)
    (rawEmails : list Email) :
  password <> "" -> validDates rawEmails -> validDates (base <$> emails) ->
  let unknown := filter (fun e => id e ∉ Client.idsOf emails) rawEmails in
  let after := Client.refreshEmails analyzeEmail laterFirst Date_parse toISOString
                 w password emails rawEmails in
  base <$> after.2 ≡ₚ (base <$> emails) ++ unknown
  /\ (unknown = [] -> after.2 = emails)
  /\ (unknown <> [] -> ascending after.2)
  /\ (NoDup (Client.idsOf emails) -> NoDup (id <$> rawEmails) ->
      NoDup (Client.idsOf after.2))
  /\ (Client.refreshEmails analyzeEmail laterFirst Date_parse toISOString
        after.1 password after.2 rawEmails).2 = after.2.
Proof.
  intros Hp Hraw Hem. cbv zeta.
  destruct (refreshEmails_spec analyzeEmail laterFirst Date_parse toISOString
              w password emails rawEmails Hp Hraw Hem) as (Hperm & Hsame & Hasc).
  set (after := Client.refreshEmails analyzeEmail laterFirst Date_parse toISOString
                  w password emails rawEmails) in *.
  set (unknown := filter (fun e => id e ∉ Client.idsOf emails) rawEmails) in *.
  split; [exact Hperm|]. split; [exact Hsame|]. split; [exact Hasc|]. split.
  - intros Hnd Hndr. rewrite idsOf_base, Hperm, fmap_app. apply NoDup_app.
    split; [by rewrite <- idsOf_base|]. split.
    + intros x Hx Hin. apply list_elem_of_fmap in Hin as (e & -> & He).
      apply list_elem_of_filter in He as [He _]. apply He. by rewrite idsOf_base.
    + eapply sublist_NoDup; [exact Hndr|]. apply fmap_sublist, sublist_filter.
  - assert (Hv : validDates (base <$> after.2)).
    { eapply validDates_perm; [symmetry; exact Hperm|]. unfold validDates in *.
      apply Forall_app. split; [exact Hem|].
      eapply (validDates_sublist unknown); [apply sublist_filter|exact Hraw]. }
    destruct (refreshEmails_spec analyzeEmail laterFirst Date_parse toISOString
                after.1 password after.2 rawEmails Hp Hraw Hv) as (_ & Hsame2 & _).
    apply Hsame2. clear Hsame2.
    assert (Hall : forall e, e ∈ rawEmails -> id e ∈ Client.idsOf after.2).
    { intros e He. rewrite idsOf_base, Hperm, fmap_app. apply elem_of_app.
      destruct (decide (id e ∈ Client.idsOf emails)) as [Hin|Hout].
      - left. by rewrite <- idsOf_base.
      - right. apply list_elem_of_fmap_2. by apply list_elem_of_filter. }
    apply filter_none. intros e He Hout. by apply Hout, Hall.
Qed.

Lemma refresh_adds_the_unknown_witness :
  let emails := [Samples.shownNotice] in
  let rawEmails := Scenarios.notice :: Scenarios.fortyMessages in
  let unknown := filter (fun e => id e ∉ Client.idsOf emails) rawEmails in
  let after := Client.refreshEmails Scenarios.flakyAnalyze (fun _ => true)
                 Samples.midwayParse Samples.isoStandIn
                 Scenarios.emptyWorld "secret" emails rawEmails in
  base <$> after.2 ≡ₚ (base <$> emails) ++ unknown
  /\ (unknown = [] -> after.2 = emails)
  /\ (unknown <> [] -> ascending after.2)
  /\ (NoDup (Client.idsOf emails) -> NoDup (id <$> rawEmails) ->
      NoDup (Client.idsOf after.2))
  /\ (Client.refreshEmails Scenarios.flakyAnalyze (fun _ => true)
        Samples.midwayParse Samples.isoStandIn
        after.1 "secret" after.2 rawEmails).2 = after.2.
Proof.
  apply (refresh_adds_the_unknown Scenarios.flakyAnalyze (fun _ => true)
           Samples.midwayParse Samples.isoStandIn Scenarios.emptyWorld "secret"
           [Samples.shownNotice] (Scenarios.notice :: Scenarios.fortyMessages)).
  - discriminate.
  - constructor; [by eexists|exact validDates_fortyMessages].
  - constructor; [by eexists|constructor].
Defined.

(** ** The list of upcoming events *)

Lemma array_indexOf_app_fresh x pre suf :
  x ∉ pre -> Client.array_indexOf x (pre ++ x :: suf) = Some (length pre).
Proof.
  induction pre as [|y pre IH]; intros Hx.
  - cbn. by rewrite String.eqb_refl.
  - apply not_elem_of_cons in Hx as [Hne Hx]. cbn.
    destruct (String.eqb_spec y x); [congruence|]. by rewrite (IH Hx).
Qed.

Lemma array_indexOf_app_seen x pre suf i :
  x ∈ pre -> Client.array_indexOf x (pre ++ suf) = Some i -> (i < length pre)%nat.
Proof.
  revert i. induction pre as [|y pre IH]; intros i Hx H.
  - by apply elem_of_nil in Hx.
  - cbn in H. destruct (String.eqb_spec y x) as [->|Hne].
    + injection H as <-. cbn. lia.
    + apply elem_of_cons in Hx as [->|Hx]; [done|].
      destruct (Client.array_indexOf x (pre ++ suf)) as [j|] eqn:E; [|done].
      injection H as <-. specialize (IH j Hx eq_refl). cbn. lia.
Qed.

(** what is kept of [suf], the part of [self] after [pre] *)
Lemma keepFirst_spec suf : forall pre,
  let kept := Client.keepFirst (pre ++ suf) (length pre) suf in
  NoDup kept
  /\ sublist kept suf
  /\ (forall x, x ∈ kept <-> x ∈ suf /\ x ∉ pre).
Proof.
  induction suf as [|x suf IH]; intros pre; cbv zeta.
  - cbn. split; [constructor|]. split; [done|]. intros x. split.
    + intros Hx. by apply elem_of_nil in Hx.
    + intros [Hx _]. by apply elem_of_nil in Hx.
  - cbn [Client.keepFirst].
    specialize (IH (pre ++ [x])). cbv zeta in IH.
    rewrite <- app_assoc, length_app in IH. cbn [app length] in IH.
    replace (length pre + 1)%nat with (S (length pre)) in IH by lia.
    destruct IH as (Hnd & Hsub & Hin).
    case_bool_decide as Hidx.
    + assert (Hx : x ∉ pre).
      { intros Hx. pose proof (array_indexOf_app_seen x pre (x :: suf) _ Hx Hidx). lia. }
      split; [|split].
      * constructor; [|exact Hnd]. rewrite Hin. intros [_ Hout].
        apply Hout, elem_of_app. right. by apply list_elem_of_singleton.
      * by constructor.
      * intros y. rewrite !elem_of_cons, Hin, elem_of_app, list_elem_of_singleton.
        destruct (decide (y = x)) as [->|Hne]; intuition congruence.
    + assert (Hx : x ∈ pre).
      { destruct (decide (x ∈ pre)) as [|Hx]; [done|].
        by rewrite array_indexOf_app_fresh in Hidx. }
      split; [exact Hnd|]. split; [by constructor|].
      intros y. rewrite Hin, elem_of_cons, elem_of_app, list_elem_of_singleton.
      destruct (decide (y = x)) as [->|Hne]; intuition congruence.
Qed.

(** the positions of [suf] in [self] at which an event occurs for the first
    time, and the events kept from there *)
Lemma keepFirst_positions suf : forall pre,
  exists positions,
    StronglySorted lt positions
    /\ (forall i, i ∈ positions <->
          (length pre <= i)%nat
          /\ exists x, (pre ++ suf) !! i = Some x /\ x ∉ take i (pre ++ suf))
    /\ Forall2 (fun x i => (pre ++ suf) !! i = Some x)
         (Client.keepFirst (pre ++ suf) (length pre) suf) positions.
Proof.
  induction suf as [|x suf IH]; intros pre.
  - exists []. split; [constructor|]. split; [|constructor].
    intros i. split; [intros Hi; by apply elem_of_nil in Hi|].
    intros (Hi & y & Hy & _). rewrite app_nil_r in Hy.
    apply lookup_lt_Some in Hy. lia.
  - destruct (IH (pre ++ [x])) as (positions & Hsort & Hmem & Hkept).
    rewrite <- app_assoc, length_app in Hmem, Hkept. cbn [app length] in Hmem, Hkept.
    replace (length pre + 1)%nat with (S (length pre)) in Hmem, Hkept by lia.
    assert (Hhere : (pre ++ x :: suf) !! length pre = Some x) by (by apply list_lookup_middle).
    assert (Htake : take (length pre) (pre ++ x :: suf) = pre) by (by rewrite take_app_length).
    cbn [Client.keepFirst]. case_bool_decide as Hidx.
    + assert (Hx : x ∉ pre).
      { intros Hx. pose proof (array_indexOf_app_seen x pre (x :: suf) _ Hx Hidx). lia. }
      exists (length pre :: positions). split; [|split].
      * constructor; [exact Hsort|]. apply Forall_forall. intros j Hj.
        apply Hmem in Hj as [Hj _]. lia.
      * intros i. rewrite elem_of_cons, Hmem. split.
        -- intros [->|(Hi & Hocc)]; [|split; [lia|exact Hocc]].
           split; [lia|]. exists x. by rewrite Htake.
        -- intros (Hi & Hocc). destruct (decide (i = length pre)) as [->|Hne]; [by left|].
           right. split; [lia|exact Hocc].
      * by constructor.
    + assert (Hx : x ∈ pre).
      { destruct (decide (x ∈ pre)) as [|Hx]; [done|].
        by rewrite array_indexOf_app_fresh in Hidx. }
      exists positions. split; [exact Hsort|]. split; [|exact Hkept].
      intros i. rewrite Hmem. split.
      * intros (Hi & Hocc). split; [lia|exact Hocc].
      * intros (Hi & y & Hy & Hfresh). destruct (decide (i = length pre)) as [->|Hne].
        -- rewrite Hhere in Hy. injection Hy as <-. by rewrite Htake in Hfresh.
        -- split; [lia|]. by exists y.
Qed.

(** X22. The list of upcoming events on display: it holds no event twice
    and at most ten; it is cut from the events of the shown messages in
    their order (those of an academic message under the academic tag); and
    it is made of the first ten events that occur for the first time: going
    through the positions, in ascending order, at which an event occurs
    that has not occurred before, the list holds the events at the first ten
    of them, in that order. *)
Theorem allEvents_distinct_at_most_ten (emails : list Client.Card) :
  let events := mjoin (Client.eventsOf <$> emails) in
  NoDup (Client.allEvents emails)
  /\ (length (Client.allEvents emails) <= 10)%nat
  /\ sublist (Client.allEvents emails) events
  /\ (forall x, x ∈ Client.allEvents emails -> x ∈ events)
  /\ (exists rest,
        NoDup (Client.allEvents emails ++ rest)
        /\ (forall x, x ∈ events <-> x ∈ Client.allEvents emails ++ rest)
        /\ (rest <> [] -> length (Client.allEvents emails) = 10%nat))
  /\ (exists positions,
        StronglySorted lt positions
        /\ (forall i, i ∈ positions <->
              exists x, events !! i = Some x /\ x ∉ take i events)
        /\ Forall2 (fun x i => events !! i = Some x)
             (Client.allEvents emails) (take 10 positions)).
Proof.
  cbv zeta. unfold Client.allEvents. cbv zeta.
  set (events := mjoin (Client.eventsOf <$> emails)).
  destruct (keepFirst_spec events []) as (Hnd & Hsub & Hin).
  destruct (keepFirst_positions events []) as (positions & Hsort & Hmem & Hkept).
  cbn [app length] in *.
  set (kept := Client.keepFirst events 0 events) in *.
  split; [eapply sublist_NoDup; [exact Hnd|apply sublist_take]|].
  split; [rewrite length_take; lia|].
  split; [etrans; [apply sublist_take|exact Hsub]|].
  split.
  { intros x Hx. apply (elem_of_sublist (take 10 kept)); [exact Hx|].
    etrans; [apply sublist_take|exact Hsub]. }
  split.
  { exists (drop 10 kept). rewrite take_drop. split; [exact Hnd|]. split.
    - intros x. rewrite Hin. split; [|tauto]. intros Hx. split; [done|]. apply not_elem_of_nil.
    - intros Hrest. rewrite length_take. destruct (decide (10 <= length kept)%nat); [lia|].
      destruct Hrest. apply drop_ge. lia. }
  exists positions. split; [exact Hsort|]. split.
  - intros i. rewrite Hmem. split; [tauto|]. intros Hocc. split; [lia|exact Hocc].
  - by apply Forall2_take.
Qed.

(** ** From the event list to the sidebar *)

Lemma no_char_trimStart d s :
  includes s (String d "") = false -> includes (trimStart s) (String d "") = false.
Proof.
  induction s as [|c s IH]; intros H; [done|]. cbn [trimStart].
  destruct (is_ws c); [|done]. apply no_char_cons in H as [_ H]. by apply IH.
Qed.

Lemma no_char_trimEnd d s :
  includes s (String d "") = false -> includes (trimEnd s) (String d "") = false.
Proof.
  induction s as [|c s IH]; intros H; [done|]. cbn [trimEnd].
  apply no_char_cons in H as [Hne H]. specialize (IH H).
  destruct (trimEnd s) as [|x t].
  - destruct (is_ws c); [done|]. by apply no_char_intro.
  - by apply no_char_intro.
Qed.

Lemma no_char_trim d s :
  includes s (String d "") = false -> includes (trim s) (String d "") = false.
Proof. intros H. by apply no_char_trimEnd, no_char_trimStart. Qed.

Lemma trimEnd_app_space x : trimEnd (x +:+ " ") = trimEnd x.
Proof.
  induction x as [|c x IH]; [done|]. rewrite append_cons. cbn [trimEnd]. by rewrite IH.
Qed.

Lemma trim_app_space s : trim (s +:+ " ") = trim s.
Proof.
  unfold trim. induction s as [|c s IH]; [done|]. rewrite append_cons. cbn [trimStart].
  destruct (is_ws c); [exact IH|]. rewrite <- append_cons. apply trimEnd_app_space.
Qed.

(** the two parts of a tagged event *)
Lemma split_tagged base :
  includes base "|" = false ->
  split (base +:+ " |academic") "|" = [base +:+ " "; "academic"].
Proof.
  intros Hb.
  assert (Hsp : indexOf "|" (base +:+ " ") = None).
  { apply includes_false. by apply no_char_app. }
  replace (base +:+ " |academic") with ((base +:+ " ") +:+ String "|" "academic")
    by (by rewrite append_assoc).
  unfold split. rewrite split_go_indexOf by done.
  rewrite (indexOf_char_app "|" (base +:+ " ") "academic" Hsp).
  change (String.length "|") with 1%nat.
  by rewrite take_str_app, drop_str_past.
Qed.

Lemma academicTag_base event :
  exists base,
    Client.academicTag event = base +:+ " |academic"
    /\ includes base "|" = false
    /\ trim base = trim (OpenRouter.upTo "|" event).
Proof.
  unfold Client.academicTag. destruct (includes event "|") eqn:E.
  - exists (trim (hd "" (split event "|"))).
    assert (Hhd : hd "" (split event "|") = OpenRouter.upTo "|" event).
    { pose proof (split_head event "|" ltac:(done)) as H.
      unfold split in *. destruct (split_go "|" 0 event) as [a l]. cbn in *. by injection H. }
    rewrite Hhd. split; [done|]. split; [|apply trim_idem].
    apply no_char_trim. by apply upTo_free.
  - exists event. split; [done|]. split; [exact E|].
    apply includes_false in E. unfold OpenRouter.upTo. by rewrite E.
Qed.

(** X23. From the event list to the sidebar: an event that the event list
    puts under the academic tag is always shown by the sidebar as a
    deadline, under the text before its first bar with the blanks cut off,
    which holds no bar; so it is listed on the card of important dates and
    never on the card of other events. *)
Theorem academic_events_are_deadlines (event : string) (upcomingDates : list string) :
  let shown := Client.categorizeEvent (Client.academicTag event) in
  Client.type shown = "deadline"
  /\ Client.text shown = trim (OpenRouter.upTo "|" event)
  /\ includes (Client.text shown) "|" = false
  /\ (Client.academicTag event ∈ upcomingDates ->
      shown ∈ Client.importantDates upcomingDates
      /\ shown ∉ Client.otherEvents upcomingDates).
Proof.
  cbv zeta. destruct (academicTag_base event) as (base & -> & Hbar & Htrim).
  assert (Hshown : Client.categorizeEvent (base +:+ " |academic")
                   = {| Client.text := trim (OpenRouter.upTo "|" event);
                        Client.type := "deadline" |}).
  { unfold Client.categorizeEvent. rewrite (split_tagged base Hbar).
    cbv zeta. change (String.eqb (Client.toLowerCase (trim "academic")) "academic") with true.
    cbv iota. by rewrite trim_app_space, Htrim. }
  rewrite Hshown. cbn [Client.type Client.text].
  split; [done|]. split; [done|]. split.
  { rewrite <- Htrim. by apply no_char_trim. }
  intros Hin. split.
  - unfold Client.importantDates, Client.categorizeEvents.
    apply list_elem_of_filter. split; [by right|].
    rewrite <- Hshown. by apply list_elem_of_fmap_2.
  - unfold Client.otherEvents. intros Hout.
    by apply list_elem_of_filter in Hout as [Hout _].
Qed.
